(** * cses-go-runner: session, fixture and harness core

    A shallow embedding of the Go sources (executor, fetcher, runner and
    auth) together with the parts of the Go standard library they call,
    and the properties of the design document proved over it. *)

From Stdlib Require Import ZArith Ascii String List Lia Bool DecimalString.
From Stdlib Require Import DecimalPos.
From stdpp Require Import base option list sorting gmap.

Local Open Scope Z_scope.

(** ** Go strings

    A Go [string] is an immutable sequence of bytes. *)

Abbreviation gostring := (list ascii).

Definition str (s : string) : gostring := list_ascii_of_string s.
Arguments str : simpl never.

Definition b2z (c : ascii) : Z := Z.of_N (N_of_ascii c).

Module utf8.

Definition RuneError : Z := 0xFFFD.
Definition RuneSelf : Z := 0x80.
Definition UTFMax : nat := 4.

(** The [first] table of package unicode/utf8: information about the
    first byte of an encoding ([as] = 0xF0, [xx] = 0xF1, [s1]..[s7]). *)
Definition first (b : Z) : Z :=
  if b <? 0x80 then 0xF0
  else if b <? 0xC2 then 0xF1
  else if b <? 0xE0 then 0x02
  else if b =? 0xE0 then 0x13
  else if b <? 0xED then 0x03
  else if b =? 0xED then 0x23
  else if b <? 0xF0 then 0x03
  else if b =? 0xF0 then 0x34
  else if b <? 0xF4 then 0x04
  else if b =? 0xF4 then 0x44
  else 0xF1.

Definition acceptRanges (i : Z) : Z * Z :=
  if i =? 0 then (0x80, 0xBF)
  else if i =? 1 then (0xA0, 0xBF)
  else if i =? 2 then (0x80, 0x9F)
  else if i =? 3 then (0x90, 0xBF)
  else if i =? 4 then (0x80, 0x8F)
  else (0, 0).

(** [utf8.DecodeRuneInString]: the first rune of [s] and its width in
    bytes; an invalid or short encoding is [(RuneError, 1)]. *)
Definition DecodeRuneInString (s : gostring) : Z * nat :=
  match s with
  | [] => (RuneError, 0%nat)
  | c0 :: t0 =>
      let s0 := b2z c0 in
      let x := first s0 in
      if 0xF0 <=? x then
        ((if x =? 0xF0 then s0 else RuneError), 1%nat)
      else
        let sz := Z.land x 7 in
        let accept := acceptRanges (Z.shiftr x 4) in
        if Z.of_nat (length s) <? sz then (RuneError, 1%nat)
        else
          match t0 with
          | [] => (RuneError, 1%nat)
          | c1 :: t1 =>
              let s1 := b2z c1 in
              if (s1 <? fst accept) || (snd accept <? s1) then (RuneError, 1%nat)
              else if sz <=? 2 then
                (Z.lor (Z.shiftl (Z.land s0 0x1F) 6) (Z.land s1 0x3F), 2%nat)
              else
                match t1 with
                | [] => (RuneError, 1%nat)
                | c2 :: t2 =>
                    let s2 := b2z c2 in
                    if (s2 <? 0x80) || (0xBF <? s2) then (RuneError, 1%nat)
                    else if sz <=? 3 then
                      (Z.lor (Z.lor (Z.shiftl (Z.land s0 0x0F) 12)
                                    (Z.shiftl (Z.land s1 0x3F) 6))
                             (Z.land s2 0x3F), 3%nat)
                    else
                      match t2 with
                      | [] => (RuneError, 1%nat)
                      | c3 :: _ =>
                          let s3 := b2z c3 in
                          if (s3 <? 0x80) || (0xBF <? s3) then (RuneError, 1%nat)
                          else
                            (Z.lor (Z.lor (Z.lor (Z.shiftl (Z.land s0 0x07) 18)
                                                 (Z.shiftl (Z.land s1 0x3F) 12))
                                          (Z.shiftl (Z.land s2 0x3F) 6))
                                   (Z.land s3 0x3F), 4%nat)
                      end
                end
          end
  end.

Definition RuneStart (b : Z) : bool := negb (Z.land b 0xC0 =? 0x80).

(** The byte [s[i]] for an integer index. *)
Definition byte_at (s : gostring) (i : Z) : Z :=
  match s !! Z.to_nat i with
  | Some c => b2z c
  | None => 0
  end.

(** The backward scan of [DecodeLastRuneInString]:
    [for start--; start >= lim; start-- { if RuneStart(s[start]) { break } }],
    entered after the first [start--]. *)
Fixpoint scan_start (fuel : nat) (s : gostring) (start lim : Z) : Z :=
  match fuel with
  | O => start
  | S fuel' =>
      if start <? lim then start
      else if RuneStart (byte_at s start) then start
      else scan_start fuel' s (start - 1) lim
  end.

(** [utf8.DecodeLastRuneInString]: the last rune of [s] and its width. *)
Definition DecodeLastRuneInString (s : gostring) : Z * nat :=
  let e := Z.of_nat (length s) in
  if e =? 0 then (RuneError, 0%nat)
  else
    let start := e - 1 in
    let r := byte_at s start in
    if r <? RuneSelf then (r, 1%nat)
    else
      let lim := Z.max 0 (e - Z.of_nat UTFMax) in
      let start := scan_start UTFMax s (start - 1) lim in
      let start := Z.max 0 start in
      let '(r, size) := DecodeRuneInString (drop (Z.to_nat start) s) in
      if negb (start + Z.of_nat size =? e) then (RuneError, 1%nat)
      else (r, size).

End utf8.

Module unicode.

(** [unicode.IsSpace]: Latin-1 spaces, else the White_Space table. *)
Definition IsSpace (r : Z) : bool :=
  if (0 <=? r) && (r <=? 0xFF) then
    (r =? 0x09) || (r =? 0x0A) || (r =? 0x0B) || (r =? 0x0C) || (r =? 0x0D)
    || (r =? 0x20) || (r =? 0x85) || (r =? 0xA0)
  else
    (r =? 0x1680) || ((0x2000 <=? r) && (r <=? 0x200A))
    || (r =? 0x2028) || (r =? 0x2029) || (r =? 0x202F) || (r =? 0x205F)
    || (r =? 0x3000).

End unicode.

Module strings.

Definition byte_in (cutset : gostring) (c : ascii) : bool :=
  existsb (Ascii.eqb c) cutset.

(** [strings.HasPrefix] and [strings.HasSuffix]. *)
Fixpoint HasPrefix (s prefix : gostring) : bool :=
  match prefix, s with
  | [], _ => true
  | p :: prefix', c :: s' => Ascii.eqb c p && HasPrefix s' prefix'
  | _ :: _, [] => false
  end.

Definition HasSuffix (s suffix : gostring) : bool :=
  HasPrefix (rev s) (rev suffix).

(** [strings.TrimPrefix] and [strings.TrimSuffix]. *)
Definition TrimPrefix (s prefix : gostring) : gostring :=
  if HasPrefix s prefix then drop (length prefix) s else s.

Definition TrimSuffix (s suffix : gostring) : gostring :=
  if HasSuffix s suffix then take (length s - length suffix)%nat s else s.

(** [strings.Contains]. *)
Fixpoint Contains (s substr : gostring) : bool :=
  HasPrefix s substr ||
  match s with
  | [] => false
  | _ :: s' => Contains s' substr
  end.

(** [strings.Split(s, sep)] for a separator of one byte (the source
    only splits at ["\n"]): one more piece than there are separators. *)
Fixpoint Split (s : gostring) (sep : ascii) : list gostring :=
  match s with
  | [] => [[]]
  | c :: s' =>
      if Ascii.eqb c sep then [] :: Split s' sep
      else match Split s' sep with
           | [] => [[c]]
           | l :: ls => (c :: l) :: ls
           end
  end.

(** [strings.Join]. *)
Fixpoint Join (elems : list gostring) (sep : gostring) : gostring :=
  match elems with
  | [] => []
  | [e] => e
  | e :: rest => e ++ sep ++ Join rest sep
  end.

(** [strings.TrimRight(s, cutset)] for a cutset of ASCII bytes (Go
    then trims byte by byte): drop the trailing bytes of the cutset. *)
Fixpoint TrimRight (s : gostring) (cutset : gostring) : gostring :=
  match s with
  | [] => []
  | c :: s' =>
      match TrimRight s' cutset with
      | [] => if byte_in cutset c then [] else [c]
      | t => c :: t
      end
  end.

(** [indexFunc]: the index of the first rune [r] of [s] with
    [f(r) == truth], or -1. The loop [for i, r := range s] decodes one
    rune after the other; every rune is at least one byte wide, so
    [length s] rounds suffice. *)
Fixpoint indexFunc_loop (fuel : nat) (s : gostring) (f : Z -> bool) (truth : bool)
    (i : nat) : Z :=
  match fuel with
  | O => -1
  | S fuel' =>
      match drop i s with
      | [] => -1
      | _ :: _ =>
          let '(r, size) := utf8.DecodeRuneInString (drop i s) in
          if Bool.eqb (f r) truth then Z.of_nat i
          else indexFunc_loop fuel' s f truth (i + size)
      end
  end.

Definition indexFunc (s : gostring) (f : Z -> bool) (truth : bool) : Z :=
  indexFunc_loop (length s) s f truth 0.

(** [lastIndexFunc]: the same from the end,
    [for i := len(s); i > 0; { r, size := DecodeLastRuneInString(s[0:i]); ... }]. *)
Fixpoint lastIndexFunc_loop (fuel : nat) (s : gostring) (f : Z -> bool)
    (truth : bool) (i : nat) : Z :=
  match fuel with
  | O => -1
  | S fuel' =>
      if (0 <? i)%nat then
        let '(r, size) := utf8.DecodeLastRuneInString (take i s) in
        let i := (i - size)%nat in
        if Bool.eqb (f r) truth then Z.of_nat i
        else lastIndexFunc_loop fuel' s f truth i
      else -1
  end.

Definition lastIndexFunc (s : gostring) (f : Z -> bool) (truth : bool) : Z :=
  lastIndexFunc_loop (length s) s f truth (length s).

(** [strings.TrimLeftFunc]. *)
Definition TrimLeftFunc (s : gostring) (f : Z -> bool) : gostring :=
  let i := indexFunc s f false in
  if i =? -1 then [] else drop (Z.to_nat i) s.

(** [strings.TrimRightFunc]. *)
Definition TrimRightFunc (s : gostring) (f : Z -> bool) : gostring :=
  let i := lastIndexFunc s f false in
  let i :=
    if (0 <=? i) && (utf8.RuneSelf <=? utf8.byte_at s i) then
      let '(_, wid) := utf8.DecodeRuneInString (drop (Z.to_nat i) s) in
      i + Z.of_nat wid
    else i + 1 in
  take (Z.to_nat i) s.

(** [strings.TrimFunc]. *)
Definition TrimFunc (s : gostring) (f : Z -> bool) : gostring :=
  TrimRightFunc (TrimLeftFunc s f) f.

(** The table [asciiSpace]: tab, newline, vertical tab, form feed,
    carriage return and space. *)
Definition asciiSpace (c : ascii) : bool :=
  byte_in ["009"; "010"; "011"; "012"; "013"; " "]%char c.

(** The second loop of [strings.TrimSpace], on [s[start:]] read from
    its end: skip ASCII spaces, stop at another ASCII byte, and hand
    over to [TrimRightFunc] at a byte that is not ASCII. *)
Fixpoint TrimSpace_stop (reversed : gostring) : gostring :=
  match reversed with
  | [] => []
  | c :: reversed' =>
      if utf8.RuneSelf <=? b2z c then TrimRightFunc (rev reversed) unicode.IsSpace
      else if asciiSpace c then TrimSpace_stop reversed'
      else rev reversed
  end.

(** [strings.TrimSpace]: the first loop skips leading ASCII spaces,
    hands over to [TrimFunc] at a byte that is not ASCII, and goes on
    with the second loop at another ASCII byte. *)
Fixpoint TrimSpace (s : gostring) : gostring :=
  match s with
  | [] => []
  | c :: s' =>
      if utf8.RuneSelf <=? b2z c then TrimFunc s unicode.IsSpace
      else if asciiSpace c then TrimSpace s'
      else TrimSpace_stop (rev s)
  end.

End strings.

Module strconv.

Definition is_digit (c : ascii) : bool := (48 <=? b2z c) && (b2z c <=? 57).

Fixpoint digits_value (acc : Z) (s : gostring) : option Z :=
  match s with
  | [] => Some acc
  | c :: s' =>
      if is_digit c then digits_value (acc * 10 + (b2z c - 48)) s' else None
  end.

(** [strconv.Atoi] on a 64-bit platform: an optional sign and decimal
    digits. The result is the value and whether [err == nil]; a syntax
    error gives 0, a range error the nearest [int]. *)
Definition Atoi (s : gostring) : Z * bool :=
  let '(neg, digits) :=
    match s with
    | c :: t =>
        if Ascii.eqb c "-" then (true, t)
        else if Ascii.eqb c "+" then (false, t)
        else (false, s)
    | [] => (false, s)
    end in
  match digits with
  | [] => (0, false)
  | _ :: _ =>
      match digits_value 0 digits with
      | None => (0, false)
      | Some un =>
          let cutoff := 2 ^ 63 in
          if negb neg && (cutoff <=? un) then (cutoff - 1, false)
          else if neg && (cutoff <? un) then (- cutoff, false)
          else ((if neg then - un else un), true)
      end
  end.

(** [strconv.Itoa], also the verb [%d] of [fmt.Sprintf]. *)
Definition Itoa (n : Z) : gostring := str (NilZero.string_of_int (Z.to_int n)).

End strconv.

Module time.

Definition Nanosecond : Z := 1.
Definition Second : Z := 1000000000.
Definition Hour : Z := 3600 * Second.

Definition minDuration : Z := - 2 ^ 63.
Definition maxDuration : Z := 2 ^ 63 - 1.

(** [Time.Sub]: the difference in nanoseconds, saturating at the
    bounds of [Duration]. Instants are nanoseconds on one time line. *)
Definition Sub (t u : Z) : Z := Z.max minDuration (Z.min maxDuration (t - u)).

(** [time.Since(t)] when the clock reads [now]. *)
Definition Since (now t : Z) : Z := Sub now t.

End time.

(** Byte-wise lexical order of file names, the order of [os.ReadDir]. *)
Fixpoint name_ltb (a b : gostring) : bool :=
  match a, b with
  | [], [] => false
  | [], _ :: _ => true
  | _ :: _, [] => false
  | x :: a', y :: b' =>
      if b2z x <? b2z y then true
      else if b2z y <? b2z x then false
      else name_ltb a' b'
  end.

(** ** The executor: output normalisation *)

Definition newline : ascii := "010"%char.

(** The cutset [" \t\r"] of the per-line trim. *)
Definition lineBlanks : gostring := [" "; "009"; "013"]%char.

(** [normalizeOutput]: right-trim every line, rejoin, trim the whole. *)
Definition normalizeOutput (output : gostring) : gostring :=
  let lines := strings.Split output newline in
  let normalizedLines := map (fun line => strings.TrimRight line lineBlanks) lines in
  let result := strings.Join normalizedLines [newline] in
  strings.TrimSpace result.

(** [compareOutputs]. *)
Definition compareOutputs (actual expected : gostring) : bool :=
  let actual := normalizeOutput actual in
  let expected := normalizeOutput expected in
  bool_decide (actual = expected).

(** ** Auxiliary notions for the proofs *)

(** What [strings.TrimLeftFunc] computes: drop the leading runes that
    satisfy [f]. *)
Fixpoint dropLeft_loop (fuel : nat) (f : Z -> bool) (s : gostring) : gostring :=
  match fuel with
  | O => s
  | S fuel' =>
      match s with
      | [] => []
      | _ :: _ =>
          let '(r, size) := utf8.DecodeRuneInString s in
          if f r then dropLeft_loop fuel' f (drop size s) else s
      end
  end.

Definition dropLeft (s : gostring) (f : Z -> bool) : gostring :=
  dropLeft_loop (length s) f s.

(** What [strings.TrimRightFunc] computes: drop the trailing runes
    that satisfy [f], decoding backwards from the end. *)
Fixpoint dropRight_loop (fuel : nat) (f : Z -> bool) (s : gostring) : gostring :=
  match fuel with
  | O => s
  | S fuel' =>
      match s with
      | [] => []
      | _ :: _ =>
          let '(r, size) := utf8.DecodeLastRuneInString s in
          if f r then dropRight_loop fuel' f (take (length s - size)%nat s) else s
      end
  end.

Definition dropRight (s : gostring) (f : Z -> bool) : gostring :=
  dropRight_loop (length s) f s.

Definition dropBoth (s : gostring) (f : Z -> bool) : gostring :=
  dropRight (dropLeft s f) f.

(** The loop of [dropLeft] has stopped at [s]. *)
Definition left_stopped (f : Z -> bool) (s : gostring) : Prop :=
  s = [] \/ f (fst (utf8.DecodeRuneInString s)) = false.

(** The loop of [dropRight] has stopped at [s]. *)
Definition right_stopped (f : Z -> bool) (s : gostring) : Prop :=
  s = [] \/ f (fst (utf8.DecodeLastRuneInString s)) = false.

(** The first three steps of [normalizeOutput]. *)
Definition trimLines (s : gostring) : gostring :=
  strings.Join (map (fun line => strings.TrimRight line lineBlanks)
                    (strings.Split s newline)) [newline].

Definition at_line_end (s : gostring) : bool :=
  match s with
  | [] => true
  | d :: _ => Ascii.eqb d newline
  end.

(** No blank stands directly before a newline or at the end. *)
Fixpoint clean (s : gostring) : bool :=
  match s with
  | [] => true
  | c :: s' => negb (strings.byte_in lineBlanks c && at_line_end s') && clean s'
  end.

(** Position [e] of [s] is the end of [s] or the start of a rune. *)
Definition rune_boundary (s : gostring) (e : nat) : Prop :=
  match drop e s with
  | [] => True
  | c :: _ => utf8.RuneStart (b2z c) = true
  end.

(** ** Configuration, fixtures and results *)

Record Config := {
  FilePath : gostring;
  ProblemID : gostring;
  Timeout : gostring;
  Verbose : bool;
  CacheDir : gostring;
  Parallel : Z;
  ShowDiff : bool;
  MaxOutput : Z;
  Optimize : bool;
  Race : bool;
  ForceAuth : bool
}.

Record TestCase := {
  Input : gostring;
  Expected : gostring;
  Number : Z
}.

Record TestResult := {
  TestNumber : Z;
  Passed : bool;
  Error : gostring;
  Duration : Z;
  ActualOutput : gostring;
  ExpectedOutput : gostring;
  InputFile : gostring;
  ExpectedFile : gostring;
  MemoryUsage : gostring;
  ExitCode : Z
}.

(** [result.Passed = passed] and [result.Error = msg]. *)
Definition set_Passed (result : TestResult) (passed : bool) : TestResult :=
  {| TestNumber := TestNumber result; Passed := passed; Error := Error result;
     Duration := Duration result; ActualOutput := ActualOutput result;
     ExpectedOutput := ExpectedOutput result; InputFile := InputFile result;
     ExpectedFile := ExpectedFile result; MemoryUsage := MemoryUsage result;
     ExitCode := ExitCode result |}.

Definition set_Error (result : TestResult) (msg : gostring) : TestResult :=
  {| TestNumber := TestNumber result; Passed := Passed result; Error := msg;
     Duration := Duration result; ActualOutput := ActualOutput result;
     ExpectedOutput := ExpectedOutput result; InputFile := InputFile result;
     ExpectedFile := ExpectedFile result; MemoryUsage := MemoryUsage result;
     ExitCode := ExitCode result |}.

(** A Go [error] is modelled by its message; [nil] is [None]. *)
Abbreviation error := (option gostring).

(** What [cmd.Run()] reports for one child process. *)
Inductive RunError :=
| ExitError (code : Z) (msg : gostring)
| OtherError (msg : gostring).

Definition RunError_text (e : RunError) : gostring :=
  match e with
  | ExitError _ msg => msg
  | OtherError msg => msg
  end.

(** One execution of the candidate program as the operating system
    carried it out: the error of [cmd.Run()], whether the context had
    passed its deadline when it returned, the two captured streams and
    the time that elapsed. *)
Record ChildRun := {
  run_err : option RunError;
  deadline_exceeded : bool;
  child_stdout : gostring;
  child_stderr : gostring;
  elapsed : Z
}.

(** A call that can fail: its value or the message of its error. *)
Inductive result (A : Type) :=
| Ok (a : A)
| Fail (msg : gostring).
Arguments Ok {A} a.
Arguments Fail {A} msg.

Record SessionData := {
  PHPSessionID : gostring;
  CSRFToken : gostring;
  Username : gostring;
  CreatedAt : Z;
  LastUsed : Z
}.

(** An entry of the archive as [archive/zip] presents it: its name,
    whether it is a directory, and its content when it can be opened
    and read. *)
Record ZipEntry := {
  zipName : gostring;
  zipIsDir : bool;
  zipContent : result gostring
}.

(** The functions of the Go library that are used as black boxes, and
    the order in which a [range] loop visits the keys of a map, which
    Go leaves unspecified. *)
Record GoLibrary := {
  filepath_Join : list gostring -> gostring;
  filepath_Dir : gostring -> gostring;
  ParseDuration : gostring -> option Z;
  Duration_String : Z -> gostring;
  json_Unmarshal : gostring -> result SessionData;
  json_MarshalIndent : SessionData -> result gostring;
  FindStringSubmatch : gostring -> gostring -> list gostring;
  zip_NewReader : gostring -> result (list ZipEntry);
  map_range : gmap Z gostring -> list Z
}.

Section Core.

Variable go : GoLibrary.

(** ** The executor *)

Definition GetTimeout (c : Config) : Z :=
  match ParseDuration go (Timeout c) with
  | None => 1 * time.Second
  | Some duration => duration
  end.

(** [runGoProgram]: stdout, exit code and error of one run. *)
Definition runGoProgram (config : Config) (child : ChildRun)
  : gostring * Z * error :=
  match run_err child with
  | Some err =>
      let exitCode := match err with ExitError code _ => code | OtherError _ => 0 end in
      if deadline_exceeded child then
        ([], exitCode,
         Some (str "timeout exceeded (" ++ Duration_String go (GetTimeout config) ++ str ")"))
      else if (0 <? Z.of_nat (length (child_stderr child))) then
        ([], exitCode,
         Some (str "runtime error (exit code " ++ strconv.Itoa exitCode ++ str "): "
               ++ child_stderr child))
      else
        ([], exitCode,
         Some (str "execution failed (exit code " ++ strconv.Itoa exitCode ++ str "): "
               ++ RunError_text err))
  | None => (child_stdout child, 0, None)
  end.

(** [Execute]: run one fixture and judge its output. [spawn] is the
    operating system's answer to starting [executablePath] on an input. *)
Definition Execute (config : Config) (spawn : gostring -> gostring -> ChildRun)
    (executablePath : gostring) (testCase : TestCase) (testNumber : Z)
  : TestResult :=
  let child := spawn executablePath (Input testCase) in
  let inputFile :=
    filepath_Join go [CacheDir config; ProblemID config;
                   strconv.Itoa (Number testCase) ++ str ".in"] in
  let expectedFile :=
    filepath_Join go [CacheDir config; ProblemID config;
                   strconv.Itoa (Number testCase) ++ str ".out"] in
  let '(actualOutput, exitCode, err) := runGoProgram config child in
  let result :=
    {| TestNumber := testNumber; Passed := false; Error := [];
       Duration := elapsed child; ActualOutput := actualOutput;
       ExpectedOutput := Expected testCase;
       InputFile := inputFile; ExpectedFile := expectedFile;
       MemoryUsage := []; ExitCode := exitCode |} in
  match err with
  | Some msg => set_Error result msg
  | None =>
      if compareOutputs actualOutput (Expected testCase) then set_Passed result true
      else set_Error result (str "Output mismatch")
  end.

(** ** The runner: [runTests]

    Every fixture is run by a goroutine of its own. The goroutine sends
    on the buffered channel [semaphore] (capacity [Parallel]), runs
    [Execute], stores the result in [results[index]] and, in its
    deferred calls, receives from [semaphore] and signals the wait group.
    The interleaving of the goroutines is a step relation. *)

Inductive Phase :=
| Pending    (* not yet past [semaphore <- struct{}{}] *)
| Running    (* slot taken, [Execute] and its child process under way *)
| Stored     (* [results[index] = result] done, slot still held *)
| Finished.  (* slot given back, [wg.Done()] called *)

#[global] Instance Phase_eq_dec : EqDecision Phase.
Proof. solve_decision. Defined.

Record RunState := {
  phases : list Phase;
  semaphore : nat;
  results : list TestResult
}.

Definition zeroResult : TestResult :=
  {| TestNumber := 0; Passed := false; Error := []; Duration := 0;
     ActualOutput := []; ExpectedOutput := []; InputFile := [];
     ExpectedFile := []; MemoryUsage := []; ExitCode := 0 |}.

Section RunTests.

Variable config : Config.
(** [spawn i] is what happens to the child process of goroutine [i]. *)
Variable spawn : nat -> gostring -> gostring -> ChildRun.
Variable executablePath : gostring.
Variable testCases : list TestCase.

(** The state after the [for] loop has started all goroutines;
    [make(chan struct{}, n)] panics for a negative [n]. *)
Definition runTests_init : option RunState :=
  if Parallel config <? 0 then None
  else Some {| phases := replicate (length testCases) Pending;
               semaphore := 0;
               results := replicate (length testCases) zeroResult |}.

Inductive step : RunState -> RunState -> Prop :=
| step_acquire (s : RunState) (index : nat) :
    phases s !! index = Some Pending ->
    Z.of_nat (semaphore s) < Parallel config ->
    step s {| phases := <[index := Running]> (phases s);
              semaphore := S (semaphore s);
              results := results s |}
| step_execute (s : RunState) (index : nat) (tc : TestCase) :
    phases s !! index = Some Running ->
    testCases !! index = Some tc ->
    step s {| phases := <[index := Stored]> (phases s);
              semaphore := semaphore s;
              results := <[index := Execute config (spawn index) executablePath tc
                                      (Z.of_nat index + 1)]> (results s) |}
| step_release (s : RunState) (index : nat) :
    phases s !! index = Some Stored ->
    step s {| phases := <[index := Finished]> (phases s);
              semaphore := pred (semaphore s);
              results := results s |}.

(** [wg.Wait()] returns once every goroutine has called [wg.Done()];
    [runTests] then returns [results]. *)
Definition all_finished (s : RunState) : Prop :=
  Forall (fun p => p = Finished) (phases s).

Definition reachable (s : RunState) : Prop :=
  exists s0, runTests_init = Some s0 /\ rtc step s0 s.

(** The child processes that exist in a state. *)
Definition running_count (s : RunState) : nat :=
  length (filter (fun p => p = Running) (phases s)).

(** The goroutines that hold a slot of the gate. *)
Definition holding_count (s : RunState) : nat :=
  length (filter (fun p => p = Running \/ p = Stored) (phases s)).

(** The steps that remain until every goroutine has finished. *)
Definition phase_steps (p : Phase) : nat :=
  match p with
  | Pending => 3
  | Running => 2
  | Stored => 1
  | Finished => 0
  end.

Definition steps_left (s : RunState) : nat :=
  foldr (fun p n => (phase_steps p + n)%nat) 0%nat (phases s).

(** The value [runTests] returns. *)
Definition runTests_results : list TestResult :=
  imap (fun index tc => Execute config (spawn index) executablePath tc
                          (Z.of_nat index + 1)) testCases.

(** The invariant of a run: both arrays keep their size, the tokens in
    the channel are those of the goroutines that hold a slot, the
    channel is never over its capacity, and a goroutine that is past
    its store has left the result of its own fixture in its own slot. *)
Definition run_inv (s : RunState) : Prop :=
  length (phases s) = length testCases /\
  length (results s) = length testCases /\
  semaphore s = holding_count s /\
  Z.of_nat (semaphore s) <= Parallel config /\
  forall index tc,
    testCases !! index = Some tc ->
    phases s !! index = Some Stored \/ phases s !! index = Some Finished ->
    results s !! index =
      Some (Execute config (spawn index) executablePath tc (Z.of_nat index + 1)).

End RunTests.

(** ** The outside world

    Files, the environment, the clock and the remote judge answer the
    program's calls; every call is recorded in an event log. *)

Record Request := {
  Method : gostring;
  URL : gostring;
  Headers : list (gostring * gostring);
  Form : list (gostring * gostring)
}.

(** A response as the client sees it; [Body] is what [io.ReadAll]
    returns and [BodyError] its error, if any. *)
Record Response := {
  StatusCode : Z;
  Location : gostring;
  ContentType : gostring;
  Cookies : list (gostring * gostring);
  Body : gostring;
  BodyError : error
}.

Inductive Event :=
| EvStat (name : gostring)
| EvReadFile (name : gostring)
| EvReadDir (name : gostring)
| EvMkdirAll (path : gostring)
| EvWriteFile (name data : gostring)
| EvGetenv (key : gostring)
| EvHttp (req : Request).

Record World := {
  clock : Z;
  environ : gostring -> gostring;
  stat_not_exist : gostring -> bool;
  read_file : gostring -> result gostring;
  read_dir : gostring -> result (list gostring);
  mkdir_all : gostring -> error;
  write_file : gostring -> gostring -> error;
  http_do : Request -> result Response
}.

(** The mutable state of a [CSESAuth] and the log of its effects. *)
Record ProgState := {
  sessionData : option SessionData;
  events : list Event
}.

Definition M (A : Type) : Type := ProgState -> A * ProgState.

Definition ret {A : Type} (a : A) : M A := fun s => (a, s).

Definition bind {A B : Type} (m : M A) (k : A -> M B) : M B :=
  fun s => let '(a, s') := m s in k a s'.

Notation "'do' x <- m ; k" := (bind m (fun x => k))
  (at level 10, x name, m at level 100, k at level 200).
Notation "'run' m ; k" := (bind m (fun _ => k))
  (at level 10, m at level 100, k at level 200).

Definition emit (e : Event) : M unit :=
  fun s => (tt, {| sessionData := sessionData s; events := events s ++ [e] |}).

Definition get_session : M (option SessionData) := fun s => (sessionData s, s).

Definition set_session (sd : option SessionData) : M unit :=
  fun s => (tt, {| sessionData := sd; events := events s |}).

Definition dq : ascii := "034"%char.

Definition is_empty (s : gostring) : bool :=
  match s with [] => true | _ :: _ => false end.

Definition wrap (context : string) (msg : gostring) : gostring :=
  str context ++ str ": " ++ msg.

Section Pipeline.

Variable w : World.

Definition os_Stat_IsNotExist (name : gostring) : M bool :=
  run emit (EvStat name) ; ret (stat_not_exist w name).

Definition os_ReadFile (name : gostring) : M (result gostring) :=
  run emit (EvReadFile name) ; ret (read_file w name).

Definition os_ReadDir (name : gostring) : M (result (list gostring)) :=
  run emit (EvReadDir name) ; ret (read_dir w name).

Definition os_MkdirAll (path : gostring) : M error :=
  run emit (EvMkdirAll path) ; ret (mkdir_all w path).

Definition os_WriteFile (name data : gostring) : M error :=
  run emit (EvWriteFile name data) ; ret (write_file w name data).

Definition os_Getenv (key : gostring) : M gostring :=
  run emit (EvGetenv key) ; ret (environ w key).

Definition client_Do (req : Request) : M (result Response) :=
  run emit (EvHttp req) ; ret (http_do w req).

Definition time_Now : M Z := ret (clock w).

Definition GetAuthCacheDir (c : Config) : gostring := CacheDir c ++ str "/.auth".

Definition GetSessionFile (c : Config) : gostring :=
  GetAuthCacheDir c ++ str "/session.json".

Variable config : Config.

(** [NewCSESAuth]: the session file of this configuration. *)
Definition sessionFile : gostring := GetSessionFile config.

Definition LoadSession : M error :=
  do notExist <- os_Stat_IsNotExist sessionFile;
  if notExist then ret (Some (str "session file does not exist"))
  else
    do data <- os_ReadFile sessionFile;
    match data with
    | Fail err => ret (Some (wrap "failed to read session file" err))
    | Ok data =>
        match json_Unmarshal go data with
        | Fail err => ret (Some (wrap "failed to parse session data" err))
        | Ok sd => run set_session (Some sd) ; ret None
        end
    end.

Definition SaveSession : M error :=
  do sd <- get_session;
  match sd with
  | None => ret (Some (str "no session data to save"))
  | Some sd =>
      do err <- os_MkdirAll (filepath_Dir go sessionFile);
      match err with
      | Some err => ret (Some (wrap "failed to create session directory" err))
      | None =>
          do now <- time_Now;
          let sd := {| PHPSessionID := PHPSessionID sd; CSRFToken := CSRFToken sd;
                       Username := Username sd; CreatedAt := CreatedAt sd;
                       LastUsed := now |} in
          run set_session (Some sd);
          match json_MarshalIndent go sd with
          | Fail err => ret (Some (wrap "failed to marshal session data" err))
          | Ok data =>
              do err <- os_WriteFile sessionFile data;
              match err with
              | Some err => ret (Some (wrap "failed to write session file" err))
              | None => ret None
              end
          end
      end
  end.

(** The test of [HasValidSession] on the session in memory when the
    clock reads [now]. *)
Definition session_valid (now : Z) (sd : option SessionData) : bool :=
  match sd with
  | None => false
  | Some sd =>
      if 24 * time.Hour <? time.Since now (CreatedAt sd) then false
      else negb (is_empty (PHPSessionID sd)) && negb (is_empty (CSRFToken sd))
  end.

Definition HasValidSession : M bool :=
  do sd <- get_session;
  do now <- time_Now;
  ret (session_valid now sd).

Definition GetCredentials : M (gostring * gostring * error) :=
  do username <- os_Getenv (str "CSES_USERNAME");
  do password <- os_Getenv (str "CSES_PASSWORD");
  if is_empty username then
    ret ([], [], Some (str "CSES_USERNAME environment variable is not set"))
  else if is_empty password then
    ret ([], [], Some (str "CSES_PASSWORD environment variable is not set"))
  else ret (username, password, None).

Definition csrfPatterns : list gostring :=
  [ str "<input[^>]*name=" ++ [dq] ++ str "csrf_token" ++ [dq]
      ++ str "[^>]*value=" ++ [dq] ++ str "([^" ++ [dq] ++ str "]+)" ++ [dq];
    str "<input[^>]*value=" ++ [dq] ++ str "([^" ++ [dq] ++ str "]+)" ++ [dq]
      ++ str "[^>]*name=" ++ [dq] ++ str "csrf_token" ++ [dq] ].

Fixpoint extractCSRFToken_loop (patterns : list gostring) (html : gostring)
  : gostring * error :=
  match patterns with
  | [] => ([], Some (str "CSRF token not found in login page"))
  | pattern :: patterns' =>
      match FindStringSubmatch go pattern html with
      | _ :: token :: _ =>
          if negb (is_empty token) then (token, None)
          else extractCSRFToken_loop patterns' html
      | _ => extractCSRFToken_loop patterns' html
      end
  end.

Definition extractCSRFToken (html : gostring) : gostring * error :=
  extractCSRFToken_loop csrfPatterns html.

Fixpoint extractPHPSessionID (cookies : list (gostring * gostring)) : gostring :=
  match cookies with
  | [] => []
  | (name, value) :: cookies' =>
      if bool_decide (name = str "PHPSESSID") then value
      else extractPHPSessionID cookies'
  end.

Definition FetchLoginPage : M (gostring * gostring * error) :=
  do resp <- client_Do {| Method := str "GET"; URL := str "https://cses.fi/login";
                       Headers := []; Form := [] |};
  match resp with
  | Fail err => ret ([], [], Some (wrap "failed to fetch login page" err))
  | Ok resp =>
      if negb (StatusCode resp =? 200) then
        ret ([], [], Some (str "login page returned status "
                           ++ strconv.Itoa (StatusCode resp)))
      else
        match BodyError resp with
        | Some err => ret ([], [], Some (wrap "failed to read login page" err))
        | None =>
            match extractCSRFToken (Body resp) with
            | (_, Some err) =>
                ret ([], [], Some (wrap "failed to extract CSRF token" err))
            | (csrfToken, None) =>
                let phpSessionID := extractPHPSessionID (Cookies resp) in
                if is_empty phpSessionID then
                  ret ([], [], Some (str "failed to extract PHP session ID from cookies"))
                else if is_empty csrfToken || is_empty phpSessionID then
                  ret ([], [], Some (str "failed to extract required authentication data"))
                else ret (csrfToken, phpSessionID, None)
            end
        end
  end.

Definition userAgent : gostring :=
  str "Mozilla/5.0 (X11; Linux x86_64) AppleWebKit/537.36 (KHTML, like Gecko) Chrome/137.0.0.0 Safari/537.36".

(** [setLoginHeaders]. *)
Definition loginHeaders (phpSessionID : gostring) : list (gostring * gostring) :=
  [ (str "Accept", str "text/html,application/xhtml+xml,application/xml;q=0.9,image/avif,image/webp,image/apng,*/*;q=0.8,application/signed-exchange;v=b3;q=0.7");
    (str "Accept-Language", str "en-US,en;q=0.9");
    (str "Cache-Control", str "max-age=0");
    (str "Connection", str "keep-alive");
    (str "Content-Type", str "application/x-www-form-urlencoded");
    (str "Cookie", str "PHPSESSID=" ++ phpSessionID);
    (str "DNT", str "1");
    (str "Origin", str "https://cses.fi");
    (str "Referer", str "https://cses.fi/login");
    (str "Sec-Fetch-Dest", str "document");
    (str "Sec-Fetch-Mode", str "navigate");
    (str "Sec-Fetch-Site", str "same-origin");
    (str "Sec-Fetch-User", str "?1");
    (str "Upgrade-Insecure-Requests", str "1");
    (str "User-Agent", userAgent);
    (str "sec-ch-ua",
     [dq] ++ str "Google Chrome" ++ [dq] ++ str ";v=" ++ [dq] ++ str "137" ++ [dq]
       ++ str ", " ++ [dq] ++ str "Chromium" ++ [dq] ++ str ";v=" ++ [dq] ++ str "137"
       ++ [dq] ++ str ", " ++ [dq] ++ str "Not/A)Brand" ++ [dq] ++ str ";v=" ++ [dq]
       ++ str "24" ++ [dq]);
    (str "sec-ch-ua-mobile", str "?0");
    (str "sec-ch-ua-platform", [dq] ++ str "Linux" ++ [dq]) ].

Definition invalidCredentials : gostring :=
  str "failed to login: invalid credentials".

(** [validateLoginResponse]. *)
Definition validateLoginResponse (resp : Response) : error :=
  if negb (StatusCode resp =? 302) && negb (StatusCode resp =? 200) then
    Some (str "expected status 302 or 200, got " ++ strconv.Itoa (StatusCode resp))
  else if negb (is_empty (Location resp))
          && strings.Contains (Location resp) (str "/login") then
    Some invalidCredentials
  else
    match BodyError resp with
    | None =>
        let html := Body resp in
        if strings.Contains html (str "Invalid username or password")
           || strings.Contains html (str "Login failed")
           || strings.Contains html (str "error")
        then Some invalidCredentials
        else None
    | Some _ => None
    end.

(** [Login]. *)
Definition Login : M error :=
  do cred <- GetCredentials;
  let '(username, password, err) := cred in
  match err with
  | Some err => ret (Some (wrap "credential error" err))
  | None =>
      do page <- FetchLoginPage;
      let '(csrfToken, phpSessionID, err) := page in
      match err with
      | Some err => ret (Some (wrap "failed to fetch login page" err))
      | None =>
          let loginData :=
            [(str "csrf_token", csrfToken); (str "nick", username);
             (str "pass", password)] in
          let req := {| Method := str "POST"; URL := str "https://cses.fi/login";
                        Headers := loginHeaders phpSessionID;
                        Form := loginData |} in
          do resp <- client_Do req;
          match resp with
          | Fail err => ret (Some (wrap "failed to create login request" err))
          | Ok resp =>
              match validateLoginResponse resp with
              | Some err => ret (Some (wrap "login validation failed" err))
              | None =>
                  do created <- time_Now;
                  do used <- time_Now;
                  run set_session
                    (Some {| PHPSessionID := phpSessionID; CSRFToken := csrfToken;
                             Username := username; CreatedAt := created;
                             LastUsed := used |});
                  do err <- SaveSession;
                  match err with
                  | Some err => ret (Some (wrap "failed to save session" err))
                  | None => ret None
                  end
              end
          end
      end
  end.

(** [TestSession]. *)
Definition TestSession : M error :=
  do sd <- get_session;
  match sd with
  | None => ret (Some (str "no session data"))
  | Some sd =>
      let req := {| Method := str "GET";
                    URL := str "https://cses.fi/problemset/stats";
                    Headers := [(str "Cookie", str "PHPSESSID=" ++ PHPSessionID sd)];
                    Form := [] |} in
      do resp <- client_Do req;
      match resp with
      | Fail err => ret (Some (wrap "failed to execute test request" err))
      | Ok resp =>
          if negb (StatusCode resp =? 200) then
            ret (Some (str "error in making test session request"))
          else if strings.Contains (Body resp) (str "Please login") then
            ret (Some (str "login expired, need to relogin"))
          else ret None
      end
  end.

(** [EnsureAuthenticated]. *)
Definition EnsureAuthenticated : M error :=
  do err <- LoadSession;
  do valid <- (if bool_decide (err = None) then HasValidSession else ret false);
  if valid then
    do probe <- TestSession;
    if bool_decide (probe = None) then ret None else Login
  else Login.

(** [DownloadTestCases]. *)
Definition DownloadTestCases (problemID : gostring) : M (gostring * error) :=
  do sd <- get_session;
  match sd with
  | None => ret ([], Some (str "no session data"))
  | Some sd =>
      let formData := [(str "csrf_token", CSRFToken sd); (str "download", str "true")] in
      let url := str "https://cses.fi/problemset/tests/" ++ problemID ++ str "/" in
      let req :=
        {| Method := str "POST"; URL := url;
           Headers :=
             [(str "Content-Type", str "application/x-www-form-urlencoded");
              (str "Cookie", str "PHPSESSID=" ++ PHPSessionID sd);
              (str "Referer", str "https://cses.fi/problemset/task/" ++ problemID);
              (str "User-Agent", userAgent)];
           Form := formData |} in
      do resp <- client_Do req;
      match resp with
      | Fail err =>
          ret ([], Some (wrap "failed to execute test case download request" err))
      | Ok resp =>
          if (StatusCode resp =? 302)
             && strings.Contains (Location resp) (str "/login") then
            ret ([], Some (str "session expired, requires re-authentication"))
          else if negb (StatusCode resp =? 200) then
            ret ([], Some (str "failed to download test cases: HTTP "
                           ++ strconv.Itoa (StatusCode resp)))
          else if negb (strings.Contains (ContentType resp) (str "application/zip"))
                  && negb (strings.Contains (ContentType resp)
                             (str "application/octet-stream")) then
            ret ([], Some (str "expected ZIP file, got content type: "
                           ++ ContentType resp))
          else
            match BodyError resp with
            | Some err => ret ([], Some (wrap "failed to read ZIP file" err))
            | None =>
                if is_empty (Body resp) then
                  ret ([], Some (str "received empty ZIP file"))
                else ret (Body resp, None)
            end
      end
  end.

(** ** The fetcher *)

Fixpoint parseTestNumber_loop (patterns : list gostring) : Z :=
  match patterns with
  | [] => 0
  | pattern :: patterns' =>
      let '(num, ok) := strconv.Atoi pattern in
      if ok && (0 <? num) then num else parseTestNumber_loop patterns'
  end.

Definition parseTestNumber (filename suffix : gostring) : Z :=
  let base := strings.TrimSuffix filename suffix in
  parseTestNumber_loop
    [ base;
      strings.TrimPrefix base (str "test");
      strings.TrimPrefix base (str "input");
      strings.TrimPrefix base (str "output") ].

(** The body of the loop over [reader.File]. *)
Definition zip_collect (maps : gmap Z gostring * gmap Z gostring) (file : ZipEntry)
  : gmap Z gostring * gmap Z gostring :=
  let '(inputs, outputs) := maps in
  if zipIsDir file then maps
  else
    match zipContent file with
    | Fail _ => maps
    | Ok content =>
        let filename := zipName file in
        if strings.HasSuffix filename (str ".in") then
          let testNum := parseTestNumber filename (str ".in") in
          if 0 <? testNum then (<[testNum := content]> inputs, outputs) else maps
        else if strings.HasSuffix filename (str ".out") then
          let testNum := parseTestNumber filename (str ".out") in
          if 0 <? testNum then (inputs, <[testNum := content]> outputs) else maps
        else maps
    end.

Definition zip_maps (files : list ZipEntry) : gmap Z gostring * gmap Z gostring :=
  foldl zip_collect (∅, ∅) files.

(** The loop [for testNum := range inputs] over the keys in the order
    [keys]. *)
Fixpoint match_pairs (inputs outputs : gmap Z gostring) (keys : list Z)
    (testCases : list TestCase) : list TestCase :=
  match keys with
  | [] => testCases
  | testNum :: keys' =>
      match outputs !! testNum with
      | Some output =>
          match_pairs inputs outputs keys'
            (testCases ++ [{| Input := default [] (inputs !! testNum);
                              Expected := output;
                              Number := testNum |}])
      | None => match_pairs inputs outputs keys' testCases
      end
  end.

Definition extractTestCasesFromZip (zipData : gostring) : list TestCase * error :=
  match zip_NewReader go zipData with
  | Fail err => ([], Some (wrap "failed to read zip file" err))
  | Ok files =>
      let '(inputs, outputs) := zip_maps files in
      let testCases := match_pairs inputs outputs (map_range go inputs) [] in
      if Z.of_nat (length testCases) =? 0 then
        ([], Some (str "no valid test cases found in zip file"))
      else (testCases, None)
  end.

(** The loop of [loadCachedTestCases] over the directory entries. *)
Fixpoint loadCached_loop (cacheDir : gostring) (files : list gostring)
    (testCases : list TestCase) : M (list TestCase) :=
  match files with
  | [] => ret testCases
  | name :: files' =>
      if strings.HasSuffix name (str ".in") then
        let number := strings.TrimSuffix name (str ".in") in
        let inputPath := filepath_Join go [cacheDir; name] in
        let outputPath := filepath_Join go [cacheDir; number ++ str ".out"] in
        do input <- os_ReadFile inputPath;
        match input with
        | Fail _ => loadCached_loop cacheDir files' testCases
        | Ok input =>
            do output <- os_ReadFile outputPath;
            match output with
            | Fail _ => loadCached_loop cacheDir files' testCases
            | Ok output =>
                let testNum := fst (strconv.Atoi number) in
                loadCached_loop cacheDir files'
                  (testCases ++ [{| Input := input; Expected := output;
                                    Number := testNum |}])
            end
        end
      else loadCached_loop cacheDir files' testCases
  end.

Definition loadCachedTestCases (cacheDir : gostring) : M (list TestCase * error) :=
  do files <- os_ReadDir cacheDir;
  match files with
  | Fail err => ret ([], Some err)
  | Ok files =>
      do testCases <- loadCached_loop cacheDir files [];
      ret (testCases, None)
  end.

Fixpoint cacheTestCases_loop (cacheDir : gostring) (testCases : list TestCase)
  : M error :=
  match testCases with
  | [] => ret None
  | testCase :: testCases' =>
      let inputPath :=
        filepath_Join go [cacheDir; strconv.Itoa (Number testCase) ++ str ".in"] in
      let outputPath :=
        filepath_Join go [cacheDir; strconv.Itoa (Number testCase) ++ str ".out"] in
      do err <- os_WriteFile inputPath (Input testCase);
      match err with
      | Some err => ret (Some err)
      | None =>
          do err <- os_WriteFile outputPath (Expected testCase);
          match err with
          | Some err => ret (Some err)
          | None => cacheTestCases_loop cacheDir testCases'
          end
      end
  end.

Definition cacheTestCases (cacheDir : gostring) (testCases : list TestCase)
  : M error :=
  do err <- os_MkdirAll cacheDir;
  match err with
  | Some err => ret (Some err)
  | None => cacheTestCases_loop cacheDir testCases
  end.

Definition fetchFromCSES (problemID : gostring) : M (list TestCase * error) :=
  do err <- EnsureAuthenticated;
  match err with
  | Some err => ret ([], Some (wrap "authentication required" err))
  | None =>
      do download <- DownloadTestCases problemID;
      let '(zipData, err) := download in
      match err with
      | Some err => ret ([], Some (wrap "failed to download test cases" err))
      | None => ret (extractTestCasesFromZip zipData)
      end
  end.

Definition FetchTestCases (problemID : gostring) : M (list TestCase * error) :=
  let cacheDir := filepath_Join go [CacheDir config; problemID] in
  do cached <- loadCachedTestCases cacheDir;
  let '(testCases, err) := cached in
  if bool_decide (err = None) && (0 <? Z.of_nat (length testCases)) then
    ret (testCases, None)
  else
    do fetched <- fetchFromCSES problemID;
    let '(testCases, err) := fetched in
    match err with
    | Some err => ret ([], Some (wrap "failed to fetch from CSES" err))
    | None =>
        run cacheTestCases cacheDir testCases;
        ret (testCases, None)
    end.

(** ** Notions used in the statements *)

(** A body that shows one of the failure phrases of the login page. *)
Definition failure_marker (html : gostring) : bool :=
  strings.Contains html (str "Invalid username or password")
  || strings.Contains html (str "Login failed")
  || strings.Contains html (str "error").

(** The events of reading the fixture cache. *)
Definition cache_read_event (e : Event) : bool :=
  match e with
  | EvReadDir _ | EvReadFile _ => true
  | _ => false
  end.

(** A request sent to the remote judge. *)
Definition remote_event (e : Event) : bool :=
  match e with
  | EvHttp _ => true
  | _ => false
  end.

(** A [range] loop visits every key of the map exactly once. *)
Definition range_visits_keys (lib : GoLibrary) : Prop :=
  forall m : gmap Z gostring, map_range lib m ≡ₚ (map_to_list m).*1.

(** The fixtures come in ascending order of their ordinals. *)
Definition ascending (testCases : list TestCase) : Prop :=
  Sorted Z.le (Number <$> testCases).

(** The fixture that [extractTestCasesFromZip] builds for an ordinal. *)
Definition fixture_of (inputs outputs : gmap Z gostring) (testNum : Z)
  : option TestCase :=
  match outputs !! testNum with
  | Some output =>
      Some {| Input := default [] (inputs !! testNum); Expected := output;
              Number := testNum |}
  | None => None
  end.

(** The program has gone from [s] to [s'] by reading the cache only. *)
Definition extends_by_cache_reads (s s' : ProgState) : Prop :=
  sessionData s' = sessionData s /\
  exists reads, events s' = events s ++ reads
                /\ Forall (fun e => cache_read_event e = true) reads.


(** File names in the order of a directory listing. *)
Definition name_lt (a b : gostring) : Prop := name_ltb a b = true.

(** The file name of the input half of a cached fixture. *)
Definition in_file (stem : gostring) : gostring := stem ++ str ".in".


(** [ClearSession]. [os_Remove] is the answer of the file system to the
    removal of a file: no error, or the message of an error and whether
    [os.IsNotExist] holds of it. *)
Definition ClearSession (os_Remove : gostring -> option (gostring * bool))
  : M error :=
  run set_session None;
  match os_Remove sessionFile with
  | Some (err, notExist) =>
      if negb notExist then ret (Some (wrap "failed to remove session file" err))
      else ret None
  | None => ret None
  end.

(** ** Further notions used in the statements *)

(** The request with which [FetchLoginPage] gets the login page. *)
Definition loginPageRequest : Request :=
  {| Method := str "GET"; URL := str "https://cses.fi/login";
     Headers := []; Form := [] |}.

(** An effect other than the listing of a directory. *)
Definition not_listing (e : Event) : Prop :=
  match e with
  | EvReadDir _ => False
  | _ => True
  end.

(** The prefixes that [parseTestNumber] strips from a file name. *)
Definition known_prefix (p : gostring) : Prop :=
  p = [] \/ p = str "test" \/ p = str "input" \/ p = str "output".

(** An entry of the archive that is read as the input ([suffix] ".in")
    or the output (".out") of an ordinal. *)
Definition entry_for (files : list ZipEntry) (suffix : gostring) (n : Z)
    (content : gostring) : Prop :=
  exists file, file ∈ files /\ zipIsDir file = false
               /\ zipContent file = Ok content
               /\ strings.HasSuffix (zipName file) suffix = true
               /\ parseTestNumber (zipName file) suffix = n.

(** The names under which [cacheTestCases] stores the fixture of an
    ordinal. *)
Definition cache_in (n : Z) : gostring := strconv.Itoa n ++ str ".in".
Definition cache_out (n : Z) : gostring := strconv.Itoa n ++ str ".out".

Definition cache_names (testCase : TestCase) : list gostring :=
  [cache_in (Number testCase); cache_out (Number testCase)].

(** The writes of [cacheTestCases] for a list of fixtures. *)
Definition cache_writes (cacheDir : gostring) (testCases : list TestCase)
  : list Event :=
  flat_map (fun tc =>
    [ EvWriteFile (filepath_Join go [cacheDir; cache_in (Number tc)]) (Input tc);
      EvWriteFile (filepath_Join go [cacheDir; cache_out (Number tc)]) (Expected tc) ])
    testCases.

(** The data that the writes of a log have left in a file. *)
Fixpoint written (log : list Event) (name : gostring) : option gostring :=
  match log with
  | [] => None
  | e :: log' =>
      match written log' name with
      | Some data => Some data
      | None =>
          match e with
          | EvWriteFile n data => if bool_decide (n = name) then Some data else None
          | _ => None
          end
      end
  end.

(** The fixture that [loadCachedTestCases] builds for an entry of the
    cache directory. *)
Definition cached_fixture (cacheDir name : gostring) : option TestCase :=
  if strings.HasSuffix name (str ".in") then
    let number := strings.TrimSuffix name (str ".in") in
    match read_file w (filepath_Join go [cacheDir; name]),
          read_file w (filepath_Join go [cacheDir; number ++ str ".out"]) with
    | Ok input, Ok output =>
        Some {| Input := input; Expected := output;
                Number := fst (strconv.Atoi number) |}
    | _, _ => None
    end
  else None.

End Pipeline.
End Core.

(** ** Concrete libraries, worlds and runs *)

(** A library for the concrete runs below: paths are joined with "/",
    which is what [filepath.Join] returns for clean relative elements,
    and a [range] loop visits the keys as [map_to_list] lists them. *)
Definition sample_session : SessionData :=
  {| PHPSessionID := str "0f3a9c"; CSRFToken := str "83835ef6";
     Username := str "tester"; CreatedAt := 0; LastUsed := 0 |}.

Definition sample_archive : list ZipEntry :=
  [ {| zipName := str "1.in"; zipIsDir := false; zipContent := Ok (str "5") |};
    {| zipName := str "2.in"; zipIsDir := false; zipContent := Ok (str "7") |};
    {| zipName := str "3.in"; zipIsDir := false; zipContent := Ok (str "9") |};
    {| zipName := str "1.out"; zipIsDir := false; zipContent := Ok (str "5 8 4 2 1") |};
    {| zipName := str "2.out"; zipIsDir := false; zipContent := Ok (str "7 11") |} ].

Definition sample_library : GoLibrary :=
  {| filepath_Join := fun elems => strings.Join elems (str "/");
     filepath_Dir := fun path => path;
     ParseDuration := fun _ => None;
     Duration_String := fun _ => str "1s";
     json_Unmarshal := fun _ => Ok sample_session;
     json_MarshalIndent := fun _ => Ok (str "{}");
     FindStringSubmatch := fun _ _ => [];
     zip_NewReader := fun _ => Ok sample_archive;
     map_range := fun m => (map_to_list m).*1 |}.

Definition sample_config : Config :=
  {| FilePath := str "solution.go"; ProblemID := str "1068"; Timeout := str "1s";
     Verbose := false; CacheDir := str "cache"; Parallel := 1;
     ShowDiff := false; MaxOutput := 100; Optimize := false; Race := false;
     ForceAuth := false |}.

(** A cache directory that holds the fixtures 2 and 10. *)
Definition cached_files : list (gostring * gostring) :=
  [ (str "cache/1068/10.in", str "10");
    (str "cache/1068/10.out", str "10 5 16 8 4 2 1");
    (str "cache/1068/2.in", str "2");
    (str "cache/1068/2.out", str "2 1") ].

Fixpoint lookup_file (files : list (gostring * gostring)) (name : gostring)
  : result gostring :=
  match files with
  | [] => Fail (str "no such file or directory")
  | (n, data) :: files' =>
      if bool_decide (n = name) then Ok data else lookup_file files' name
  end.

Definition probe_ok : Response :=
  {| StatusCode := 200; Location := []; ContentType := str "text/html";
     Cookies := []; Body := str "<html>Statistics</html>"; BodyError := None |}.

Definition cache_world : World :=
  {| clock := 24 * time.Hour;
     environ := fun _ => [];
     stat_not_exist := fun _ => false;
     read_file := fun name =>
       if bool_decide (name = str "cache/.auth/session.json") then Ok (str "{}")
       else lookup_file cached_files name;
     read_dir := fun name =>
       if bool_decide (name = str "cache/1068") then
         Ok [str "10.in"; str "10.out"; str "2.in"; str "2.out"]
       else Fail (str "no such file or directory");
     mkdir_all := fun _ => None;
     write_file := fun _ _ => None;
     http_do := fun _ => Ok probe_ok |}.

Definition start_state : ProgState := {| sessionData := None; events := [] |}.

(** A run of two fixtures, the first of which passes while the second
    exceeds its deadline. *)
Definition sample_testCases : list TestCase :=
  [ {| Input := str "10"; Expected := str "10 5 16 8 4 2 1"; Number := 10 |};
    {| Input := str "2"; Expected := str "2 1"; Number := 2 |} ].

Definition sample_spawn (index : nat) (path input : gostring) : ChildRun :=
  match index with
  | O => {| run_err := None; deadline_exceeded := false;
            child_stdout := str "10 5 16 8 4 2 1 " ++ [newline];
            child_stderr := []; elapsed := 1000 |}
  | S _ => {| run_err := Some (ExitError (-1) (str "signal: killed"));
              deadline_exceeded := true; child_stdout := [];
              child_stderr := []; elapsed := time.Second |}
  end.

Definition sample_final : RunState :=
  {| phases := [Finished; Finished];
     semaphore := 0;
     results :=
       [ Execute sample_library sample_config (sample_spawn 0) (str "./a.out")
           {| Input := str "10"; Expected := str "10 5 16 8 4 2 1"; Number := 10 |} 1;
         Execute sample_library sample_config (sample_spawn 1) (str "./a.out")
           {| Input := str "2"; Expected := str "2 1"; Number := 2 |} 2 ] |}.


(** A login response whose body cannot be read to its end. *)
Definition unread_response : Response :=
  {| StatusCode := 200; Location := []; ContentType := str "text/html";
     Cookies := []; Body := str "<p>Login failed: internal error</p>";
     BodyError := Some (str "unexpected EOF") |}.


(** ** The runner: reporting *)

(** [time.Duration] is an [int64]: a sum wraps around. *)
Definition wrap64 (z : Z) : Z := (z + 2 ^ 63) mod 2 ^ 64 - 2 ^ 63.

(** The variables of the loop of [displayResults]. The two counters
    are bounded by the length of the results. *)
Record Summary := {
  passed : Z;
  failed : Z;
  failedTests : list TestResult;
  totalTime : Z
}.

Definition displayResults_step (acc : Summary) (result : TestResult) : Summary :=
  let totalTime := wrap64 (totalTime acc + Duration result) in
  if Passed result then
    {| passed := passed acc + 1; failed := failed acc;
       failedTests := failedTests acc; totalTime := totalTime |}
  else
    {| passed := passed acc; failed := failed acc + 1;
       failedTests := failedTests acc ++ [result]; totalTime := totalTime |}.

Definition displayResults_loop (results : list TestResult) : Summary :=
  foldl displayResults_step
    {| passed := 0; failed := 0; failedTests := []; totalTime := 0 |} results.

(** What [displayResults] reports, without the layout and the average
    time: the line of the passed tests and the line of the failed ones
    (count and total; a line is left out when its count is zero), the
    failed results in the order in which they are displayed, and
    whether the closing line announces that all tests passed. *)
Record Report := {
  passed_line : option (Z * Z);
  failed_line : option (Z * Z);
  failed_cases : list TestResult;
  all_passed : bool
}.

Definition displayResults (results : list TestResult) : Report :=
  let s := displayResults_loop results in
  let total := Z.of_nat (length results) in
  {| passed_line := if 0 <? passed s then Some (passed s, total) else None;
     failed_line := if 0 <? failed s then Some (failed s, total) else None;
     failed_cases := failedTests s;
     all_passed := failed s =? 0 |}.

(** [output[:maxOutput] + "..."] when [len(output) > maxOutput]; the
    slice expression panics for a negative bound ([None]). *)
Definition truncateOutput (maxOutput : Z) (output : gostring) : option gostring :=
  if maxOutput <? Z.of_nat (length output) then
    if maxOutput <? 0 then None
    else Some (take (Z.to_nat maxOutput) output ++ str "...")
  else Some output.

(** [strings.ReplaceAll(s, "\n", "\n   ")]. *)
Definition indentLines (s : gostring) : gostring :=
  flat_map (fun c => if Ascii.eqb c newline then newline :: str "   " else [c]) s.

(** [displayFailedTest]: the expected and the actual output as they are
    printed below the header of a failed test, nothing when no diff is
    shown; [None] when the function panics. *)
Definition displayFailedTest (config : Config) (result : TestResult)
  : option (list gostring) :=
  if ShowDiff config && negb (is_empty (ActualOutput result)) then
    match truncateOutput (MaxOutput config) (ExpectedOutput result) with
    | None => None
    | Some expectedOutput =>
        match truncateOutput (MaxOutput config) (ActualOutput result) with
        | None => None
        | Some actualOutput =>
            Some [indentLines expectedOutput; indentLines actualOutput]
        end
    end
  else Some [].

(** ** The compiler and the whole run *)

(** A command as the operating system ran it: its standard output, its
    standard output and standard error together, and the error of the
    run. *)
Record CommandRun := {
  cmd_stdout : gostring;
  cmd_combined : gostring;
  cmd_err : error
}.

(** What the compiler asks of the machine: the commands it starts
    (by their arguments), [os.Stat], and the two functions of
    [path/filepath] that [getOutputPath] uses. *)
Record Toolchain := {
  exec_Command : list gostring -> CommandRun;
  os_Stat : gostring -> error;
  filepath_Abs : gostring -> gostring;
  filepath_Base : gostring -> gostring
}.

(** What [runTests] does with an executable and a list of fixtures: it
    returns its results, or blocks for ever, or panics. *)
Inductive TestsOutcome :=
| TestsDone (results : list TestResult)
| TestsBlocked
| TestsPanic.

(** The effects of a run in their order: those of the authenticators
    and of the file system, the commands of the compiler, the call of
    [runTests], the report and the removal of the executable. *)
Inductive RunEvent :=
| EvSys (e : Event)
| EvExec (argv : list gostring)
| EvTests (executablePath : gostring) (testCases : list TestCase)
| EvReport (report : Report)
| EvRemove (name : gostring).

(** A [TestRunner]: the session of its own authenticator, the session
    of the authenticator of its fetcher, and the log. *)
Record RunnerState := {
  auth : option SessionData;
  fetcher_auth : option SessionData;
  runlog : list RunEvent
}.

Inductive RunOutcome :=
| Returns (err : error)
| Blocks
| Panics.

(** [GetBuildFlags]. *)
Definition GetBuildFlags (c : Config) : list gostring :=
  let flags := [] in
  let flags := if Optimize c then flags ++ [str "-ldflags"; str "-s -w"] else flags in
  let flags := if Race c then flags ++ [str "-race"] else flags in
  flags.

Section Runner.

Variable go : GoLibrary.
Variable w : World.
Variable tools : Toolchain.
Variable config : Config.
Variable runTests : gostring -> list TestCase -> TestsOutcome.

Definition log_event (e : RunEvent) (rs : RunnerState) : RunnerState :=
  {| auth := auth rs; fetcher_auth := fetcher_auth rs;
     runlog := runlog rs ++ [e] |}.

(** A call on the authenticator of the runner. *)
Definition on_auth {A : Type} (m : M A) (rs : RunnerState) : A * RunnerState :=
  let '(a, s) := m {| sessionData := auth rs; events := [] |} in
  (a, {| auth := sessionData s; fetcher_auth := fetcher_auth rs;
         runlog := runlog rs ++ (EvSys <$> events s) |}).

(** A call on the fetcher, which has an authenticator of its own. *)
Definition on_fetcher {A : Type} (m : M A) (rs : RunnerState) : A * RunnerState :=
  let '(a, s) := m {| sessionData := fetcher_auth rs; events := [] |} in
  (a, {| auth := auth rs; fetcher_auth := sessionData s;
         runlog := runlog rs ++ (EvSys <$> events s) |}).

Definition run_command (argv : list gostring) (rs : RunnerState)
  : CommandRun * RunnerState :=
  (exec_Command tools argv, log_event (EvExec argv) rs).

(** [ValidateGo]. *)
Definition ValidateGo (rs : RunnerState) : error * RunnerState :=
  let '(cmd, rs) := run_command [str "go"; str "version"] rs in
  match cmd_err cmd with
  | Some err => (Some (wrap "Go is not installed or not in PATH" err), rs)
  | None => (None, rs)
  end.

(** [ValidateSyntax]. *)
Definition ValidateSyntax (rs : RunnerState) : error * RunnerState :=
  let '(cmd, rs) :=
    run_command [str "go"; str "run"; str "-n"; FilePath config] rs in
  match cmd_err cmd with
  | Some err => (Some (wrap "syntax validation failed" err), rs)
  | None => (None, rs)
  end.

(** [getOutputPath]; the error of [filepath.Abs] is dropped. *)
Definition getOutputPath : gostring :=
  let dir := filepath_Abs tools (filepath_Dir go (FilePath config)) in
  let base := strings.TrimSuffix (filepath_Base tools (FilePath config)) (str ".go") in
  filepath_Join go [dir; base ++ str "_cses_executable"].

(** [Compile]. *)
Definition Compile (rs : RunnerState) : (gostring * error) * RunnerState :=
  let outputPath := getOutputPath in
  let args := [str "build"; str "-o"; outputPath] in
  let args := args ++ GetBuildFlags config in
  let args := args ++ [FilePath config] in
  let '(cmd, rs) := run_command (str "go" :: args) rs in
  match cmd_err cmd with
  | Some err =>
      (([], Some (str "compilation failed: " ++ err ++ [newline] ++ str "Output: "
                  ++ cmd_combined cmd)), rs)
  | None =>
      let rs := log_event (EvSys (EvStat outputPath)) rs in
      match os_Stat tools outputPath with
      | Some err => (([], Some (wrap "executable not created" err)), rs)
      | None => ((outputPath, None), rs)
      end
  end.

(** [Run]. The executable is removed by a deferred call, which also
    runs when [runTests] panics. *)
Definition Run (rs : RunnerState) : RunOutcome * RunnerState :=
  let '(err, rs) := on_auth (os_MkdirAll w (CacheDir config)) rs in
  match err with
  | Some err => (Returns (Some (wrap "failed to create cache directory" err)), rs)
  | None =>
  let '(err, rs) := on_auth (EnsureAuthenticated go w config) rs in
  match err with
  | Some err => (Returns (Some (wrap "authentication failed" err)), rs)
  | None =>
  let '(err, rs) := ValidateGo rs in
  match err with
  | Some err => (Returns (Some (wrap "Go validation failed" err)), rs)
  | None =>
  let '(err, rs) := ValidateSyntax rs in
  match err with
  | Some err => (Returns (Some (wrap "syntax validation failed" err)), rs)
  | None =>
  let '((testCases, err), rs) :=
    on_fetcher (FetchTestCases go w config (ProblemID config)) rs in
  match err with
  | Some err => (Returns (Some (wrap "failed to fetch test cases" err)), rs)
  | None =>
  if Z.of_nat (length testCases) =? 0 then (Returns None, rs)
  else
  let '((executablePath, err), rs) := Compile rs in
  match err with
  | Some err => (Returns (Some (wrap "compilation failed" err)), rs)
  | None =>
  let rs := log_event (EvTests executablePath testCases) rs in
  match runTests executablePath testCases with
  | TestsDone results =>
      let rs := log_event (EvReport (displayResults results)) rs in
      (Returns None, log_event (EvRemove executablePath) rs)
  | TestsBlocked => (Blocks, rs)
  | TestsPanic => (Panics, log_event (EvRemove executablePath) rs)
  end
  end end end end end end.


(** The oracle for [runTests] agrees with the interleavings of the
    goroutines: what it returns is the result array of a finished run. *)
Definition runTests_sound (spawn : nat -> gostring -> gostring -> ChildRun) : Prop :=
  forall executablePath testCases results0,
    runTests executablePath testCases = TestsDone results0 ->
    exists s, reachable go config spawn executablePath testCases s
              /\ all_finished s /\ results s = results0.

End Runner.

(** An event that is work on the solution or on the fixtures: a
    command, a listing of the fixture cache, the tests, the report,
    the removal of the executable. *)
Definition work_event (e : RunEvent) : bool :=
  match e with
  | EvSys (EvReadDir _) | EvExec _ | EvTests _ _ | EvReport _ | EvRemove _ => true
  | EvSys _ => false
  end.

(** A request to the judge. *)
Definition judge_request (e : RunEvent) : bool :=
  match e with
  | EvSys e => remote_event e
  | _ => false
  end.

(** ** Further concrete worlds and runs *)

(** A configuration with a parallelism of zero. *)
Definition blocked_config : Config :=
  {| FilePath := str "solution.go"; ProblemID := str "1068"; Timeout := str "1s";
     Verbose := false; CacheDir := str "cache"; Parallel := 0;
     ShowDiff := true; MaxOutput := 100; Optimize := false; Race := false;
     ForceAuth := false |}.

(** A library whose pattern matcher finds a token in the login page. *)
Definition login_library : GoLibrary :=
  {| filepath_Join := fun elems => strings.Join elems (str "/");
     filepath_Dir := fun path => str "cache/.auth";
     ParseDuration := fun _ => None;
     Duration_String := fun _ => str "1s";
     json_Unmarshal := fun _ => Fail (str "unexpected end of JSON input");
     json_MarshalIndent := fun _ => Ok (str "{}");
     FindStringSubmatch := fun _ _ => [str "<input name=csrf_token value=83835ef6"; str "83835ef6"];
     zip_NewReader := fun _ => Ok sample_archive;
     map_range := fun m => (map_to_list m).*1 |}.

Definition login_page : Response :=
  {| StatusCode := 200; Location := []; ContentType := str "text/html";
     Cookies := [(str "PHPSESSID", str "0f3a9c")];
     Body := str "<input name=csrf_token value=83835ef6>"; BodyError := None |}.

Definition login_redirect : Response :=
  {| StatusCode := 302; Location := str "/"; ContentType := str "text/html";
     Cookies := []; Body := []; BodyError := None |}.

(** A machine without a session file, with credentials in its
    environment, and a judge that accepts the login. *)
Definition login_world : World :=
  {| clock := 1000;
     environ := fun key =>
       if bool_decide (key = str "CSES_USERNAME") then str "tester"
       else if bool_decide (key = str "CSES_PASSWORD") then str "secret"
       else [];
     stat_not_exist := fun _ => true;
     read_file := fun _ => Fail (str "no such file or directory");
     read_dir := fun _ => Fail (str "no such file or directory");
     mkdir_all := fun _ => None;
     write_file := fun _ _ => None;
     http_do := fun req =>
       if bool_decide (Method req = str "GET") then Ok login_page
       else Ok login_redirect |}.

(** The fixtures 2 and 10, stored in this order, and the state in
    which [cacheTestCases] leaves the program. *)
Definition stored_testCases : list TestCase := rev sample_testCases.

Definition stored_state : ProgState :=
  snd (cacheTestCases sample_library cache_world (str "cache/1068")
         stored_testCases start_state).

(** A machine off line whose files are those that a log has written,
    with the listing of one directory. *)
Definition world_after (log : list Event) (cacheDir : gostring)
    (names : list gostring) : World :=
  {| clock := 0;
     environ := fun _ => [];
     stat_not_exist := fun name =>
       match written log name with
       | Some _ => false
       | None => true
       end;
     read_file := fun name =>
       match written log name with
       | Some data => Ok data
       | None => Fail (str "no such file or directory")
       end;
     read_dir := fun name =>
       if bool_decide (name = cacheDir) then Ok names
       else Fail (str "no such file or directory");
     mkdir_all := fun _ => None;
     write_file := fun _ _ => None;
     http_do := fun _ => Fail (str "no route to host") |}.

Definition stored_world : World :=
  world_after (events stored_state) (str "cache/1068")
    [str "10.in"; str "10.out"; str "2.in"; str "2.out"].

(** A toolchain that works, and tests that run as their goroutines do. *)
Definition sample_tools : Toolchain :=
  {| exec_Command := fun _ => {| cmd_stdout := []; cmd_combined := []; cmd_err := None |};
     os_Stat := fun _ => None;
     filepath_Abs := fun _ => str "/work";
     filepath_Base := fun path => path |}.

Definition sample_runTests (executablePath : gostring) (testCases : list TestCase)
  : TestsOutcome :=
  TestsDone (runTests_results sample_library sample_config sample_spawn
               executablePath testCases).

Definition fresh_runner : RunnerState :=
  {| auth := None; fetcher_auth := None; runlog := [] |}.

(** The state in which [SaveSession] leaves the program that holds the
    sample session, on a machine whose clock reads 0, and the machine
    with the files of that state. *)
Definition saved_state : ProgState :=
  snd (SaveSession sample_library (world_after [] [] []) sample_config
         {| sessionData := Some sample_session; events := [] |}).

Definition saved_world : World := world_after (events saved_state) [] [].
(** ** Lemmas on the string library *)

Section DecodeFacts.

Lemma DecodeRune_size_pos (s : gostring) :
  s <> [] -> (1 <= snd (utf8.DecodeRuneInString s))%nat.
Proof.
  destruct s as [|c0 [|c1 [|c2 [|c3 s]]]]; [congruence|..]; intros _;
    unfold utf8.DecodeRuneInString;
    repeat match goal with
           | |- context [if ?b then _ else _] => destruct b
           end; simpl; lia.
Qed.

(** Extending a string to the right either leaves the first rune as it
    was or completes an encoding that had been cut short. *)
Lemma DecodeRune_app_strong (r u : gostring) :
  r <> [] ->
  utf8.DecodeRuneInString (r ++ u) = utf8.DecodeRuneInString r
  \/ utf8.DecodeRuneInString r = (utf8.RuneError, 1%nat).
Proof.
  intros Hr.
  destruct r as [|c0 r]; [congruence|].
  unfold utf8.DecodeRuneInString. rewrite <- app_comm_cons.
  set (x := utf8.first (b2z c0)).
  set (sz := Z.land x 7).
  destruct (0xF0 <=? x); [now left|].
  change (length (c0 :: r ++ u)) with (S (length (r ++ u))).
  change (length (c0 :: r)) with (S (length r)).
  rewrite length_app.
  destruct (Z.ltb_spec (Z.of_nat (S (length r))) sz) as [Hlt|Hge]; [now right|].
  destruct (Z.ltb_spec (Z.of_nat (S (length r + length u))) sz); [lia|].
  destruct r as [|c1 r]; [now right|]. rewrite <- app_comm_cons.
  destruct (_ || _); [now left|].
  destruct (Z.leb_spec sz 2); [now left|].
  destruct r as [|c2 r]; [now right|]. rewrite <- app_comm_cons.
  destruct (_ || _); [now left|].
  destruct (Z.leb_spec sz 3); [now left|].
  destruct r as [|c3 r]; [now right|]. rewrite <- app_comm_cons.
  now left.
Qed.

Lemma DecodeRune_app (r u : gostring) :
  r <> [] ->
  utf8.DecodeRuneInString (r ++ u) = utf8.DecodeRuneInString r
  \/ fst (utf8.DecodeRuneInString r) = utf8.RuneError.
Proof.
  intros Hr. destruct (DecodeRune_app_strong r u Hr) as [H|H]; [by left|].
  right. by rewrite H.
Qed.

(** A byte starts a rune or is rejected as the first byte of one. *)
Lemma byte_start_or_invalid (c : ascii) :
  utf8.RuneStart (b2z c) = true \/ utf8.first (b2z c) = 0xF1.
Proof. destruct c as [[] [] [] [] [] [] [] []]; vm_compute; auto. Qed.

Lemma RuneStart_not_continuation (c : ascii) :
  utf8.RuneStart (b2z c) = true -> (b2z c <? 0x80) || (0xBF <? b2z c) = true.
Proof. destruct c as [[] [] [] [] [] [] [] []]; vm_compute; auto. Qed.

Lemma asciiSpace_IsSpace (c : ascii) :
  b2z c < utf8.RuneSelf -> unicode.IsSpace (b2z c) = strings.asciiSpace c.
Proof. destruct c as [[] [] [] [] [] [] [] []]; vm_compute; auto; discriminate. Qed.

Lemma first_ascii (b : Z) : b < utf8.RuneSelf -> utf8.first b = 0xF0.
Proof.
  unfold utf8.first, utf8.RuneSelf. intros Hb.
  destruct (Z.ltb_spec b 0x80); [done|lia].
Qed.

Lemma first_not_ascii (b : Z) : utf8.RuneSelf <= b -> utf8.first b <> 0xF0.
Proof.
  unfold utf8.first, utf8.RuneSelf. intros Hb.
  repeat match goal with
         | |- context [if ?c then _ else _] => destruct c eqn:?
         end; try done.
  apply Z.ltb_lt in Heqb0. lia.
Qed.

Lemma DecodeRune_ascii (c : ascii) (s : gostring) :
  b2z c < utf8.RuneSelf -> utf8.DecodeRuneInString (c :: s) = (b2z c, 1%nat).
Proof.
  intros Hc. unfold utf8.DecodeRuneInString. by rewrite (first_ascii _ Hc).
Qed.

(** The accept range of a leading byte lies among the continuation
    bytes. *)
Lemma acceptRanges_within (b : Z) :
  utf8.first b < 0xF0 ->
  0x80 <= fst (utf8.acceptRanges (Z.shiftr (utf8.first b) 4))
  /\ snd (utf8.acceptRanges (Z.shiftr (utf8.first b) 4)) <= 0xBF.
Proof.
  unfold utf8.first.
  repeat match goal with
         | |- context [if ?c then _ else _] => destruct c
         end; vm_compute; intros H; (discriminate || (split; discriminate)).
Qed.

(** A byte that is not ASCII and is followed by the start of a rune, or
    by nothing, is a rune of width one. *)
Lemma DecodeRune_before_start (c : ascii) (rest : gostring) :
  utf8.RuneSelf <= b2z c ->
  match rest with [] => True | d :: _ => utf8.RuneStart (b2z d) = true end ->
  snd (utf8.DecodeRuneInString (c :: rest)) = 1%nat.
Proof.
  intros Hc Hrest. unfold utf8.DecodeRuneInString.
  destruct (Z.leb_spec 0xF0 (utf8.first (b2z c))) as [|Hx]; [done|].
  destruct (_ <? _); [done|].
  destruct rest as [|d rest]; [done|].
  apply RuneStart_not_continuation in Hrest.
  destruct (acceptRanges_within (b2z c) Hx) as [Hlo Hhi].
  assert ((b2z d <? fst (utf8.acceptRanges (Z.shiftr (utf8.first (b2z c)) 4)))
          || (snd (utf8.acceptRanges (Z.shiftr (utf8.first (b2z c)) 4)) <? b2z d)
          = true) as ->; [|done].
  apply orb_true_iff in Hrest as [H|H]; apply Z.ltb_lt in H;
    apply orb_true_iff; [left|right]; apply Z.ltb_lt; lia.
Qed.

(** A rune other than [RuneError] begins with a byte that starts a rune. *)
Lemma DecodeRune_start (q : gostring) (r : Z) (size : nat) :
  utf8.DecodeRuneInString q = (r, size) -> r <> utf8.RuneError ->
  match q with [] => False | c :: _ => utf8.RuneStart (b2z c) = true end.
Proof.
  destruct q as [|c q]; [by intros [= <- _]|].
  intros Hd Hr. destruct (byte_start_or_invalid c) as [|Hx]; [done|].
  unfold utf8.DecodeRuneInString in Hd. rewrite Hx in Hd. cbn in Hd.
  by injection Hd as <- _.
Qed.

Lemma scan_start_le fuel (s : gostring) start lim :
  utf8.scan_start fuel s start lim <= start.
Proof.
  revert start. induction fuel as [|fuel IH]; intros start; simpl; [lia|].
  destruct (_ <? _); [lia|]. destruct (utf8.RuneStart _); [lia|].
  specialize (IH (start - 1)). lia.
Qed.

Lemma DecodeLastRune_size_pos (s : gostring) :
  s <> [] -> (1 <= snd (utf8.DecodeLastRuneInString s))%nat.
Proof.
  intros Hs. unfold utf8.DecodeLastRuneInString.
  destruct (Z.eqb_spec (Z.of_nat (length s)) 0) as [H0|Hpos].
  { destruct s; [congruence|simpl in H0; lia]. }
  destruct (_ <? utf8.RuneSelf); [simpl; lia|].
  pose proof (scan_start_le utf8.UTFMax s (Z.of_nat (length s) - 1 - 1)
                (Z.max 0 (Z.of_nat (length s) - Z.of_nat utf8.UTFMax))) as Hle.
  set (st := utf8.scan_start _ _ _ _) in *. clearbody st.
  assert (Hne : drop (Z.to_nat (Z.max 0 st)) s <> []).
  { intros Hnil. apply (f_equal (@length ascii)) in Hnil.
    rewrite length_drop in Hnil. cbn [length] in Hnil. lia. }
  apply DecodeRune_size_pos in Hne.
  destruct (utf8.DecodeRuneInString _) as [r size].
  destruct (negb _); cbn [snd] in *; lia.
Qed.

(** A final ASCII byte is a rune of its own. *)
Lemma DecodeLastRune_ascii (s : gostring) (c : ascii) :
  b2z c < utf8.RuneSelf ->
  utf8.DecodeLastRuneInString (s ++ [c]) = (b2z c, 1%nat).
Proof.
  intros Hc. unfold utf8.DecodeLastRuneInString, utf8.byte_at.
  rewrite length_app. simpl length.
  destruct (Z.eqb_spec (Z.of_nat (length s + 1)) 0); [lia|].
  replace (Z.to_nat (Z.of_nat (length s + 1) - 1)) with (length s + 0)%nat by lia.
  rewrite lookup_app_r by lia.
  replace (length s + 0 - length s)%nat with 0%nat by lia. simpl.
  destruct (Z.ltb_spec (b2z c) utf8.RuneSelf); [reflexivity|lia].
Qed.

End DecodeFacts.

Section TrimFacts.

Variable f : Z -> bool.

Local Abbreviation left_stopped := (left_stopped f).
Local Abbreviation right_stopped := (right_stopped f).

Lemma dropLeft_loop_suffix fuel (s : gostring) :
  dropLeft_loop fuel f s `suffix_of` s.
Proof.
  revert s. induction fuel as [|fuel IH]; intros s; simpl; [done|].
  destruct s as [|c s]; [done|].
  destruct (utf8.DecodeRuneInString (c :: s)) as [r size].
  destruct (f r); [|done].
  etrans; [apply IH|apply suffix_drop].
Qed.

Lemma dropLeft_loop_stopped fuel (s : gostring) :
  (length s <= fuel)%nat -> left_stopped (dropLeft_loop fuel f s).
Proof.
  revert s. induction fuel as [|fuel IH]; intros s Hlen; simpl.
  { left. destruct s; [done|simpl in Hlen; lia]. }
  destruct s as [|c s]; [now left|].
  pose proof (DecodeRune_size_pos (c :: s) ltac:(done)) as Hpos.
  destruct (utf8.DecodeRuneInString (c :: s)) as [r size] eqn:Hd.
  destruct (f r) eqn:Hf.
  - apply IH. rewrite length_drop. simpl in *. lia.
  - right. now rewrite Hd.
Qed.

Lemma dropLeft_fixed (s : gostring) :
  left_stopped s -> dropLeft s f = s.
Proof.
  unfold dropLeft. intros [->|Hs]; [done|].
  destruct s as [|c s]; [done|]. cbn [length dropLeft_loop].
  destruct (utf8.DecodeRuneInString (c :: s)) as [r size].
  simpl in Hs. now rewrite Hs.
Qed.

Lemma dropRight_loop_prefix fuel (s : gostring) :
  dropRight_loop fuel f s `prefix_of` s.
Proof.
  revert s. induction fuel as [|fuel IH]; intros s; simpl; [done|].
  destruct s as [|c s]; [done|].
  destruct (utf8.DecodeLastRuneInString (c :: s)) as [r size].
  destruct (f r); [|done].
  etrans; [apply IH|apply prefix_take].
Qed.

Lemma dropRight_loop_stopped fuel (s : gostring) :
  (length s <= fuel)%nat -> right_stopped (dropRight_loop fuel f s).
Proof.
  revert s. induction fuel as [|fuel IH]; intros s Hlen; simpl.
  { left. destruct s; [done|simpl in Hlen; lia]. }
  destruct s as [|c s]; [now left|].
  pose proof (DecodeLastRune_size_pos (c :: s) ltac:(done)) as Hpos.
  destruct (utf8.DecodeLastRuneInString (c :: s)) as [r size] eqn:Hd.
  destruct (f r) eqn:Hf.
  - apply IH. rewrite length_take. simpl in *. lia.
  - right. now rewrite Hd.
Qed.

Lemma dropRight_fixed (s : gostring) :
  right_stopped s -> dropRight s f = s.
Proof.
  unfold dropRight. intros [->|Hs]; [done|].
  destruct s as [|c s]; [done|]. cbn [length dropRight_loop].
  destruct (utf8.DecodeLastRuneInString (c :: s)) as [r size].
  simpl in Hs. now rewrite Hs.
Qed.

Hypothesis f_RuneError : f utf8.RuneError = false.

(** A prefix of a left-trimmed string is left-trimmed. *)
Lemma left_stopped_prefix (r t : gostring) :
  r `prefix_of` t -> left_stopped t -> left_stopped r.
Proof.
  intros [u ->] Ht. destruct r as [|c r]; [now left|]. right.
  destruct Ht as [Ht|Ht]; [done|].
  destruct (DecodeRune_app (c :: r) u ltac:(done)) as [He|He].
  - now rewrite <- He.
  - now rewrite He.
Qed.

Lemma dropBoth_prefix_suffix (s : gostring) :
  exists pre post, s = pre ++ dropBoth s f ++ post.
Proof.
  unfold dropBoth, dropRight, dropLeft.
  destruct (dropLeft_loop_suffix (length s) s) as [pre Hpre].
  set (t := dropLeft_loop (length s) f s) in *.
  destruct (dropRight_loop_prefix (length t) t) as [post Hpost].
  exists pre, post. now rewrite <- Hpost.
Qed.

Lemma dropBoth_right_stopped (s : gostring) :
  right_stopped (dropBoth s f).
Proof. now apply dropRight_loop_stopped. Qed.

Lemma dropBoth_left_stopped (s : gostring) :
  left_stopped (dropBoth s f).
Proof.
  eapply left_stopped_prefix; [apply dropRight_loop_prefix|].
  now apply dropLeft_loop_stopped.
Qed.

Lemma dropBoth_idempotent (s : gostring) :
  dropBoth (dropBoth s f) f = dropBoth s f.
Proof.
  unfold dropBoth at 1.
  rewrite (dropLeft_fixed _ (dropBoth_left_stopped s)).
  apply dropRight_fixed, dropBoth_right_stopped.
Qed.

End TrimFacts.

Lemma Split_cons_inv (s : gostring) sep :
  exists l ls, strings.Split s sep = l :: ls /\ Forall (fun c => Ascii.eqb c sep = false) l.
Proof.
  induction s as [|c s (l & ls & IH & Hl)]; simpl; [by eexists _, _|].
  destruct (Ascii.eqb c sep) eqn:Hc; [by eexists _, _|].
  rewrite IH. eexists _, _. split; [done|]. by constructor.
Qed.

Lemma Join_cons (e : gostring) rest sep :
  strings.Join (e :: rest) sep =
  e ++ match rest with [] => [] | _ :: _ => sep ++ strings.Join rest sep end.
Proof. destruct rest; simpl; [by rewrite app_nil_r|done]. Qed.

Lemma TrimRight_prefix (s cutset : gostring) :
  strings.TrimRight s cutset `prefix_of` s.
Proof.
  induction s as [|c s IH]; simpl; [done|].
  destruct (strings.TrimRight s cutset) as [|d t].
  - destruct (strings.byte_in cutset c); [apply prefix_nil|].
    by apply prefix_cons, prefix_nil.
  - by apply prefix_cons.
Qed.

Lemma trimLines_cons (c : ascii) (s : gostring) :
  trimLines (c :: s) =
  if Ascii.eqb c newline then newline :: trimLines s
  else if strings.byte_in lineBlanks c && at_line_end (trimLines s) then trimLines s
  else c :: trimLines s.
Proof.
  unfold trimLines. cbn [strings.Split].
  destruct (Split_cons_inv s newline) as (l & ls & -> & Hl).
  destruct (Ascii.eqb c newline) eqn:Hc; [done|].
  cbn [map]. rewrite !Join_cons. cbn [strings.TrimRight].
  set (rest := match map _ ls with [] => [] | _ :: _ => _ end).
  assert (Hrest : at_line_end rest = true) by (subst rest; by destruct (map _ ls)).
  destruct (TrimRight_prefix l lineBlanks) as [u Hu].
  destruct (strings.TrimRight l lineBlanks) as [|d t].
  - cbn [app]. rewrite Hrest, andb_true_r.
    by destruct (strings.byte_in lineBlanks c).
  - rewrite Hu in Hl. apply Forall_app in Hl as [Hl _].
    apply Forall_cons in Hl as [Hd _].
    cbn [app at_line_end]. rewrite Hd, andb_false_r. done.
Qed.

Lemma trimLines_nil : trimLines [] = [].
Proof. reflexivity. Qed.

Lemma trimLines_clean (s : gostring) : clean (trimLines s) = true.
Proof.
  induction s as [|c s IH]; [done|]. rewrite trimLines_cons.
  destruct (Ascii.eqb_spec c newline) as [->|Hc];
    [cbn [clean]; rewrite IH; reflexivity|].
  destruct (_ && _) eqn:Hb; [done|]. cbn [clean]. by rewrite Hb, IH.
Qed.

Lemma clean_trimLines (s : gostring) : clean s = true -> trimLines s = s.
Proof.
  induction s as [|c s IH]; [done|]. cbn [clean].
  intros [Hc Hs]%andb_true_iff. rewrite trimLines_cons, (IH Hs).
  apply negb_true_iff in Hc. rewrite Hc.
  destruct (Ascii.eqb_spec c newline); [by subst|done].
Qed.

Lemma clean_suffix (pre s : gostring) : clean (pre ++ s) = true -> clean s = true.
Proof.
  induction pre as [|c pre IH]; [done|]. cbn [app clean].
  intros [_ H]%andb_true_iff. auto.
Qed.

Lemma clean_prefix (s post : gostring) :
  clean (s ++ post) = true ->
  (forall c, last s = Some c -> strings.byte_in lineBlanks c = false) ->
  clean s = true.
Proof.
  induction s as [|c s IH]; [done|]. cbn [app clean].
  intros [Hc Hs]%andb_true_iff Hlast.
  destruct s as [|d s].
  - rewrite (Hlast c eq_refl). done.
  - rewrite IH; [|done|by intros c' Hc'; apply Hlast].
    by rewrite andb_true_r.
Qed.

(** *** The library functions compute the auxiliary ones *)

Lemma DecodeLastRune_size_le (s : gostring) :
  (snd (utf8.DecodeLastRuneInString s) <= length s)%nat.
Proof.
  unfold utf8.DecodeLastRuneInString.
  destruct (Z.eqb_spec (Z.of_nat (length s)) 0) as [H0|Hpos]; [simpl; lia|].
  destruct (_ <? utf8.RuneSelf); [simpl; lia|].
  destruct (utf8.DecodeRuneInString _) as [r size].
  destruct (Z.eqb_spec (Z.max 0 (utf8.scan_start utf8.UTFMax s
                                   (Z.of_nat (length s) - 1 - 1)
                                   (Z.max 0 (Z.of_nat (length s) - Z.of_nat utf8.UTFMax)))
                        + Z.of_nat size) (Z.of_nat (length s)));
    cbn [negb snd]; lia.
Qed.

(** The last rune, when it is not [RuneError], begins with a byte that
    starts a rune. *)
Lemma DecodeLastRune_start (p : gostring) (r : Z) (size : nat) :
  utf8.DecodeLastRuneInString p = (r, size) -> r <> utf8.RuneError ->
  exists c, p !! (length p - size)%nat = Some c /\ utf8.RuneStart (b2z c) = true.
Proof.
  unfold utf8.DecodeLastRuneInString.
  destruct (Z.eqb_spec (Z.of_nat (length p)) 0) as [H0|Hpos].
  { by intros [= <- _]. }
  unfold utf8.byte_at.
  replace (Z.to_nat (Z.of_nat (length p) - 1)) with (length p - 1)%nat by lia.
  destruct (p !! (length p - 1)%nat) as [c|] eqn:Hc.
  2: { apply lookup_ge_None in Hc. lia. }
  destruct (Z.ltb_spec (b2z c) utf8.RuneSelf) as [Hascii|Hhigh].
  { intros [= <- <-] _. exists c. split; [done|].
    destruct (byte_start_or_invalid c) as [|Hx]; [done|].
    rewrite (first_ascii _ Hascii) in Hx. discriminate. }
  set (start := Z.max 0 _).
  destruct (utf8.DecodeRuneInString (drop (Z.to_nat start) p)) as [r0 size0] eqn:Hd.
  destruct (Z.eqb_spec (start + Z.of_nat size0) (Z.of_nat (length p))) as [He|He];
    cbn [negb]; [|by intros [= <- _]].
  intros [= <- <-] Hr. pose proof (DecodeRune_start _ _ _ Hd Hr) as Hs.
  destruct (drop (Z.to_nat start) p) as [|c0 q] eqn:Hq; [done|].
  exists c0. split; [|done].
  replace (length p - size0)%nat with (Z.to_nat start + 0)%nat by lia.
  rewrite <- lookup_drop. by rewrite Hq.
Qed.

Section TrimEquiv.

Variable f : Z -> bool.

Lemma indexFunc_loop_dropLeft (fuel : nat) (s : gostring) (i : nat) :
  (length s - i <= fuel)%nat ->
  (let j := strings.indexFunc_loop fuel s f false i in
   if j =? -1 then [] else drop (Z.to_nat j) s) = dropLeft_loop fuel f (drop i s).
Proof.
  revert i. induction fuel as [|fuel IH]; intros i Hlen; cbn zeta.
  { cbn. symmetry. apply drop_ge. lia. }
  cbn [strings.indexFunc_loop dropLeft_loop].
  destruct (drop i s) as [|c t] eqn:Hd; [done|].
  pose proof (DecodeRune_size_pos (c :: t) ltac:(done)) as Hpos.
  destruct (utf8.DecodeRuneInString (c :: t)) as [r size]. cbn [snd] in Hpos.
  destruct (f r); cbn [Bool.eqb].
  - assert (Hl : length (drop i s) = S (length t)) by (by rewrite Hd).
    rewrite length_drop in Hl.
    rewrite <- Hd, drop_drop. apply IH. lia.
  - destruct (Z.eqb_spec (Z.of_nat i) (-1)); [lia|].
    by rewrite Nat2Z.id.
Qed.

Lemma TrimLeftFunc_dropLeft (s : gostring) :
  strings.TrimLeftFunc s f = dropLeft s f.
Proof.
  unfold strings.TrimLeftFunc, strings.indexFunc, dropLeft.
  pose proof (indexFunc_loop_dropLeft (length s) s 0 ltac:(lia)) as H.
  exact H.
Qed.

Hypothesis f_RuneError : f utf8.RuneError = false.

Lemma dropRight_loop_S (fuel : nat) (s : gostring) :
  s <> [] ->
  dropRight_loop (S fuel) f s =
    (let '(r, size) := utf8.DecodeLastRuneInString s in
     if f r then dropRight_loop fuel f (take (length s - size) s) else s).
Proof. by destruct s. Qed.

Lemma lastIndexFunc_loop_dropRight (fuel : nat) (s : gostring) (i : nat) :
  (i <= length s)%nat -> (i <= fuel)%nat -> rune_boundary s i ->
  let j := strings.lastIndexFunc_loop fuel s f false i in
  (j = -1 /\ dropRight_loop fuel f (take i s) = [])
  \/ (exists (e : nat) (r : Z) (size : nat),
        dropRight_loop fuel f (take i s) = take e s
        /\ (0 < e <= length s)%nat
        /\ utf8.DecodeLastRuneInString (take e s) = (r, size)
        /\ (1 <= size <= e)%nat
        /\ j = Z.of_nat (e - size)
        /\ rune_boundary s e).
Proof.
  revert i. induction fuel as [|fuel IH]; intros i Hi Hfuel Hb; cbn zeta.
  { left. replace i with 0%nat by lia. by rewrite take_0. }
  cbn [strings.lastIndexFunc_loop].
  destruct (Nat.ltb_spec 0 i) as [Hpos|Hzero].
  2: { left. replace i with 0%nat by lia. by rewrite take_0. }
  assert (Hlen : length (take i s) = i) by (rewrite length_take; lia).
  assert (Hne : take i s <> []).
  { intros Hnil. rewrite Hnil in Hlen. simpl in Hlen. lia. }
  rewrite (dropRight_loop_S _ _ Hne).
  pose proof (DecodeLastRune_size_pos (take i s) Hne) as Hp1.
  pose proof (DecodeLastRune_size_le (take i s)) as Hp2. rewrite Hlen in Hp2.
  destruct (utf8.DecodeLastRuneInString (take i s)) as [r size] eqn:Hd.
  cbn [snd] in Hp1, Hp2.
  destruct (f r) eqn:Hf; cbn [Bool.eqb].
  - rewrite Hlen, take_take, Nat.min_l by lia.
    apply IH; [lia|lia|].
    destruct (DecodeLastRune_start _ _ _ Hd) as (c & Hc & Hstart).
    { intros ->. congruence. }
    rewrite Hlen, lookup_take_lt in Hc by lia.
    unfold rune_boundary. by rewrite (drop_S _ _ _ Hc).
  - right. exists i, r, size. rewrite <- Hd. done.
Qed.

(** After [lastIndexFunc] has found the last rune to keep, the end of
    the result is the end of that rune. *)
Lemma TrimRightFunc_end (s : gostring) (e : nat) (r : Z) (size : nat) :
  (0 < e <= length s)%nat ->
  utf8.DecodeLastRuneInString (take e s) = (r, size) ->
  (1 <= size <= e)%nat ->
  rune_boundary s e ->
  let i := Z.of_nat (e - size) in
  (if (0 <=? i) && (utf8.RuneSelf <=? utf8.byte_at s i) then
     let '(_, wid) := utf8.DecodeRuneInString (drop (Z.to_nat i) s) in
     i + Z.of_nat wid
   else i + 1) = Z.of_nat e.
Proof.
  intros He Hd Hsize Hb i.
  assert (Hlen : length (take e s) = e) by (rewrite length_take; lia).
  assert (Hdrop : forall j, (j < e)%nat ->
            drop j s = drop j (take e s) ++ drop e s).
  { intros j Hj. rewrite <- (take_drop e s) at 1.
    rewrite drop_app_le by lia. done. }
  assert (Hone : forall c, s !! (e - 1)%nat = Some c -> utf8.RuneSelf <= b2z c ->
            snd (utf8.DecodeRuneInString (drop (e - 1) s)) = 1%nat).
  { intros c Hc Hhigh. rewrite (drop_S _ _ _ Hc).
    apply DecodeRune_before_start; [done|].
    replace (S (e - 1)) with e by lia. exact Hb. }
  assert (Hat : forall j c, s !! j = Some c -> utf8.byte_at s (Z.of_nat j) = b2z c).
  { intros j c Hc. unfold utf8.byte_at. by rewrite Nat2Z.id, Hc. }
  destruct (Z.leb_spec 0 i) as [_|]; [|lia]. cbn [andb].
  unfold utf8.DecodeLastRuneInString in Hd. rewrite Hlen in Hd.
  destruct (Z.eqb_spec (Z.of_nat e) 0); [lia|].
  unfold utf8.byte_at in Hd at 1.
  replace (Z.to_nat (Z.of_nat e - 1)) with (e - 1)%nat in Hd by lia.
  rewrite lookup_take_lt in Hd by lia.
  destruct (s !! (e - 1)%nat) as [c|] eqn:Hc.
  2: { apply lookup_ge_None in Hc. lia. }
  destruct (Z.ltb_spec (b2z c) utf8.RuneSelf) as [Hascii|Hhigh].
  { injection Hd as <- <-. subst i. rewrite (Hat _ _ Hc).
    destruct (Z.leb_spec utf8.RuneSelf (b2z c)); lia. }
  set (start := Z.max 0 _) in Hd.
  destruct (utf8.DecodeRuneInString (drop (Z.to_nat start) (take e s)))
    as [r0 size0] eqn:Hq.
  destruct (Z.eqb_spec (start + Z.of_nat size0) (Z.of_nat e)) as [Hfit|Hfit];
    cbn [negb] in Hd; injection Hd as <- <-.
  2: { subst i. rewrite (Hat _ _ Hc).
       destruct (Z.leb_spec utf8.RuneSelf (b2z c)); [|lia].
       replace (Z.to_nat (Z.of_nat (e - 1))) with (e - 1)%nat by lia.
       specialize (Hone c eq_refl Hhigh).
       destruct (utf8.DecodeRuneInString (drop (e - 1) s)) as [r1 wid].
       cbn [snd] in Hone. lia. }
  assert (Hstart : Z.to_nat start = (e - size0)%nat) by lia.
  subst i. rewrite Nat2Z.id.
  destruct (s !! (e - size0)%nat) as [c0|] eqn:Hc0.
  2: { apply lookup_ge_None in Hc0. lia. }
  rewrite (Hat _ _ Hc0).
  rewrite Hstart in Hq.
  assert (Hq0 : drop (e - size0) (take e s) = c0 :: drop (S (e - size0)) (take e s)).
  { apply drop_S. rewrite lookup_take_lt by lia. done. }
  destruct (Z.leb_spec utf8.RuneSelf (b2z c0)) as [Hhigh0|Hascii0].
  - rewrite (Hdrop (e - size0)%nat) by lia.
    destruct (DecodeRune_app_strong (drop (e - size0) (take e s)) (drop e s))
      as [Heq|Herr].
    { by rewrite Hq0. }
    + rewrite Heq, Hq. lia.
    + rewrite Hq in Herr. injection Herr as _ ->.
      rewrite <- (Hdrop (e - 1)%nat) by lia.
      assert (c0 = c) as -> by congruence.
      specialize (Hone c eq_refl Hhigh).
      destruct (utf8.DecodeRuneInString (drop (e - 1) s)) as [r1 wid].
      cbn [snd] in Hone. lia.
  - rewrite Hq0, (DecodeRune_ascii c0 _ Hascii0) in Hq.
    injection Hq as _ <-. lia.
Qed.

Lemma TrimRightFunc_dropRight (s : gostring) :
  strings.TrimRightFunc s f = dropRight s f.
Proof.
  unfold strings.TrimRightFunc, strings.lastIndexFunc, dropRight.
  destruct (lastIndexFunc_loop_dropRight (length s) s (length s))
    as [[Hj Hnil]|(e & r & size & Hres & He & Hd & Hsize & Hj & Hb)];
    [lia|lia|unfold rune_boundary; by rewrite drop_all|..];
    cbn zeta in *; rewrite firstn_all in *.
  - rewrite Hj, Hnil. done.
  - rewrite Hj, Hres, (TrimRightFunc_end s e r size He Hd Hsize Hb).
    by rewrite Nat2Z.id.
Qed.

Lemma TrimFunc_dropBoth (s : gostring) :
  strings.TrimFunc s f = dropBoth s f.
Proof.
  unfold strings.TrimFunc, dropBoth.
  by rewrite TrimLeftFunc_dropLeft, TrimRightFunc_dropRight.
Qed.

End TrimEquiv.

Lemma dropLeft_cons_space (c : ascii) (s : gostring) :
  b2z c < utf8.RuneSelf -> unicode.IsSpace (b2z c) = true ->
  dropLeft (c :: s) unicode.IsSpace = dropLeft s unicode.IsSpace.
Proof.
  intros Hc Hsp. unfold dropLeft. cbn [length dropLeft_loop].
  by rewrite (DecodeRune_ascii c s Hc), Hsp.
Qed.

Lemma dropLeft_cons_stop (c : ascii) (s : gostring) :
  b2z c < utf8.RuneSelf -> unicode.IsSpace (b2z c) = false ->
  dropLeft (c :: s) unicode.IsSpace = c :: s.
Proof.
  intros Hc Hsp. unfold dropLeft. cbn [length dropLeft_loop].
  by rewrite (DecodeRune_ascii c s Hc), Hsp.
Qed.

Lemma dropRight_snoc (t : gostring) (c : ascii) :
  b2z c < utf8.RuneSelf ->
  dropRight (t ++ [c]) unicode.IsSpace =
    if unicode.IsSpace (b2z c) then dropRight t unicode.IsSpace else t ++ [c].
Proof.
  intros Hc. unfold dropRight. rewrite length_app. cbn [length].
  replace (length t + 1)%nat with (S (length t)) by lia.
  destruct (t ++ [c]) as [|d u] eqn:Htc; [by destruct t|]. rewrite <- Htc.
  cbn [dropRight_loop]. rewrite Htc at 1. rewrite (DecodeLastRune_ascii t c Hc).
  destruct (unicode.IsSpace (b2z c)); [|done].
  rewrite length_app. cbn [length].
  replace (length t + 1 - 1)%nat with (length t) by lia.
  by rewrite take_app_length.
Qed.

Lemma TrimSpace_stop_dropRight (reversed : gostring) :
  strings.TrimSpace_stop reversed = dropRight (rev reversed) unicode.IsSpace.
Proof.
  induction reversed as [|c u IH]; [done|]. cbn [strings.TrimSpace_stop].
  destruct (Z.leb_spec utf8.RuneSelf (b2z c)) as [Hhigh|Hascii].
  - by apply TrimRightFunc_dropRight.
  - cbn [rev]. rewrite (dropRight_snoc _ _ Hascii), <- (asciiSpace_IsSpace c Hascii).
    destruct (unicode.IsSpace (b2z c)); done.
Qed.

(** [strings.TrimSpace] drops the white space runes at both ends. *)
Lemma TrimSpace_dropBoth (s : gostring) :
  strings.TrimSpace s = dropBoth s unicode.IsSpace.
Proof.
  induction s as [|c s IH]; [done|]. cbn [strings.TrimSpace].
  destruct (Z.leb_spec utf8.RuneSelf (b2z c)) as [Hhigh|Hascii].
  - by apply TrimFunc_dropBoth.
  - rewrite <- (asciiSpace_IsSpace c Hascii). unfold dropBoth.
    destruct (unicode.IsSpace (b2z c)) eqn:Hsp.
    + by rewrite (dropLeft_cons_space c s Hascii Hsp).
    + rewrite (dropLeft_cons_stop c s Hascii Hsp), TrimSpace_stop_dropRight.
      by rewrite rev_involutive.
Qed.


Lemma normalizeOutput_unfold (s : gostring) :
  normalizeOutput s = strings.TrimSpace (trimLines s).
Proof. reflexivity. Qed.

Lemma lineBlanks_inv (c : ascii) :
  strings.byte_in lineBlanks c = true ->
  b2z c < utf8.RuneSelf /\ unicode.IsSpace (b2z c) = true.
Proof.
  unfold strings.byte_in, lineBlanks. cbn [existsb].
  rewrite !orb_true_iff, !Ascii.eqb_eq. intros [->|[->|[->|?]]]; [split; reflexivity..|done].
Qed.

(** A normalised text does not end in a blank. *)
Lemma TrimSpace_last (s : gostring) (c : ascii) :
  last (strings.TrimSpace s) = Some c -> strings.byte_in lineBlanks c = false.
Proof.
  intros Hlast. destruct (strings.byte_in lineBlanks c) eqn:Hc; [|done].
  apply lineBlanks_inv in Hc as [Hlt Hsp].
  apply last_Some in Hlast as [r Hr].
  destruct (dropBoth_right_stopped unicode.IsSpace s) as [Hnil|Hstop];
    rewrite <- TrimSpace_dropBoth in *; rewrite Hr in *.
  - by destruct r.
  - rewrite DecodeLastRune_ascii in Hstop by done. simpl in Hstop. congruence.
Qed.

Lemma TrimSpace_idempotent (s : gostring) :
  strings.TrimSpace (strings.TrimSpace s) = strings.TrimSpace s.
Proof. rewrite !TrimSpace_dropBoth. by apply dropBoth_idempotent. Qed.

Lemma TrimSpace_clean (s : gostring) :
  clean s = true -> clean (strings.TrimSpace s) = true.
Proof.
  intros Hs.
  destruct (dropBoth_prefix_suffix unicode.IsSpace s) as (pre & post & Hpp).
  rewrite <- TrimSpace_dropBoth in Hpp. rewrite Hpp in Hs.
  apply clean_suffix in Hs. eapply clean_prefix; [exact Hs|].
  apply TrimSpace_last.
Qed.

(** C8. Output normalisation is idempotent: for every text [x],
    normalising a second time changes nothing, where normalisation
    splits into lines, right-trims spaces, tabs and carriage returns
    from each line, rejoins with newlines and trims the white space at
    both ends of the whole text. *)
Theorem normalizeOutput_idempotent (x : gostring) :
  normalizeOutput (normalizeOutput x) = normalizeOutput x.
Proof.
  rewrite !normalizeOutput_unfold.
  rewrite (clean_trimLines (strings.TrimSpace (trimLines x))).
  - apply TrimSpace_idempotent.
  - apply TrimSpace_clean, trimLines_clean.
Qed.

Lemma HasPrefix_drop (s prefix : gostring) :
  strings.HasPrefix s prefix = true -> s = prefix ++ drop (length prefix) s.
Proof.
  revert s. induction prefix as [|p prefix IH]; intros s; [done|].
  destruct s as [|c s]; [done|]. cbn [strings.HasPrefix].
  intros [Hc Hs]%andb_true_iff. apply Ascii.eqb_eq in Hc as ->.
  cbn. f_equal. by apply IH.
Qed.

Lemma TrimSuffix_app (s suffix : gostring) :
  strings.HasSuffix s suffix = true -> strings.TrimSuffix s suffix ++ suffix = s.
Proof.
  unfold strings.TrimSuffix. intros Hs. rewrite Hs.
  apply HasPrefix_drop in Hs. rewrite length_rev, skipn_rev in Hs.
  rewrite <- rev_app_distr in Hs. by apply rev_inj in Hs.
Qed.


(** ** The model on small inputs *)

Example normalizeOutput_collatz :
  normalizeOutput (str "5 8 4 2 1 " ++ ["013"; "010"; "010"]%char) = str "5 8 4 2 1".
Proof. vm_compute. reflexivity. Qed.

Example normalizeOutput_inner_lines :
  normalizeOutput (str "  a " ++ [newline] ++ str " b" ++ ["009"; "010"]%char)
  = str "a" ++ [newline] ++ str " b".
Proof. vm_compute. reflexivity. Qed.

(** A no-break space (C2 A0) and an ideographic space (E3 80 80) are
    white space for [TrimSpace], a lone continuation byte is not. *)
Example TrimSpace_unicode :
  strings.TrimSpace (["194"; "160"]%char ++ str "a" ++ ["227"; "128"; "128"]%char)
  = str "a"
  /\ strings.TrimSpace (str " " ++ ["128"]%char ++ str " ") = ["128"]%char.
Proof. vm_compute. split; reflexivity. Qed.

Example compareOutputs_trailing_blanks :
  compareOutputs (str "5 8 4 2 1" ++ [newline]) (str "5 8 4 2 1   ") = true
  /\ compareOutputs (str "5 8 4 2 1") (str "5  8 4 2 1") = false.
Proof. vm_compute. split; reflexivity. Qed.

Example Atoi_samples :
  strconv.Atoi (str "12") = (12, true)
  /\ strconv.Atoi (str "-007") = (-7, true)
  /\ strconv.Atoi (str "1x") = (0, false)
  /\ strconv.Atoi (str "") = (0, false)
  /\ strconv.Atoi (str "9223372036854775808") = (9223372036854775807, false).
Proof. vm_compute. repeat split; reflexivity. Qed.

Example parseTestNumber_samples :
  parseTestNumber (str "1.in") (str ".in") = 1
  /\ parseTestNumber (str "test12.in") (str ".in") = 12
  /\ parseTestNumber (str "output3.out") (str ".out") = 3
  /\ parseTestNumber (str "tests/1.in") (str ".in") = 0
  /\ parseTestNumber (str "-4.in") (str ".in") = 0.
Proof. vm_compute. repeat split; reflexivity. Qed.

Example name_order_samples :
  name_ltb (str "10.in") (str "2.in") = true
  /\ name_ltb (str "1.in") (str "10.in") = true
  /\ name_ltb (str "2.in") (str "10.in") = false.
Proof. vm_compute. repeat split; reflexivity. Qed.

(** The remote-fetch path on the sample archive: ordinal 3 has no
    output and is dropped. *)
Example extract_sample_archive :
  Number <$> fst (extractTestCasesFromZip sample_library []) = [2; 1]
  /\ snd (extractTestCasesFromZip sample_library []) = None.
Proof. vm_compute. split; reflexivity. Qed.

(** The sample run: the first fixture passes, the second times out. *)
Example sample_run_results :
  (fun r => (TestNumber r, Passed r, Error r, InputFile r)) <$> results sample_final
  = [ (1, true, [], str "cache/1068/10.in");
      (2, false, str "timeout exceeded (1s)", str "cache/1068/2.in") ].
Proof. vm_compute. reflexivity. Qed.


Section CoreFacts.

Variable go : GoLibrary.

Local Abbreviation GetTimeout := (GetTimeout go).
Local Abbreviation runGoProgram := (runGoProgram go).
Local Abbreviation Execute := (Execute go).
Local Abbreviation runTests_results := (runTests_results go).
Local Abbreviation LoadSession := (LoadSession go).
Local Abbreviation FetchLoginPage := (FetchLoginPage go).
Local Abbreviation Login := (Login go).
Local Abbreviation EnsureAuthenticated := (EnsureAuthenticated go).
Local Abbreviation extractTestCasesFromZip := (extractTestCasesFromZip go).
Local Abbreviation loadCached_loop := (loadCached_loop go).
Local Abbreviation loadCachedTestCases := (loadCachedTestCases go).
Local Abbreviation cacheTestCases := (cacheTestCases go).
Local Abbreviation fetchFromCSES := (fetchFromCSES go).
Local Abbreviation FetchTestCases := (FetchTestCases go).

(** ** Properties of the executor *)

Lemma runGoProgram_err (config : Config) (child : ChildRun) :
  snd (runGoProgram config child) = None <-> run_err child = None.
Proof.
  unfold runGoProgram. destruct (run_err child) as [e|]; [|done].
  destruct (deadline_exceeded child); [done|].
  destruct (0 <? _); done.
Qed.

Lemma runGoProgram_stdout (config : Config) (child : ChildRun) :
  run_err child = None ->
  runGoProgram config child = (child_stdout child, 0, None).
Proof. unfold runGoProgram. by intros ->. Qed.

Lemma Execute_TestNumber config spawn executablePath testCase testNumber :
  TestNumber (Execute config spawn executablePath testCase testNumber) = testNumber.
Proof.
  unfold Execute. destruct (runGoProgram _ _) as [[actual code] [msg|]]; [done|].
  by destruct (compareOutputs _ _).
Qed.

Lemma Execute_InputFile config spawn executablePath testCase testNumber :
  InputFile (Execute config spawn executablePath testCase testNumber) =
  filepath_Join go [CacheDir config; ProblemID config;
                 strconv.Itoa (Number testCase) ++ str ".in"].
Proof.
  unfold Execute. destruct (runGoProgram _ _) as [[actual code] [msg|]]; [done|].
  by destruct (compareOutputs _ _).
Qed.

Lemma Execute_ExpectedFile config spawn executablePath testCase testNumber :
  ExpectedFile (Execute config spawn executablePath testCase testNumber) =
  filepath_Join go [CacheDir config; ProblemID config;
                 strconv.Itoa (Number testCase) ++ str ".out"].
Proof.
  unfold Execute. destruct (runGoProgram _ _) as [[actual code] [msg|]]; [done|].
  by destruct (compareOutputs _ _).
Qed.

(** C1. The pass flag of an execution result is true if and only if
    the child process ran without error (no timeout, no non-zero exit,
    no failure to start) and the normalised actual output equals the
    normalised expected output; every error of the run and every
    normalised difference gives a result that has not passed. *)
Theorem Execute_Passed_iff config spawn executablePath testCase testNumber :
  let child := spawn executablePath (Input testCase) in
  let result := Execute config spawn executablePath testCase testNumber in
  (Passed result = true <->
     run_err child = None /\
     normalizeOutput (child_stdout child) = normalizeOutput (Expected testCase))
  /\ (forall e, run_err child = Some e ->
        Passed result = false /\ Error result <> [])
  /\ (normalizeOutput (child_stdout child) <> normalizeOutput (Expected testCase) ->
        Passed result = false).
Proof.
  intros child result. subst result. unfold Execute. fold child.
  destruct (run_err child) as [e|] eqn:Herr.
  - assert (Hne : exists a c m, runGoProgram config child = (a, c, Some m)).
    { unfold runGoProgram. rewrite Herr.
      destruct (deadline_exceeded child); [by eexists _, _, _|].
      destruct (0 <? _); by eexists _, _, _. }
    destruct Hne as (a & c & m & Hrun). rewrite Hrun. cbn.
    assert (Hm : m <> []).
    { unfold runGoProgram in Hrun. rewrite Herr in Hrun.
      destruct (deadline_exceeded child); [by injection Hrun as _ _ <-|].
      destruct (0 <? _); by injection Hrun as _ _ <-. }
    split; [|split].
    + split; [done|]. by intros [? _].
    + by intros e' _.
    + done.
  - rewrite (runGoProgram_stdout _ _ Herr). unfold compareOutputs.
    case_bool_decide as Heq; cbn.
    + split; [|split]; [done|done|]. by intros Hne.
    + split; [|split]; [|done|done]. split; [done|]. by intros [_ ?].
Qed.

(** ** Properties of the runner *)

Lemma filter_insert_count {A : Type} (P : A -> Prop) `{!forall x, Decision (P x)}
    (l : list A) (i : nat) (a b : A) :
  l !! i = Some a ->
  (length (filter P (<[i := b]> l)) + (if decide (P a) then 1 else 0) =
   length (filter P l) + (if decide (P b) then 1 else 0))%nat.
Proof.
  revert i. induction l as [|x l IH]; intros [|i] Hi; try done.
  - injection Hi as ->. simpl. rewrite !filter_cons.
    destruct (decide (P a)), (decide (P b)); simpl; lia.
  - simpl. rewrite !filter_cons. specialize (IH i Hi).
    destruct (decide (P x)); simpl; lia.
Qed.

Lemma filter_length_le {A : Type} (P Q : A -> Prop)
    `{!forall x, Decision (P x)} `{!forall x, Decision (Q x)} (l : list A) :
  (forall x, P x -> Q x) -> (length (filter P l) <= length (filter Q l))%nat.
Proof.
  intros HPQ. induction l as [|x l IH]; [done|]. rewrite !filter_cons.
  destruct (decide (P x)) as [HP|HP], (decide (Q x)) as [HQ|HQ]; simpl; try lia.
  by destruct HQ; apply HPQ.
Qed.

Lemma steps_left_insert (l : list Phase) (i : nat) (a b : Phase) :
  l !! i = Some a ->
  (foldr (fun p n => phase_steps p + n) 0 (<[i := b]> l) + phase_steps a =
   foldr (fun p n => phase_steps p + n) 0 l + phase_steps b)%nat.
Proof.
  revert i. induction l as [|x l IH]; intros [|i] Hi; try done.
  - injection Hi as ->. simpl. lia.
  - simpl. specialize (IH i Hi). lia.
Qed.

Lemma steps_left_zero (l : list Phase) :
  foldr (fun p n => phase_steps p + n)%nat 0%nat l = 0%nat <->
  Forall (fun p => p = Finished) l.
Proof.
  induction l as [|x l IH]; simpl; [by split|]. split.
  - intros H. constructor; [destruct x; simpl in H; done || lia|apply IH; lia].
  - intros [-> Hl]%Forall_cons. simpl. by apply IH.
Qed.

Section RunTestsFacts.

Variable config : Config.
Variable spawn : nat -> gostring -> gostring -> ChildRun.
Variable executablePath : gostring.
Variable testCases : list TestCase.

Local Abbreviation init := (runTests_init config testCases).
Local Abbreviation stp := (step go config spawn executablePath testCases).
Local Abbreviation reach := (reachable go config spawn executablePath testCases).
Local Abbreviation inv := (run_inv go config spawn executablePath testCases).
Local Abbreviation exec index tc :=
  (Execute config (spawn index) executablePath tc (Z.of_nat index + 1)).

Lemma filter_replicate_nil {A : Type} (P : A -> Prop) `{!forall x, Decision (P x)}
    (n : nat) (a : A) :
  ~ P a -> filter P (replicate n a) = [].
Proof.
  intros Ha. induction n as [|n IH]; [done|]. simpl.
  by rewrite filter_cons_False.
Qed.

Lemma filter_Forall_not {A : Type} (P : A -> Prop) `{!forall x, Decision (P x)}
    (l : list A) :
  Forall (fun x => ~ P x) l -> filter P l = [].
Proof.
  induction 1 as [|x l Hx _ IH]; [done|]. by rewrite filter_cons_False.
Qed.

Lemma init_inv (s0 : RunState) : init = Some s0 -> inv s0.
Proof.
  unfold runTests_init. destruct (Z.ltb_spec (Parallel config) 0) as [?|Hcap]; [done|].
  intros [= <-]. unfold run_inv, holding_count. cbn.
  rewrite !length_replicate. rewrite filter_replicate_nil by (by intros [|]).
  repeat split; [simpl; lia|].
  intros index tc _ [Hph|Hph]; apply lookup_replicate in Hph as [? _]; done.
Qed.

Lemma step_inv (s s' : RunState) : inv s -> stp s s' -> inv s'.
Proof.
  intros (Hp & Hr & Hsem & Hcap & Hres) Hstep.
  destruct Hstep as [s index Hph Hlt|s index tc Hph Htc|s index Hph];
    unfold run_inv, holding_count in *; cbn [phases semaphore results];
    rewrite ?length_insert.
  - pose proof (filter_insert_count (fun p => p = Running \/ p = Stored)
                  _ _ _ Running Hph) as Hc.
    rewrite decide_False, decide_True in Hc by (intuition congruence).
    repeat split; [done|done|lia|lia|].
    intros j tc Htc Hj. apply Hres; [done|].
    destruct (decide (index = j)) as [->|Hne].
    + rewrite list_lookup_insert_eq in Hj by (by eapply lookup_lt_Some).
      destruct Hj; congruence.
    + by rewrite list_lookup_insert_ne in Hj.
  - pose proof (filter_insert_count (fun p => p = Running \/ p = Stored)
                  _ _ _ Stored Hph) as Hc.
    rewrite !decide_True in Hc by (intuition congruence).
    repeat split; [done|done|lia|lia|].
    intros j tc' Htc' Hj.
    destruct (decide (index = j)) as [->|Hne].
    + rewrite list_lookup_insert_eq by (rewrite Hr; by eapply lookup_lt_Some).
      congruence.
    + rewrite list_lookup_insert_ne by done.
      rewrite list_lookup_insert_ne in Hj by done. by apply Hres.
  - pose proof (filter_insert_count (fun p => p = Running \/ p = Stored)
                  _ _ _ Finished Hph) as Hc.
    rewrite decide_True, decide_False in Hc by (intuition congruence).
    repeat split; [done|done|lia|lia|].
    intros j tc Htc Hj. apply Hres; [done|].
    destruct (decide (index = j)) as [->|Hne]; [by left|].
    by rewrite list_lookup_insert_ne in Hj.
Qed.

Lemma reachable_inv (s : RunState) : reach s -> inv s.
Proof.
  intros (s0 & Hinit & Hsteps). apply init_inv in Hinit.
  induction Hsteps as [|x y z Hxy _ IH]; [done|].
  apply IH. by eapply step_inv.
Qed.

Lemma step_steps_left (s s' : RunState) :
  stp s s' -> S (steps_left s') = steps_left s.
Proof.
  intros [? index Hph _|? index tc Hph _|? index Hph]; unfold steps_left;
    cbn [phases].
  - pose proof (steps_left_insert _ _ _ Running Hph). simpl in *. lia.
  - pose proof (steps_left_insert _ _ _ Stored Hph). simpl in *. lia.
  - pose proof (steps_left_insert _ _ _ Finished Hph). simpl in *. lia.
Qed.

(** With a gate of at least one slot a run that has not finished can
    always take a step: the goroutines cannot block one another. *)
Lemma step_progress (s : RunState) :
  1 <= Parallel config -> inv s -> ~ all_finished s -> exists s', stp s s'.
Proof.
  intros HK (Hp & Hr & Hsem & Hcap & Hres) Hnot.
  destruct (decide (Exists (fun p => p = Running \/ p = Stored) (phases s)))
    as [Hex|Hnex].
  - apply Exists_exists in Hex as (p & Hin & Hp').
    apply list_elem_of_lookup in Hin as [index Hidx].
    destruct Hp' as [->| ->].
    + destruct (lookup_lt_is_Some_2 testCases index) as [tc Htc].
      { rewrite <- Hp. by eapply lookup_lt_Some. }
      eexists. by eapply step_execute.
    + eexists. by eapply step_release.
  - apply not_Forall_Exists in Hnot; [|intros p; apply _].
    apply Exists_exists in Hnot as (p & Hin & Hp').
    apply list_elem_of_lookup in Hin as [index Hidx].
    assert (p = Pending) as ->.
    { destruct p; [done| | |by destruct Hp']; destruct Hnex; apply Exists_exists;
        eexists; (split; [by eapply list_elem_of_lookup_2|]); auto. }
    apply not_Exists_Forall in Hnex; [|intros p; apply _].
    assert (holding_count s = 0%nat) as Hzero.
    { unfold holding_count. by rewrite filter_Forall_not. }
    eexists. eapply step_acquire; [done|lia].
Qed.

Lemma finished_results (s : RunState) :
  inv s -> all_finished s ->
  forall index tc, testCases !! index = Some tc ->
    results s !! index = Some (exec index tc).
Proof.
  intros (Hp & _ & _ & _ & Hres) Hfin index tc Htc.
  apply Hres; [done|]. right.
  destruct (lookup_lt_is_Some_2 (phases s) index) as [p Hph].
  { rewrite Hp. by eapply lookup_lt_Some. }
  rewrite Hph. f_equal.
  eapply (proj1 (Forall_forall _ _) Hfin). by eapply list_elem_of_lookup_2.
Qed.

Lemma step_writes_own_slot (s s' : RunState) (j : nat) :
  stp s s' -> results s' !! j <> results s !! j ->
  phases s !! j = Some Running /\ phases s' !! j = Some Stored.
Proof.
  intros [? index Hph _|? index tc Hph _|? index Hph]; cbn [results phases];
    [done| |done].
  intros Hne. destruct (decide (index = j)) as [->|Hij].
  - split; [done|]. apply list_lookup_insert_eq. by eapply lookup_lt_Some.
  - by rewrite list_lookup_insert_ne in Hne.
Qed.

(** With a gate of at least one slot every run can be carried on to
    the point where all goroutines have finished. *)
Lemma run_completes (s : RunState) :
  1 <= Parallel config -> reach s ->
  exists s', rtc stp s s' /\ all_finished s'.
Proof.
  intros HK. remember (steps_left s) as n eqn:Hn. revert s Hn.
  induction n as [n IH] using lt_wf_ind. intros s Hn Hreach.
  destruct (decide (all_finished s)) as [Hfin|Hnot].
  { exists s. split; [apply rtc_refl|done]. }
  destruct (step_progress s HK (reachable_inv s Hreach) Hnot) as [s1 Hstep].
  pose proof (step_steps_left s s1 Hstep) as Hless.
  destruct (IH (steps_left s1) ltac:(lia) s1 eq_refl) as (s' & Hrun & Hfin).
  { destruct Hreach as (s0 & Hinit & Hsteps). exists s0. split; [done|].
    by eapply rtc_r. }
  exists s'. split; [by eapply rtc_l|done].
Qed.

(** C3. For a list of N fixtures run with a parallelism of at least
    one, whatever the order in which the goroutines are scheduled and
    complete: the run can start, cannot block before every goroutine
    has finished, takes a number of steps that is fixed in advance and
    can always be carried on to its end; the result
    sequence always has length N; a slot is only ever written by the
    goroutine of the same index; and when all goroutines have finished
    [results[i]] is the execution result of fixture [i]. *)
Theorem runTests_results_ordered :
  1 <= Parallel config ->
  (exists s0, init = Some s0) /\
  forall s, reach s ->
    length (results s) = length testCases
    /\ (all_finished s ->
        (forall index tc, testCases !! index = Some tc ->
           results s !! index = Some (exec index tc))
        /\ results s = runTests_results config spawn executablePath testCases)
    /\ (forall s' j, stp s s' -> results s' !! j <> results s !! j ->
          phases s !! j = Some Running /\ phases s' !! j = Some Stored)
    /\ (~ all_finished s -> exists s', stp s s')
    /\ (forall s', stp s s' -> S (steps_left s') = steps_left s)
    /\ (steps_left s = 0%nat <-> all_finished s)
    /\ (exists s', rtc stp s s' /\ all_finished s').
Proof.
  intros HK. split.
  { unfold runTests_init. destruct (Z.ltb_spec (Parallel config) 0); [lia|].
    by eexists. }
  intros s Hreach. pose proof (reachable_inv s Hreach) as Hinv.
  split; [apply Hinv|]. split; [|split; [|split; [|split; [|split]]]].
  - intros Hfin. pose proof (finished_results s Hinv Hfin) as Hres.
    split; [done|]. apply list_eq. intros index.
    unfold runTests_results. rewrite list_lookup_imap.
    destruct (testCases !! index) as [tc|] eqn:Htc; cbn.
    + by apply Hres.
    + apply lookup_ge_None. apply lookup_ge_None in Htc.
      destruct Hinv as (_ & -> & _). done.
  - intros s' j. apply step_writes_own_slot.
  - by apply step_progress.
  - apply step_steps_left.
  - apply steps_left_zero.
  - by apply run_completes.
Qed.

Lemma running_le_holding (s : RunState) : (running_count s <= holding_count s)%nat.
Proof. apply filter_length_le. auto. Qed.

(** C7. In every state of a run with configured parallelism K the
    number of child processes that exist is at most K. A goroutine only
    starts its child after it has taken a slot of the gate, which it
    can do only while fewer than K slots are taken; and whatever the
    outcome of its child (also an error or a timeout), it goes on to
    store its result and give the slot back, so that no slot is held
    when all goroutines have finished. *)
Theorem admission_gate_bound (s : RunState) :
  reach s ->
  Z.of_nat (running_count s) <= Parallel config
  /\ semaphore s = holding_count s
  /\ (forall s' index, stp s s' -> phases s' !! index = Some Running ->
        phases s !! index = Some Running
        \/ (phases s !! index = Some Pending
            /\ Z.of_nat (semaphore s) < Parallel config
            /\ semaphore s' = S (semaphore s)))
  /\ (forall index, phases s !! index = Some Running ->
        exists s1 s2, stp s s1 /\ stp s1 s2
                      /\ phases s2 !! index = Some Finished
                      /\ semaphore s2 = pred (semaphore s))
  /\ (all_finished s -> semaphore s = 0%nat).
Proof.
  intros Hreach. pose proof (reachable_inv s Hreach) as Hinv.
  destruct Hinv as (Hp & Hr & Hsem & Hcap & Hres).
  pose proof (running_le_holding s) as Hle.
  split; [lia|]. split; [done|]. split; [|split].
  - intros s' index Hstep Hrun.
    destruct Hstep as [? j Hph Hlt|? j tc Hph Htc|? j Hph]; cbn [phases semaphore] in *.
    + destruct (decide (j = index)) as [->|Hne]; [by right|].
      left. by rewrite list_lookup_insert_ne in Hrun.
    + destruct (decide (j = index)) as [->|Hne].
      * rewrite list_lookup_insert_eq in Hrun by (by eapply lookup_lt_Some). done.
      * left. by rewrite list_lookup_insert_ne in Hrun.
    + destruct (decide (j = index)) as [->|Hne].
      * rewrite list_lookup_insert_eq in Hrun by (by eapply lookup_lt_Some). done.
      * left. by rewrite list_lookup_insert_ne in Hrun.
  - intros index Hph.
    destruct (lookup_lt_is_Some_2 testCases index) as [tc Htc].
    { rewrite <- Hp. by eapply lookup_lt_Some. }
    eexists _, _. split; [by eapply step_execute|].
    split; [eapply step_release|]; cbn [phases semaphore].
    + apply list_lookup_insert_eq. by eapply lookup_lt_Some.
    + split; [|done]. apply list_lookup_insert_eq.
      rewrite length_insert. by eapply lookup_lt_Some.
  - intros Hfin. rewrite Hsem. unfold holding_count.
    rewrite filter_Forall_not; [done|].
    eapply Forall_impl; [exact Hfin|]. intros p -> [|]; done.
Qed.

Lemma numbering_differs (l : list TestCase) (k : nat) :
  Number <$> l <> (fun i => Z.of_nat i + 1) <$> seq k (length l) ->
  exists index tc, l !! index = Some tc /\ Number tc <> Z.of_nat (k + index) + 1.
Proof.
  revert k. induction l as [|tc l IH]; intros k Hne; [done|].
  destruct (decide (Number tc = Z.of_nat k + 1)) as [Heq|Hd].
  - destruct (IH (S k)) as (index & tc' & Hl & Hn).
    { intros Hl. apply Hne. cbn. by rewrite Heq, Hl. }
    exists (S index), tc'. split; [done|].
    by replace (k + S index)%nat with (S k + index)%nat by lia.
  - exists 0%nat, tc. split; [done|]. by rewrite Nat.add_0_r.
Qed.

(** C9. When a run has finished, the test number recorded in the
    result of the fixture at position [index] is [index + 1], while the
    input and expected file paths of the same result are built from the
    fixture's ordinal [Number]; so whenever the ordinals of the
    fixtures are not exactly 1..N in sequence order, some result
    reports a test number that differs from the ordinal in its file
    names. *)
Theorem reported_number_vs_ordinal (s : RunState) :
  reach s -> all_finished s ->
  (forall index tc, testCases !! index = Some tc ->
     exists r, results s !! index = Some r
       /\ TestNumber r = Z.of_nat index + 1
       /\ InputFile r =
            filepath_Join go [CacheDir config; ProblemID config;
                           strconv.Itoa (Number tc) ++ str ".in"]
       /\ ExpectedFile r =
            filepath_Join go [CacheDir config; ProblemID config;
                           strconv.Itoa (Number tc) ++ str ".out"])
  /\ (Number <$> testCases <>
        (fun i => Z.of_nat i + 1) <$> seq 0 (length testCases) ->
      exists index tc r,
        testCases !! index = Some tc /\ results s !! index = Some r
        /\ TestNumber r <> Number tc
        /\ InputFile r =
             filepath_Join go [CacheDir config; ProblemID config;
                            strconv.Itoa (Number tc) ++ str ".in"]).
Proof.
  intros Hreach Hfin. pose proof (reachable_inv s Hreach) as Hinv.
  pose proof (finished_results s Hinv Hfin) as Hres. split.
  - intros index tc Htc. eexists. split; [by apply Hres|].
    by rewrite Execute_TestNumber, Execute_InputFile, Execute_ExpectedFile.
  - intros Hne. apply numbering_differs in Hne as (index & tc & Htc & Hn).
    exists index, tc, (exec index tc). split; [done|]. split; [by apply Hres|].
    rewrite Execute_TestNumber, Execute_InputFile. split; [|done].
    intros Heq. apply Hn. simpl. lia.
Qed.

End RunTestsFacts.


(** ** Properties of the session authenticator *)

Lemma validateLoginResponse_200 (resp : Response) :
  StatusCode resp = 200 ->
  strings.Contains (Location resp) (str "/login") = false ->
  validateLoginResponse resp =
    match BodyError resp with
    | None => if failure_marker (Body resp) then Some invalidCredentials else None
    | Some _ => None
    end.
Proof.
  intros Hs Hl. unfold validateLoginResponse, failure_marker.
  rewrite Hs, Hl. by destruct (is_empty (Location resp)).
Qed.

(** C10 (amended). For every login response with status 200, no
    Location header containing "/login" and a body that is read without
    error, [validateLoginResponse] returns the invalid-credentials error
    if and only if the body contains "Invalid username or password",
    "Login failed" or "error"; so a 200 page that contains the bare
    substring "error" anywhere is rejected. When reading the body
    fails, the response passes the validation whatever was read. *)
Theorem validateLoginResponse_markers (resp : Response) :
  StatusCode resp = 200 ->
  strings.Contains (Location resp) (str "/login") = false ->
  (BodyError resp = None ->
     (validateLoginResponse resp = Some invalidCredentials <->
        strings.Contains (Body resp) (str "Invalid username or password") = true
        \/ strings.Contains (Body resp) (str "Login failed") = true
        \/ strings.Contains (Body resp) (str "error") = true)
     /\ (validateLoginResponse resp = None <-> failure_marker (Body resp) = false))
  /\ (BodyError resp <> None -> validateLoginResponse resp = None).
Proof.
  intros Hs Hl. rewrite (validateLoginResponse_200 resp Hs Hl). split.
  - intros ->. unfold failure_marker.
    destruct (strings.Contains (Body resp) (str "Invalid username or password")),
      (strings.Contains (Body resp) (str "Login failed")),
      (strings.Contains (Body resp) (str "error")); cbn; intuition (auto; discriminate).
  - by destruct (BodyError resp).
Qed.

Lemma session_valid_age (now : Z) (sd : SessionData) :
  session_valid now (Some sd) =
    (time.Since now (CreatedAt sd) <=? 24 * time.Hour)
    && negb (is_empty (PHPSessionID sd)) && negb (is_empty (CSRFToken sd)).
Proof.
  unfold session_valid.
  destruct (Z.ltb_spec (24 * time.Hour) (time.Since now (CreatedAt sd)));
    destruct (Z.leb_spec (time.Since now (CreatedAt sd)) (24 * time.Hour));
    try lia; done.
Qed.

Section PipelineFacts.

Variable w : World.
Variable config : Config.

Lemma HasValidSession_run (s : ProgState) :
  HasValidSession w s = (session_valid (clock w) (sessionData s), s).
Proof. reflexivity. Qed.

Lemma EnsureAuthenticated_unfold (s : ProgState) :
  EnsureAuthenticated w config s =
    let '(err, s1) := LoadSession w config s in
    if bool_decide (err = None) && session_valid (clock w) (sessionData s1) then
      let '(probe, s2) := TestSession w s1 in
      if bool_decide (probe = None) then (None, s2) else Login w config s2
    else Login w config s1.
Proof.
  unfold EnsureAuthenticated, bind.
  destruct (LoadSession w config s) as [err s1].
  case_bool_decide; cbn [andb].
  - rewrite HasValidSession_run.
    destruct (session_valid _ _); [|done].
    destruct (TestSession w s1) as [probe s2]. by case_bool_decide.
  - done.
Qed.

(** A response that fails the validation makes [Login] fail, and no
    session is stored. *)
Lemma Login_validation_failed (s s1 s2 s3 : ProgState)
    (username password csrfToken phpSessionID : gostring)
    (resp : Response) (e : gostring) :
  GetCredentials w s = ((username, password, None), s1) ->
  FetchLoginPage w s1 = ((csrfToken, phpSessionID, None), s2) ->
  client_Do w {| Method := str "POST"; URL := str "https://cses.fi/login";
                 Headers := loginHeaders phpSessionID;
                 Form := [(str "csrf_token", csrfToken); (str "nick", username);
                          (str "pass", password)] |} s2 = (Ok resp, s3) ->
  validateLoginResponse resp = Some e ->
  Login w config s = (Some (wrap "login validation failed" e), s3)
  /\ sessionData s3 = sessionData s2.
Proof.
  intros Hcred Hpage Hpost Hval. unfold Login, bind.
  rewrite Hcred, Hpage, Hpost, Hval. split; [done|].
  unfold client_Do, bind, emit, ret in Hpost. by injection Hpost as _ <-.
Qed.

(** C5 (amended). The freshness boundary is inclusive: a session whose
    age is exactly 24 hours is still valid when its identifier and token
    are non-empty, so [HasValidSession] returns true for it and
    [EnsureAuthenticated] probes it, returning without a login when the
    probe succeeds. A session older than 24 hours is invalid:
    [HasValidSession] returns false and [EnsureAuthenticated] falls
    through to a full re-login. *)
Theorem session_freshness_boundary (s s1 : ProgState) (sd : SessionData) :
  LoadSession w config s = (None, s1) ->
  sessionData s1 = Some sd ->
  let age := time.Since (clock w) (CreatedAt sd) in
  (age = 24 * time.Hour ->
     fst (HasValidSession w s1) =
       negb (is_empty (PHPSessionID sd)) && negb (is_empty (CSRFToken sd))
     /\ (PHPSessionID sd <> [] -> CSRFToken sd <> [] ->
         forall s2, TestSession w s1 = (None, s2) ->
           EnsureAuthenticated w config s = (None, s2)))
  /\ (24 * time.Hour < age ->
        fst (HasValidSession w s1) = false
        /\ EnsureAuthenticated w config s = Login w config s1).
Proof.
  intros Hload Hsd age. rewrite EnsureAuthenticated_unfold, Hload.
  rewrite HasValidSession_run, Hsd, session_valid_age. fold age. cbn [fst].
  split.
  - intros Hage. rewrite Hage, Z.leb_refl. split; [done|].
    intros Hid Htok s2 Hprobe. rewrite Hprobe.
    destruct (PHPSessionID sd); [done|]. destruct (CSRFToken sd); done.
  - intros Hage. destruct (Z.leb_spec age (24 * time.Hour)); [lia|]. done.
Qed.

(** ** Properties of the fetcher *)

Lemma extends_refl (s : ProgState) : extends_by_cache_reads s s.
Proof. split; [done|]. exists []. by rewrite app_nil_r. Qed.

Lemma extends_trans (s1 s2 s3 : ProgState) :
  extends_by_cache_reads s1 s2 -> extends_by_cache_reads s2 s3 ->
  extends_by_cache_reads s1 s3.
Proof.
  intros [Hs1 (r1 & He1 & Hr1)] [Hs2 (r2 & He2 & Hr2)]. split; [congruence|].
  exists (r1 ++ r2). rewrite He2, He1, app_assoc. split; [done|].
  by apply Forall_app.
Qed.

Lemma os_ReadFile_extends (name : gostring) (s : ProgState) :
  extends_by_cache_reads s (snd (os_ReadFile w name s)).
Proof. split; [done|]. exists [EvReadFile name]. split; [done|]. by repeat constructor. Qed.

Lemma os_ReadDir_extends (name : gostring) (s : ProgState) :
  extends_by_cache_reads s (snd (os_ReadDir w name s)).
Proof. split; [done|]. exists [EvReadDir name]. split; [done|]. by repeat constructor. Qed.

Lemma loadCached_loop_extends cacheDir files testCases (s : ProgState) :
  extends_by_cache_reads s (snd (loadCached_loop w cacheDir files testCases s)).
Proof.
  revert testCases s. induction files as [|name files IH]; intros testCases s.
  { apply extends_refl. }
  cbn [loadCached_loop]. destruct (strings.HasSuffix name (str ".in")); [|apply IH].
  unfold bind.
  pose proof (os_ReadFile_extends (filepath_Join go [cacheDir; name]) s) as H1.
  destruct (os_ReadFile w (filepath_Join go [cacheDir; name]) s) as [[input|e] s1];
    cbn [snd] in H1; [|eapply extends_trans; [exact H1|apply IH]].
  match goal with
  | |- context [os_ReadFile w ?p s1] =>
      pose proof (os_ReadFile_extends p s1) as H2;
      destruct (os_ReadFile w p s1) as [[output|e] s2]
  end; cbn [snd] in H2;
    (eapply extends_trans; [exact H1|]; eapply extends_trans; [exact H2|apply IH]).
Qed.

Lemma loadCachedTestCases_extends cacheDir (s : ProgState) :
  extends_by_cache_reads s (snd (loadCachedTestCases w cacheDir s)).
Proof.
  unfold loadCachedTestCases, bind.
  pose proof (os_ReadDir_extends cacheDir s) as H1.
  destruct (os_ReadDir w cacheDir s) as [[files|e] s1]; cbn [snd] in *; [|done].
  pose proof (loadCached_loop_extends cacheDir files [] s1) as H2.
  destruct (loadCached_loop w cacheDir files [] s1) as [tcs s2]; cbn [snd] in *.
  by eapply extends_trans.
Qed.

(** C6. When the cache read for a problem yields at least one complete
    fixture pair, [FetchTestCases] returns exactly the cached fixtures,
    and all it has done is to read the cache directory and its files:
    no session file, no authentication, no request to the judge. Only
    when the cache read fails or yields no fixture does it go on, from
    the state the cache read left, to [EnsureAuthenticated] and, if that
    succeeds, to the download. *)
Theorem FetchTestCases_cache_authority (problemID : gostring)
    (s s1 : ProgState) (cached : list TestCase) (err : error) :
  let cacheDir := filepath_Join go [CacheDir config; problemID] in
  loadCachedTestCases w cacheDir s = ((cached, err), s1) ->
  (sessionData s1 = sessionData s /\
   exists reads, events s1 = events s ++ reads
                 /\ Forall (fun e => cache_read_event e = true) reads)
  /\ (err = None -> cached <> [] ->
      FetchTestCases w config problemID s = ((cached, None), s1))
  /\ (err <> None \/ cached = [] ->
      FetchTestCases w config problemID s =
        (let '((testCases, ferr), s2) := fetchFromCSES w config problemID s1 in
         match ferr with
         | Some e => (([], Some (wrap "failed to fetch from CSES" e)), s2)
         | None =>
             let '(_, s3) := cacheTestCases w cacheDir testCases s2 in
             ((testCases, None), s3)
         end)
      /\ fetchFromCSES w config problemID s1 =
           (let '(aerr, s2) := EnsureAuthenticated w config s1 in
            match aerr with
            | Some e => (([], Some (wrap "authentication required" e)), s2)
            | None =>
                let '((zipData, derr), s3) := DownloadTestCases w problemID s2 in
                match derr with
                | Some e =>
                    (([], Some (wrap "failed to download test cases" e)), s3)
                | None => (extractTestCasesFromZip zipData, s3)
                end
            end)).
Proof.
  intros cacheDir Hload.
  pose proof (loadCachedTestCases_extends cacheDir s) as Hext.
  rewrite Hload in Hext. split; [exact Hext|].
  unfold FetchTestCases, bind. fold cacheDir. rewrite Hload.
  split.
  - intros -> Hne. rewrite bool_decide_eq_true_2 by done.
    destruct cached; [done|]. done.
  - intros Hmiss.
    assert (bool_decide (err = None) && (0 <? Z.of_nat (length cached)) = false)
      as ->.
    { destruct Hmiss as [Hmiss| ->]; [|by rewrite andb_false_r].
      by rewrite bool_decide_eq_false_2. }
    split.
    + destruct (fetchFromCSES w config problemID s1) as [[testCases [e|]] s2];
        [done|].
      by destruct (cacheTestCases w cacheDir testCases s2).
    + unfold fetchFromCSES, bind.
      destruct (EnsureAuthenticated w config s1) as [[e|] s2]; [done|].
      destruct (DownloadTestCases w problemID s2) as [[zipData [e|]] s3]; done.
Qed.


Lemma match_pairs_omap (inputs outputs : gmap Z gostring) (keys : list Z) (testCases : list TestCase) :
  match_pairs inputs outputs keys testCases =
  testCases ++ omap (fixture_of inputs outputs) keys.
Proof.
  revert testCases. induction keys as [|testNum keys IH]; intros testCases; simpl.
  { by rewrite app_nil_r. }
  unfold fixture_of at 1. destruct (outputs !! testNum) as [output|].
  - rewrite IH, <- app_assoc. reflexivity.
  - apply IH.
Qed.

Lemma fixture_of_Some (inputs outputs : gmap Z gostring) (testNum : Z) (tc : TestCase) :
  fixture_of inputs outputs testNum = Some tc ->
  Number tc = testNum /\ outputs !! testNum = Some (Expected tc)
  /\ Input tc = default [] (inputs !! testNum).
Proof.
  unfold fixture_of. destruct (outputs !! testNum); [|done].
  by intros [= <-].
Qed.

Lemma omap_fixture_numbers (inputs outputs : gmap Z gostring) (keys : list Z) :
  Number <$> omap (fixture_of inputs outputs) keys =
  filter (fun n => is_Some (outputs !! n)) keys.
Proof.
  induction keys as [|n keys IH]; [done|]. rewrite filter_cons. simpl.
  unfold fixture_of at 1. destruct (outputs !! n) as [output|] eqn:Hn.
  - rewrite decide_True by done. simpl. f_equal. exact IH.
  - rewrite decide_False by (by intros [? ?]). exact IH.
Qed.

Lemma extractTestCasesFromZip_Ok (zipData : gostring) (files : list ZipEntry)
    inputs outputs :
  zip_NewReader go zipData = Ok files ->
  zip_maps files = (inputs, outputs) ->
  let testCases := omap (fixture_of inputs outputs) (map_range go inputs) in
  extractTestCasesFromZip zipData =
    if decide (testCases = []) then
      ([], Some (str "no valid test cases found in zip file"))
    else (testCases, None).
Proof.
  intros Hzip Hmaps. unfold extractTestCasesFromZip. rewrite Hzip, Hmaps.
  rewrite match_pairs_omap. cbn [app].
  destruct (omap _ _) as [|tc tcs]; done.
Qed.

(** The ordinals of the extracted fixtures are the keys that the loop
    over the input map visits and that the output map has, in the
    order of the visit. *)
Lemma matched_numbers (inputs outputs : gmap Z gostring) (keys : list Z) :
  keys ≡ₚ (map_to_list inputs).*1 ->
  let numbers := filter (fun n => is_Some (outputs !! n)) keys in
  NoDup numbers
  /\ (forall n, n ∈ numbers <-> n ∈ dom inputs ∩ dom outputs)
  /\ length numbers = size (dom inputs ∩ dom outputs).
Proof.
  intros Hperm numbers.
  assert (Hnd : NoDup numbers).
  { apply NoDup_filter. rewrite Hperm. apply NoDup_fst_map_to_list. }
  assert (Hin : forall n, n ∈ numbers <-> n ∈ dom inputs ∩ dom outputs).
  { intros n. unfold numbers. rewrite list_elem_of_filter, Hperm.
    rewrite elem_of_intersection, !elem_of_dom.
    rewrite list_elem_of_fmap. split.
    - intros [Ho ([k v] & -> & Hkv)]. apply elem_of_map_to_list in Hkv.
      split; [by eexists|done].
    - intros [[v Hv] Ho]. split; [done|]. exists (n, v).
      split; [done|]. by apply elem_of_map_to_list. }
  split; [done|]. split; [done|].
  unfold size, set_size. cbn. apply Permutation_length.
  apply NoDup_Permutation; [done|apply NoDup_elements|].
  intros n. by rewrite Hin, elem_of_elements.
Qed.

(** C2. Parsing an archive emits exactly one fixture for every ordinal
    that is present in both the input map and the output map, built
    from the two entries of that ordinal; an ordinal present in only
    one map is dropped without an error; and an archive with no matched
    ordinal (also one that cannot be read as an archive) is an error of
    the fetch. *)
Theorem extractTestCasesFromZip_matched (zipData : gostring) :
  range_visits_keys go ->
  match zip_NewReader go zipData with
  | Fail e =>
      extractTestCasesFromZip zipData = ([], Some (wrap "failed to read zip file" e))
  | Ok files =>
      let inputs := fst (zip_maps files) in
      let outputs := snd (zip_maps files) in
      let matched := dom inputs ∩ dom outputs in
      (matched = ∅ ->
         extractTestCasesFromZip zipData =
           ([], Some (str "no valid test cases found in zip file")))
      /\ (matched <> ∅ ->
          exists testCases,
            extractTestCasesFromZip zipData = (testCases, None)
            /\ length testCases = size matched
            /\ NoDup (Number <$> testCases)
            /\ (forall n, n ∈ (Number <$> testCases) <-> n ∈ matched)
            /\ (forall tc, tc ∈ testCases ->
                  inputs !! Number tc = Some (Input tc)
                  /\ outputs !! Number tc = Some (Expected tc)))
  end.
Proof.
  intros Hrange.
  destruct (zip_NewReader go zipData) as [files|e] eqn:Hzip.
  2: { unfold extractTestCasesFromZip. by rewrite Hzip. }
  intros inputs outputs matched.
  rewrite (extractTestCasesFromZip_Ok zipData files inputs outputs Hzip)
    by (subst inputs outputs; by destruct (zip_maps files)).
  cbn zeta.
  destruct (matched_numbers inputs outputs (map_range go inputs) (Hrange inputs))
    as (Hnd & Hin & Hlen).
  cbn zeta in Hnd, Hin, Hlen.
  rewrite <- (omap_fixture_numbers inputs) in Hnd, Hin, Hlen.
  rewrite length_fmap in Hlen. fold matched in Hin, Hlen.
  split.
  - intros Hempty. rewrite Hempty, size_empty in Hlen.
    apply nil_length_inv in Hlen. by rewrite decide_True.
  - intros Hne. rewrite decide_False.
    2: { intros Hnil. rewrite Hnil in Hlen. cbn in Hlen.
         symmetry in Hlen. apply size_empty_inv in Hlen.
         apply Hne. by apply leibniz_equiv. }
    eexists. split; [done|]. split; [done|]. split; [done|]. split; [done|].
    intros tc (n & Hn & Hfix)%list_elem_of_omap.
    apply fixture_of_Some in Hfix as (Hnum & Hout & Hinp).
    rewrite Hnum. split; [|done]. rewrite Hinp.
    assert (n ∈ matched) as Hm.
    { apply Hin. apply list_elem_of_fmap. exists tc. split; [done|].
      apply list_elem_of_omap. exists n. split; [done|].
      unfold fixture_of. rewrite Hout. f_equal. destruct tc; cbn in *.
      by subst. }
    apply elem_of_intersection in Hm as [[v Hv]%elem_of_dom _].
    by rewrite Hv.
Qed.


Lemma StronglySorted_sublist {A : Type} (R : A -> A -> Prop) (l k : list A) :
  l `sublist_of` k -> StronglySorted R k -> StronglySorted R l.
Proof.
  induction 1 as [|x l k Hlk IH|x l k Hlk IH]; intros Hk; [done|..];
    apply StronglySorted_inv in Hk as [Hk Hx].
  - constructor; [by apply IH|].
    apply Forall_forall. intros y Hy.
    eapply (proj1 (Forall_forall _ _) Hx). by eapply elem_of_sublist.
  - by apply IH.
Qed.

(** The cached fixtures come in the order in which their input files
    stand in the directory listing. *)
Lemma loadCached_loop_order cacheDir (files : list gostring)
    (testCases : list TestCase) (s : ProgState) :
  exists stems loaded,
    fst (loadCached_loop w cacheDir files testCases s) = testCases ++ loaded
    /\ Number <$> loaded = (fun stem => fst (strconv.Atoi stem)) <$> stems
    /\ in_file <$> stems `sublist_of` files.
Proof.
  revert testCases s. induction files as [|name files IH]; intros testCases s.
  { exists [], []. by rewrite app_nil_r. }
  cbn [loadCached_loop].
  assert (Hskip : forall s', exists stems loaded,
    fst (loadCached_loop w cacheDir files testCases s') = testCases ++ loaded
    /\ Number <$> loaded = (fun stem => fst (strconv.Atoi stem)) <$> stems
    /\ in_file <$> stems `sublist_of` name :: files).
  { intros s'. destruct (IH testCases s') as (stems & loaded & H1 & H2 & H3).
    exists stems, loaded. split; [done|]. split; [done|]. by apply sublist_cons. }
  destruct (strings.HasSuffix name (str ".in")) eqn:Hsuf; [|apply Hskip].
  unfold bind.
  destruct (os_ReadFile w (filepath_Join go [cacheDir; name]) s) as [[input|e] s1];
    [|apply Hskip].
  match goal with
  | |- context [os_ReadFile w ?p s1] =>
      destruct (os_ReadFile w p s1) as [[output|e] s2]
  end; [|apply Hskip].
  set (stem := strings.TrimSuffix name (str ".in")).
  destruct (IH (testCases ++ [{| Input := input; Expected := output;
                                 Number := fst (strconv.Atoi stem) |}]) s2)
    as (stems & loaded & H1 & H2 & H3).
  exists (stem :: stems), ({| Input := input; Expected := output;
                              Number := fst (strconv.Atoi stem) |} :: loaded).
  split; [by rewrite H1, <- app_assoc|]. split; [cbn; by rewrite H2|].
  cbn [fmap list_fmap]. unfold in_file at 1. subst stem.
  rewrite (TrimSuffix_app name (str ".in") Hsuf). by apply sublist_skip.
Qed.

(** What [FetchTestCases] returns is what the cache read returned, or
    what the archive parser returned, or an error. *)
Lemma FetchTestCases_source (problemID : gostring) (s : ProgState) :
  let r := fst (FetchTestCases w config problemID s) in
  r = fst (loadCachedTestCases w (filepath_Join go [CacheDir config; problemID]) s)
  \/ (exists zipData, r = extractTestCasesFromZip zipData /\ snd r = None)
  \/ (fst r = [] /\ snd r <> None).
Proof.
  cbn zeta. unfold FetchTestCases, bind.
  destruct (loadCachedTestCases w _ s) as [[cached err] s1]. cbn [fst].
  destruct (bool_decide (err = None) && _) eqn:Hhit.
  { left. apply andb_true_iff in Hhit as [Herr%bool_decide_eq_true _].
    by rewrite Herr. }
  right. unfold fetchFromCSES, bind.
  destruct (EnsureAuthenticated w config s1) as [[e|] s2]; [by right|].
  destruct (DownloadTestCases w problemID s2) as [[zipData [e|]] s3]; [by right|].
  destruct (extractTestCasesFromZip zipData) as [testCases [e|]] eqn:Hex;
    [by right|].
  left. exists zipData. rewrite Hex. unfold ret. cbv beta iota.
  by destruct (cacheTestCases w (filepath_Join go [CacheDir config; problemID])
                 testCases s3).
Qed.

(** C4 (amended). [FetchTestCases] does not sort: it returns the
    fixtures as the cache read or the archive parser gives them. On the
    cache-hit path the fixtures come in the order in which their input
    files stand in the directory listing, which is sorted by file name
    (so "10.in" stands before "2.in"); on the remote-fetch path they
    come in the order in which the [range] loop visits the keys of the
    input map, which Go leaves unspecified. *)
Theorem fixtures_order :
  (forall (problemID : gostring) (s : ProgState),
     let r := fst (FetchTestCases w config problemID s) in
     r = fst (loadCachedTestCases w
                (filepath_Join go [CacheDir config; problemID]) s)
     \/ (exists zipData, r = extractTestCasesFromZip zipData /\ snd r = None)
     \/ (fst r = [] /\ snd r <> None))
  /\ (forall cacheDir (s : ProgState) (names : list gostring),
     read_dir w cacheDir = Ok names ->
     exists stems,
       Number <$> fst (fst (loadCachedTestCases w cacheDir s)) =
         (fun stem => fst (strconv.Atoi stem)) <$> stems
       /\ in_file <$> stems `sublist_of` names
       /\ (StronglySorted name_lt names ->
           StronglySorted name_lt (in_file <$> stems)))
  /\ (forall (zipData : gostring) (files : list ZipEntry)
             (testCases : list TestCase),
        zip_NewReader go zipData = Ok files ->
        extractTestCasesFromZip zipData = (testCases, None) ->
        Number <$> testCases =
          filter (fun n => is_Some (snd (zip_maps files) !! n))
                 (map_range go (fst (zip_maps files)))).
Proof.
  split; [exact FetchTestCases_source|]. split.
  - intros cacheDir s names Hdir. unfold loadCachedTestCases, bind, os_ReadDir.
    unfold bind, emit, ret. rewrite Hdir.
    match goal with
    | |- context [loadCached_loop w cacheDir names [] ?s1] =>
        destruct (loadCached_loop_order cacheDir names [] s1)
          as (stems & loaded & H1 & H2 & H3);
        destruct (loadCached_loop w cacheDir names [] s1) as [tcs s2]
    end.
    cbn [fst] in *. subst tcs. exists stems. split; [done|]. split; [done|].
    by apply StronglySorted_sublist.
  - intros zipData files testCases Hzip Hex.
    destruct (zip_maps files) as [inputs outputs] eqn:Hmaps. cbn [fst snd].
    rewrite (extractTestCasesFromZip_Ok zipData files inputs outputs Hzip Hmaps)
      in Hex.
    cbn zeta in Hex. destruct (decide _); [done|]. injection Hex as <-.
    apply omap_fixture_numbers.
Qed.


End PipelineFacts.

End CoreFacts.
Lemma sample_final_reachable :
  reachable sample_library sample_config sample_spawn (str "./a.out")
    sample_testCases sample_final.
Proof.
  eexists. split; [reflexivity|].
  eapply rtc_l; [apply (step_acquire _ _ _ _ _ _ 0%nat); [reflexivity|cbn; lia]|].
  eapply rtc_l; [eapply (step_execute _ _ _ _ _ _ 0%nat); reflexivity|].
  eapply rtc_l; [apply (step_release _ _ _ _ _ _ 0%nat); reflexivity|].
  eapply rtc_l; [apply (step_acquire _ _ _ _ _ _ 1%nat); [reflexivity|cbn; lia]|].
  eapply rtc_l; [eapply (step_execute _ _ _ _ _ _ 1%nat); reflexivity|].
  eapply rtc_l; [apply (step_release _ _ _ _ _ _ 1%nat); reflexivity|].
  apply rtc_refl.
Defined.

Lemma sample_all_finished : all_finished sample_final.
Proof. repeat constructor. Defined.

(** The sample run under C3: the gate has one slot, and the results of
    the finished run are those of the two fixtures, in their order. *)
Lemma runTests_results_ordered_witness :
  1 <= Parallel sample_config
  /\ results sample_final =
       runTests_results sample_library sample_config sample_spawn (str "./a.out")
         sample_testCases.
Proof.
  split; [vm_compute; discriminate|].
  apply (runTests_results_ordered sample_library sample_config sample_spawn
           (str "./a.out") sample_testCases).
  - vm_compute. discriminate.
  - exact sample_final_reachable.
  - exact sample_all_finished.
Defined.

(** The sample run under C7. *)
Lemma admission_gate_bound_witness :
  Z.of_nat (running_count sample_final) <= Parallel sample_config.
Proof.
  apply (admission_gate_bound sample_library sample_config sample_spawn
           (str "./a.out") sample_testCases sample_final).
  exact sample_final_reachable.
Defined.

(** The sample run under C9: its fixtures have the ordinals 10 and 2,
    and a result reports a test number that is not its ordinal. *)
Lemma reported_number_vs_ordinal_witness :
  exists index tc r,
    sample_testCases !! index = Some tc /\ results sample_final !! index = Some r
    /\ TestNumber r <> Number tc
    /\ InputFile r =
         filepath_Join sample_library
           [CacheDir sample_config; ProblemID sample_config;
            strconv.Itoa (Number tc) ++ str ".in"].
Proof.
  apply (reported_number_vs_ordinal sample_library sample_config sample_spawn
           (str "./a.out") sample_testCases sample_final).
  - exact sample_final_reachable.
  - exact sample_all_finished.
  - vm_compute. discriminate.
Defined.

Lemma sample_range_visits_keys : range_visits_keys sample_library.
Proof. intros m. reflexivity. Defined.

(** The archive with the inputs 1, 2, 3 and the outputs 1, 2 under C2:
    exactly two fixtures and no error. *)
Lemma extractTestCasesFromZip_matched_witness :
  range_visits_keys sample_library
  /\ exists testCases,
       extractTestCasesFromZip sample_library [] = (testCases, None)
       /\ length testCases = 2%nat.
Proof.
  split; [exact sample_range_visits_keys|].
  pose proof (extractTestCasesFromZip_matched sample_library []
                sample_range_visits_keys) as H.
  cbn [zip_NewReader sample_library] in H. destruct H as [_ H].
  assert (Hsize : size (dom (zip_maps sample_archive).1
                        ∩ dom (zip_maps sample_archive).2) = 2%nat)
    by (vm_compute; reflexivity).
  destruct H as (testCases & Hex & Hlen & _).
  - intros Hempty. rewrite Hempty in Hsize. vm_compute in Hsize. discriminate.
  - exists testCases. split; [exact Hex|]. by rewrite Hlen.
Defined.

(** The cache directory with the fixtures 2 and 10 under C6: the cache
    read is all that happens. *)
Lemma FetchTestCases_cache_authority_witness :
  exists cached s1,
    loadCachedTestCases sample_library cache_world (str "cache/1068") start_state
      = ((cached, None), s1)
    /\ FetchTestCases sample_library cache_world sample_config (str "1068")
         start_state = ((cached, None), s1)
    /\ Forall (fun e => cache_read_event e = true) (events s1).
Proof.
  pose (r := loadCachedTestCases sample_library cache_world (str "cache/1068")
               start_state).
  exists (fst (fst r)), (snd r).
  assert (Hload : loadCachedTestCases sample_library cache_world (str "cache/1068")
                    start_state = ((fst (fst r), None), snd r))
    by (vm_compute; reflexivity).
  split; [exact Hload|].
  destruct (FetchTestCases_cache_authority sample_library cache_world sample_config
              (str "1068") start_state (snd r) (fst (fst r)) None Hload)
    as (_ & Hhit & _).
  split.
  - apply Hhit; [reflexivity|]. vm_compute. discriminate.
  - vm_compute. repeat constructor.
Defined.

(** C4, counterexample. The cache directory lists "10.in" before
    "2.in", as a listing sorted by file name does, and [FetchTestCases]
    returns the fixture 10 before the fixture 2. On the remote path, a
    [range] loop that visits the key 2 before the key 1 gives the
    fixture 2 before the fixture 1. *)
Lemma fixtures_not_ascending :
  StronglySorted name_lt [str "10.in"; str "10.out"; str "2.in"; str "2.out"]
  /\ Number <$> fst (fst (FetchTestCases sample_library cache_world sample_config
                            (str "1068") start_state)) = [10; 2]
  /\ ~ ascending (fst (fst (FetchTestCases sample_library cache_world sample_config
                              (str "1068") start_state)))
  /\ Number <$> fst (extractTestCasesFromZip sample_library []) = [2; 1]
  /\ ~ ascending (fst (extractTestCasesFromZip sample_library [])).
Proof.
  assert (Hdesc : forall a b, b < a -> ~ Sorted Z.le [a; b]).
  { intros a b Hab Hs. apply Sorted_inv in Hs as [_ Hs].
    apply HdRel_inv in Hs. lia. }
  split; [repeat constructor|].
  split; [vm_compute; reflexivity|].
  split; [|split; [vm_compute; reflexivity|]]; unfold ascending.
  - replace (Number <$> _) with [10; 2] by (vm_compute; reflexivity).
    by apply Hdesc.
  - replace (Number <$> _) with [2; 1] by (vm_compute; reflexivity).
    by apply Hdesc.
Qed.

(** The same cache directory under the amended C4. *)
Lemma fixtures_order_witness :
  exists stems,
    Number <$> fst (fst (loadCachedTestCases sample_library cache_world
                           (str "cache/1068") start_state)) =
      (fun stem => fst (strconv.Atoi stem)) <$> stems
    /\ in_file <$> stems `sublist_of`
         [str "10.in"; str "10.out"; str "2.in"; str "2.out"].
Proof.
  destruct (proj1 (proj2 (fixtures_order sample_library cache_world sample_config))
              (str "cache/1068") start_state
              [str "10.in"; str "10.out"; str "2.in"; str "2.out"])
    as (stems & H1 & H2 & _); [vm_compute; reflexivity|].
  by exists stems.
Defined.

(** C5, counterexample. The stored session was created at instant 0
    and the clock reads 24 hours: the session is exactly at the edge of
    the freshness window. [HasValidSession] returns true, and
    [EnsureAuthenticated] loads the session, sends the probe and
    returns: there is no request to the login page. *)
Lemma boundary_session_is_valid :
  time.Since (clock cache_world) (CreatedAt sample_session) = 24 * time.Hour
  /\ fst (HasValidSession cache_world
            {| sessionData := Some sample_session; events := [] |}) = true
  /\ fst (EnsureAuthenticated sample_library cache_world sample_config start_state)
       = None
  /\ events (snd (EnsureAuthenticated sample_library cache_world sample_config
                    start_state))
     = [ EvStat (str "cache/.auth/session.json");
         EvReadFile (str "cache/.auth/session.json");
         EvHttp {| Method := str "GET";
                   URL := str "https://cses.fi/problemset/stats";
                   Headers := [(str "Cookie", str "PHPSESSID=0f3a9c")];
                   Form := [] |} ].
Proof. vm_compute. repeat split; reflexivity. Qed.

(** The same session under the amended C5. *)
Lemma session_freshness_boundary_witness :
  fst (HasValidSession cache_world
         {| sessionData := Some sample_session;
            events := [EvStat (str "cache/.auth/session.json");
                       EvReadFile (str "cache/.auth/session.json")] |}) = true.
Proof.
  refine (proj1 (proj1 (session_freshness_boundary sample_library cache_world
                          sample_config start_state _ sample_session _ _) _)).
  - vm_compute. reflexivity.
  - reflexivity.
  - vm_compute. reflexivity.
Defined.

(** C10, counterexample. A response with status 200 and no Location
    header whose body contains "error" and "Login failed", but whose
    body could not be read to its end: it passes the validation. *)
Lemma unread_body_passes :
  StatusCode unread_response = 200
  /\ strings.Contains (Location unread_response) (str "/login") = false
  /\ strings.Contains (Body unread_response) (str "error") = true
  /\ validateLoginResponse unread_response = None.
Proof. vm_compute. repeat split; reflexivity. Qed.

(** A failed login page that is read to its end, under the amended C10. *)
Lemma validateLoginResponse_markers_witness :
  validateLoginResponse
    {| StatusCode := 200; Location := []; ContentType := str "text/html";
       Cookies := []; Body := str "<p>Login failed: internal error</p>";
       BodyError := None |} = Some invalidCredentials.
Proof.
  refine (proj2 (proj1 (proj1 (validateLoginResponse_markers _ _ _) _)) _).
  - reflexivity.
  - vm_compute. reflexivity.
  - reflexivity.
  - right. left. vm_compute. reflexivity.
Defined.


(** * Further properties of the code *)

(** ** Decimal numerals *)

Lemma str_String (c : ascii) (s : string) : str (String c s) = c :: str s.
Proof. reflexivity. Qed.

Lemma digits_value_uint_acc (d : Decimal.uint) (acc : positive) :
  strconv.digits_value (Z.pos acc) (str (NilEmpty.string_of_uint d))
  = Some (Z.pos (Pos.of_uint_acc d acc)).
Proof.
  revert acc. induction d; intros acc; cbn [NilEmpty.string_of_uint Pos.of_uint_acc];
    [reflexivity|rewrite str_String; cbn [strconv.digits_value];
      change (strconv.is_digit _) with true; cbv iota;
      rewrite <- IHd; f_equal; unfold b2z; cbn; lia..].
Qed.

Lemma digits_value_uint (d : Decimal.uint) :
  strconv.digits_value 0 (str (NilEmpty.string_of_uint d))
  = Some (Z.of_N (Pos.of_uint d)).
Proof.
  induction d; cbn [NilEmpty.string_of_uint Pos.of_uint];
    [reflexivity|rewrite str_String; cbn [strconv.digits_value];
      change (strconv.is_digit _) with true; cbv iota..].
  1: exact IHd.
  all: cbn [Z.of_N]; rewrite <- digits_value_uint_acc; reflexivity.
Qed.

(** The decimal numeral of a positive number: digits only, the first
    of which is not a sign. *)
Lemma uint_string_head (d : Decimal.uint) :
  d <> Decimal.Nil ->
  exists c t, str (NilEmpty.string_of_uint d) = c :: t
              /\ strconv.is_digit c = true.
Proof.
  destruct d; [done|..]; intros _; eexists _, _; (split; [apply str_String|reflexivity]).
Qed.

Lemma is_digit_not_sign (c : ascii) :
  strconv.is_digit c = true -> Ascii.eqb c "-" = false /\ Ascii.eqb c "+" = false.
Proof. destruct c as [[] [] [] [] [] [] [] []]; vm_compute; auto; discriminate. Qed.

Lemma Atoi_Itoa (n : Z) :
  - 2 ^ 63 <= n < 2 ^ 63 -> strconv.Atoi (strconv.Itoa n) = (n, true).
Proof.
  intros Hn. unfold strconv.Itoa. destruct n as [|p|p]; [reflexivity|..];
    cbn [Z.to_int NilZero.string_of_int];
    pose proof (Unsigned.to_uint_nonnil p) as Hnil;
    pose proof (DecimalPos.Unsigned.of_to p) as Hval;
    unfold NilZero.string_of_uint;
    destruct (uint_string_head (Pos.to_uint p) Hnil) as (c & t & Hs & Hc);
    pose proof (digits_value_uint (Pos.to_uint p)) as Hd;
    rewrite Hval in Hd; cbn [Z.of_N] in Hd.
  - replace (match Pos.to_uint p with Decimal.Nil => "0"%string | _ => NilEmpty.string_of_uint (Pos.to_uint p) end)
      with (NilEmpty.string_of_uint (Pos.to_uint p)) by (by destruct (Pos.to_uint p)).
    unfold strconv.Atoi. rewrite Hs. destruct (is_digit_not_sign c Hc) as [-> ->].
    rewrite <- Hs, Hd.
    destruct (Z.leb_spec (2 ^ 63) (Z.pos p)); [lia|]. reflexivity.
  - replace (match Pos.to_uint p with Decimal.Nil => "0"%string | _ => NilEmpty.string_of_uint (Pos.to_uint p) end)
      with (NilEmpty.string_of_uint (Pos.to_uint p)) by (by destruct (Pos.to_uint p)).
    rewrite str_String. unfold strconv.Atoi. cbn [Ascii.eqb Bool.eqb].
    change (Ascii.eqb "-" "-") with true. cbv iota.
    rewrite Hs, <- Hs, Hd. cbn [negb andb].
    destruct (Z.ltb_spec (2 ^ 63) (Z.pos p)); [lia|]. reflexivity.
Qed.

(** ** What the comparison of outputs ignores *)

Lemma at_line_end_trimLines (b : gostring) :
  at_line_end b = true -> at_line_end (trimLines b) = true.
Proof.
  destruct b as [|d b]; [done|]. cbn [at_line_end]. intros Hd.
  by rewrite trimLines_cons, Hd.
Qed.

Lemma lineBlanks_not_newline (c : ascii) :
  strings.byte_in lineBlanks c = true -> Ascii.eqb c newline = false.
Proof.
  unfold strings.byte_in, lineBlanks. cbn [existsb].
  rewrite !orb_true_iff, !Ascii.eqb_eq. by intros [->|[->|[->|?]]].
Qed.

Lemma trimLines_line_end_blank (a b : gostring) (c : ascii) :
  strings.byte_in lineBlanks c = true -> at_line_end b = true ->
  trimLines (a ++ c :: b) = trimLines (a ++ b).
Proof.
  intros Hc Hb. induction a as [|x a IH]; cbn [app].
  - rewrite trimLines_cons, (lineBlanks_not_newline c Hc), Hc.
    by rewrite (at_line_end_trimLines b Hb).
  - by rewrite !trimLines_cons, IH.
Qed.

Lemma trimLines_snoc_newline (a : gostring) :
  trimLines (a ++ [newline]) = trimLines a ++ [newline].
Proof.
  induction a as [|x a IH]; [done|]. cbn [app].
  rewrite !trimLines_cons, IH.
  destruct (Ascii.eqb x newline); [done|].
  assert (at_line_end (trimLines a ++ [newline]) = at_line_end (trimLines a)) as ->.
  { by destruct (trimLines a). }
  by destruct (_ && _).
Qed.

Lemma DecodeRune_size_le (s : gostring) :
  (snd (utf8.DecodeRuneInString s) <= length s)%nat.
Proof.
  destruct s as [|c0 [|c1 [|c2 [|c3 s]]]];
    unfold utf8.DecodeRuneInString;
    repeat match goal with
           | |- context [if ?b then _ else _] => destruct b
           end; simpl; lia.
Qed.

Lemma first_size (b : Z) :
  utf8.first b < 0xF0 -> 2 <= Z.land (utf8.first b) 7 <= 4.
Proof.
  unfold utf8.first.
  repeat match goal with
         | |- context [if ?c then _ else _] => destruct c
         end; vm_compute; intros H; (discriminate || (split; discriminate)).
Qed.

(** An ASCII byte put after a string does not change its first rune. *)
Lemma DecodeRune_snoc_ascii (r : gostring) (c : ascii) :
  r <> [] -> b2z c < utf8.RuneSelf ->
  utf8.DecodeRuneInString (r ++ [c]) = utf8.DecodeRuneInString r.
Proof.
  intros Hr Hc.
  destruct r as [|c0 r]; [congruence|].
  unfold utf8.DecodeRuneInString. rewrite <- app_comm_cons.
  set (x := utf8.first (b2z c0)).
  set (sz := Z.land x 7).
  destruct (Z.leb_spec 0xF0 x) as [|Hx]; [done|].
  destruct (acceptRanges_within (b2z c0) Hx) as [Hlo Hhi]. fold x in Hlo, Hhi.
  change (length (c0 :: r ++ [c])) with (S (length (r ++ [c]))).
  change (length (c0 :: r)) with (S (length r)).
  rewrite length_app. cbn [length].
  unfold utf8.RuneSelf in Hc.
  assert (Hc1 : (b2z c <? fst (utf8.acceptRanges (Z.shiftr x 4))) = true)
    by (apply Z.ltb_lt; lia).
  assert (Hc2 : (b2z c <? 0x80) = true) by (apply Z.ltb_lt; lia).
  destruct (Z.ltb_spec (Z.of_nat (S (length r + 1))) sz) as [Hlt|Hge].
  { destruct (Z.ltb_spec (Z.of_nat (S (length r))) sz); [done|lia]. }
  destruct r as [|c1 r]; cbn [app].
  { rewrite Hc1. cbn [orb]. by destruct (_ <? sz). }
  destruct (Z.ltb_spec (Z.of_nat (S (length (c1 :: r)))) sz) as [Hlt|Hge'].
  - destruct (_ || _); [done|].
    destruct (Z.leb_spec sz 2); [cbn [length] in *; lia|].
    destruct r as [|c2 r]; cbn [app].
    { rewrite Hc2. done. }
    destruct (_ || _); [done|].
    destruct (Z.leb_spec sz 3); [cbn [length] in *; lia|].
    destruct r as [|c3 r]; cbn [app].
    { rewrite Hc2. done. }
    pose proof (first_size (b2z c0) Hx) as Hsz. fold x in Hsz. fold sz in Hsz.
    cbn [length] in *. lia.
  - destruct (_ || _); [done|].
    destruct (sz <=? 2); [done|].
    destruct r as [|c2 r]; cbn [app].
    { rewrite Hc2. done. }
    destruct (_ || _); [done|].
    destruct (sz <=? 3); [done|].
    destruct r as [|c3 r]; cbn [app].
    { rewrite Hc2. done. }
    done.
Qed.

Lemma dropLeft_loop_nil fuel (f : Z -> bool) : dropLeft_loop fuel f [] = [].
Proof. by destruct fuel. Qed.

Lemma dropLeft_loop_snoc (f : Z -> bool) (c : ascii) fuel fuel' (t : gostring) :
  b2z c < utf8.RuneSelf -> f (b2z c) = true ->
  (length t <= fuel)%nat -> (length t + 1 <= fuel')%nat ->
  dropLeft_loop fuel' f (t ++ [c]) =
    match dropLeft_loop fuel f t with
    | [] => []
    | u => u ++ [c]
    end.
Proof.
  intros Hc Hf. revert fuel t.
  induction fuel' as [|fuel' IH]; intros fuel t Hfuel Hfuel'; [lia|].
  destruct t as [|x t].
  { rewrite dropLeft_loop_nil. cbn [app dropLeft_loop].
    rewrite (DecodeRune_ascii c [] Hc), Hf. cbn [drop]. apply dropLeft_loop_nil. }
  destruct fuel as [|fuel]; [cbn [length] in Hfuel; lia|].
  cbn [app dropLeft_loop].
  change (x :: t ++ [c]) with ((x :: t) ++ [c]).
  rewrite (DecodeRune_snoc_ascii (x :: t) c) by done.
  pose proof (DecodeRune_size_pos (x :: t) ltac:(done)) as Hpos.
  pose proof (DecodeRune_size_le (x :: t)) as Hle.
  destruct (utf8.DecodeRuneInString (x :: t)) as [r size]. cbn [snd] in *.
  destruct (f r); [|done].
  rewrite drop_app_le by done.
  apply IH; rewrite length_drop; cbn [length] in *; lia.
Qed.

Lemma dropBoth_snoc_space (t : gostring) (c : ascii) :
  b2z c < utf8.RuneSelf -> unicode.IsSpace (b2z c) = true ->
  dropBoth (t ++ [c]) unicode.IsSpace = dropBoth t unicode.IsSpace.
Proof.
  intros Hc Hsp. unfold dropBoth, dropLeft.
  rewrite (dropLeft_loop_snoc unicode.IsSpace c (length t)) by
    (rewrite ?length_app; cbn [length]; done || lia).
  destruct (dropLeft_loop (length t) unicode.IsSpace t) as [|d u]; [done|].
  by rewrite (dropRight_snoc (d :: u) c Hc), Hsp.
Qed.

Lemma TrimSpace_cons_space (c : ascii) (s : gostring) :
  strings.asciiSpace c = true -> strings.TrimSpace (c :: s) = strings.TrimSpace s.
Proof.
  intros Hc. cbn [strings.TrimSpace]. rewrite Hc.
  destruct (Z.leb_spec utf8.RuneSelf (b2z c)) as [Hhigh|]; [|done].
  exfalso. revert Hc Hhigh. clear.
  destruct c as [[] [] [] [] [] [] [] []]; vm_compute; congruence.
Qed.

Lemma asciiSpace_inv (c : ascii) :
  strings.asciiSpace c = true ->
  b2z c < utf8.RuneSelf /\ unicode.IsSpace (b2z c) = true.
Proof. destruct c as [[] [] [] [] [] [] [] []]; vm_compute; try discriminate; auto. Qed.

Lemma TrimSpace_snoc_space (s : gostring) (c : ascii) :
  strings.asciiSpace c = true -> strings.TrimSpace (s ++ [c]) = strings.TrimSpace s.
Proof.
  intros [Hc Hsp]%asciiSpace_inv. rewrite !TrimSpace_dropBoth.
  by apply dropBoth_snoc_space.
Qed.

(** X1. Blanks at the end of a line do not count: a space, a tab or a
    carriage return that stands directly before a newline or at the end
    of the text can be removed without changing what [normalizeOutput]
    returns. In particular a text with CR LF line ends has the normal
    form of the same text with LF line ends. *)
Theorem normalizeOutput_line_end_blank (a b : gostring) (c : ascii) :
  strings.byte_in lineBlanks c = true ->
  at_line_end b = true ->
  normalizeOutput (a ++ c :: b) = normalizeOutput (a ++ b).
Proof.
  intros Hc Hb. rewrite !normalizeOutput_unfold.
  by rewrite (trimLines_line_end_blank a b c Hc Hb).
Qed.

(** X2. White space around the whole text does not count: an ASCII
    white-space byte in front of the text and a newline after it leave
    what [normalizeOutput] returns as it is, so [compareOutputs] judges
    an output with and without them the same. *)
Theorem normalizeOutput_outer_space (x : gostring) (c : ascii) :
  strings.asciiSpace c = true ->
  normalizeOutput (c :: x) = normalizeOutput x
  /\ normalizeOutput (x ++ [newline]) = normalizeOutput x
  /\ compareOutputs (c :: x ++ [newline]) x = true.
Proof.
  intros Hc.
  assert (H1 : forall y, normalizeOutput (c :: y) = normalizeOutput y).
  { intros y. rewrite !normalizeOutput_unfold, trimLines_cons.
    destruct (Ascii.eqb_spec c newline) as [->|_];
      [by apply TrimSpace_cons_space|].
    destruct (_ && _); [done|]. by apply TrimSpace_cons_space. }
  assert (H2 : forall y, normalizeOutput (y ++ [newline]) = normalizeOutput y).
  { intros y. rewrite !normalizeOutput_unfold, trimLines_snoc_newline.
    by apply TrimSpace_snoc_space. }
  split; [apply H1|]. split; [apply H2|].
  unfold compareOutputs. apply bool_decide_eq_true.
  by rewrite H1, H2.
Qed.

(** X25. The normal forms: [normalizeOutput] leaves a text as it is
    exactly when no space, tab or carriage return stands directly
    before a newline or at the end of the text and [strings.TrimSpace]
    leaves the text as it is; and what [normalizeOutput] returns is
    always such a text. *)
Theorem normalizeOutput_fixed_point (x : gostring) :
  (normalizeOutput x = x <-> clean x = true /\ strings.TrimSpace x = x)
  /\ clean (normalizeOutput x) = true
  /\ strings.TrimSpace (normalizeOutput x) = normalizeOutput x.
Proof.
  assert (Hclean : forall y, clean (normalizeOutput y) = true).
  { intros y. rewrite normalizeOutput_unfold. apply TrimSpace_clean, trimLines_clean. }
  assert (Htrim : forall y, strings.TrimSpace (normalizeOutput y) = normalizeOutput y).
  { intros y. rewrite normalizeOutput_unfold. apply TrimSpace_idempotent. }
  split; [|by split]. split.
  - intros Hx. split; [by rewrite <- Hx|]. by rewrite <- Hx at 1 2.
  - intros [Hc Ht]. by rewrite normalizeOutput_unfold, (clean_trimLines x Hc).
Qed.

(** ** More on the executor and the runner *)

Section ExecutorFacts.

Variable go : GoLibrary.

(** X3. The fields of an execution result hang together: a result has
    passed exactly when its error text is empty, and then its exit code
    is 0; when the run of the child failed, the actual output is empty
    whatever the child had printed, the exit code is that of the exit
    error (0 for any other error), and a deadline that has passed gives
    the timeout message whatever stands on standard error. *)
Theorem Execute_result_fields (config : Config)
    (spawn : gostring -> gostring -> ChildRun) (executablePath : gostring)
    (testCase : TestCase) (testNumber : Z) :
  let child := spawn executablePath (Input testCase) in
  let result := Execute go config spawn executablePath testCase testNumber in
  (Passed result = true <-> Error result = [])
  /\ (Passed result = true -> ExitCode result = 0)
  /\ match run_err child with
     | None => ActualOutput result = child_stdout child /\ ExitCode result = 0
     | Some e =>
         ActualOutput result = []
         /\ ExitCode result = match e with ExitError code _ => code | OtherError _ => 0 end
         /\ (deadline_exceeded child = true ->
             Error result =
               str "timeout exceeded (" ++ Duration_String go (GetTimeout go config)
                 ++ str ")")
     end.
Proof.
  intros child result. subst result. unfold Execute. fold child.
  unfold runGoProgram. destruct (run_err child) as [e|].
  - destruct (deadline_exceeded child); [cbn; by repeat split|].
    destruct (0 <? _); cbn; by repeat split.
  - destruct (compareOutputs _ _); cbn; by repeat split.
Qed.

(** X4. No diff for a run that failed or printed nothing: when the run
    of the child ended in an error, or the child printed nothing, the
    result holds an empty actual output and [displayFailedTest] shows
    no diff for it, also with [ShowDiff] on. *)
Theorem failed_run_shows_no_diff (config : Config)
    (spawn : gostring -> gostring -> ChildRun) (executablePath : gostring)
    (testCase : TestCase) (testNumber : Z) :
  let child := spawn executablePath (Input testCase) in
  let result := Execute go config spawn executablePath testCase testNumber in
  run_err child <> None \/ child_stdout child = [] ->
  ActualOutput result = [] /\ displayFailedTest config result = Some [].
Proof.
  intros child result Hc.
  assert (Hact : ActualOutput result = []).
  { subst result. unfold Execute. fold child. unfold runGoProgram.
    destruct (run_err child) as [e|].
    - destruct (deadline_exceeded child); [done|]. by destruct (0 <? _).
    - destruct Hc as [|Hc]; [done|]. rewrite Hc.
      by destruct (compareOutputs _ _). }
  split; [done|]. unfold displayFailedTest. rewrite Hact.
  by rewrite andb_false_r.
Qed.

End ExecutorFacts.

Lemma truncateOutput_Some (maxOutput : Z) (output : gostring) :
  0 <= maxOutput ->
  exists shown, truncateOutput maxOutput output = Some shown
    /\ (Z.of_nat (length shown) <= maxOutput + 3)
    /\ take (Z.to_nat maxOutput) shown = take (Z.to_nat maxOutput) output
    /\ (Z.of_nat (length output) <= maxOutput -> shown = output).
Proof.
  intros Hmax. unfold truncateOutput.
  destruct (Z.ltb_spec maxOutput (Z.of_nat (length output))) as [Hlong|Hshort].
  - destruct (Z.ltb_spec maxOutput 0); [lia|]. eexists. split; [done|].
    rewrite length_app, length_take. change (length (str "...")) with 3%nat.
    split; [lia|]. split.
    + rewrite take_app_le by (rewrite length_take; lia).
      by rewrite take_take, Nat.min_id.
    + intros; lia.
  - exists output. split; [done|]. split; [lia|]. split; [done|]. done.
Qed.


(** ** Properties of the report *)

Lemma displayResults_loop_acc (results : list TestResult) (acc : Summary) :
  let s := foldl displayResults_step acc results in
  passed s = passed acc
             + Z.of_nat (length (filter (fun r => Passed r = true) results))
  /\ failed s = failed acc
                + Z.of_nat (length (filter (fun r => Passed r = false) results))
  /\ failedTests s = failedTests acc ++ filter (fun r => Passed r = false) results.
Proof.
  revert acc. induction results as [|r results IH]; intros acc; cbn zeta.
  { cbn. by rewrite !Z.add_0_r, app_nil_r. }
  cbn [foldl]. destruct (IH (displayResults_step acc r)) as (Hp & Hf & Hl).
  rewrite Hp, Hf, Hl. rewrite !filter_cons. unfold displayResults_step.
  destruct (Passed r) eqn:Hr; cbn [passed failed failedTests].
  - rewrite decide_True, decide_False by done. cbn [length].
    split; [lia|]. split; done.
  - rewrite decide_False, decide_True by done. cbn [length].
    split; [done|]. split; [lia|]. by rewrite <- app_assoc.
Qed.

Lemma filter_Passed_length (results : list TestResult) :
  (length (filter (fun r => Passed r = true) results)
   + length (filter (fun r => Passed r = false) results) = length results)%nat.
Proof.
  induction results as [|r results IH]; [done|]. rewrite !filter_cons.
  destruct (Passed r); [rewrite decide_True, decide_False by done
                       |rewrite decide_False, decide_True by done];
    cbn [length]; lia.
Qed.

Lemma filter_Passed_none (results : list TestResult) (b : bool) :
  length (filter (fun r => Passed r = negb b) results) = 0%nat
  <-> Forall (fun r => Passed r = b) results.
Proof.
  rewrite length_zero_iff_nil. split.
  - intros Hnil. apply Forall_forall. intros r Hr.
    destruct (decide (Passed r = negb b)) as [Hb|Hb].
    + assert (r ∈ filter (fun r => Passed r = negb b) results) as Hin
        by (by apply list_elem_of_filter).
      rewrite Hnil in Hin. by apply not_elem_of_nil in Hin.
    + by destruct (Passed r), b.
  - intros Hf'. apply filter_Forall_not. eapply Forall_impl; [exact Hf'|].
    intros r ->. by destruct b.
Qed.

Lemma displayResults_all_passed (results : list TestResult) :
  all_passed (displayResults results) = true
  <-> Forall (fun r => Passed r = true) results.
Proof.
  unfold displayResults, displayResults_loop.
  destruct (displayResults_loop_acc results
              {| passed := 0; failed := 0; failedTests := []; totalTime := 0 |})
    as (_ & Hf & _).
  cbn zeta in Hf. cbn [failed] in Hf. cbn [all_passed].
  rewrite Z.eqb_eq, <- (filter_Passed_none results true). cbn [negb]. lia.
Qed.

(** X6. The summary of [displayResults]: the counts of passed and of
    failed results add up to the number of results; the failed results
    are displayed in the order of the result array, and their count is
    the count that is printed; the closing line announces that all
    tests passed exactly when every result has passed (also for no
    results at all); the line of a count of zero is left out. *)
Theorem displayResults_counts (results : list TestResult) :
  let s := displayResults_loop results in
  let report := displayResults results in
  passed s + failed s = Z.of_nat (length results)
  /\ failedTests s = filter (fun r => Passed r = false) results
  /\ failed s = Z.of_nat (length (failedTests s))
  /\ failed_cases report = filter (fun r => Passed r = false) results
  /\ (all_passed report = true <-> Forall (fun r => Passed r = true) results)
  /\ (passed_line report = None <-> Forall (fun r => Passed r = false) results)
  /\ (failed_line report = None <-> Forall (fun r => Passed r = true) results).
Proof.
  intros s report. pose proof (displayResults_all_passed results) as Hbanner.
  subst s report. unfold displayResults, displayResults_loop in *.
  destruct (displayResults_loop_acc results
              {| passed := 0; failed := 0; failedTests := []; totalTime := 0 |})
    as (Hp & Hf & Hl).
  cbn zeta in Hp, Hf, Hl. cbn [passed failed failedTests app] in Hp, Hf, Hl.
  set (s := foldl _ _ _) in *.
  cbn [failed_cases all_passed passed_line failed_line] in *.
  pose proof (filter_Passed_length results) as Hlen.
  split; [lia|]. split; [done|]. split; [by rewrite Hl, Hf|]. split; [done|].
  split; [done|]. split.
  - rewrite <- (filter_Passed_none results false). cbn [negb].
    destruct (Z.ltb_spec 0 (passed s)); split; try done; lia.
  - rewrite <- (filter_Passed_none results true). cbn [negb].
    destruct (Z.ltb_spec 0 (failed s)); split; try done; lia.
Qed.

Section GateFacts.

Variable go : GoLibrary.
Variable config : Config.
Variable spawn : nat -> gostring -> gostring -> ChildRun.
Variable executablePath : gostring.
Variable testCases : list TestCase.

Local Abbreviation stp := (step go config spawn executablePath testCases).
Local Abbreviation reach := (reachable go config spawn executablePath testCases).

(** X7. With a parallelism of zero and at least one fixture
    [runTests] never returns: the channel has no buffer, so no
    goroutine gets past its send. The only state of the run is the
    initial one, no step is possible from it, and it is not a state in
    which [wg.Wait] returns. *)
Theorem runTests_zero_parallel_blocks (s : RunState) :
  Parallel config = 0 -> testCases <> [] -> reach s ->
  runTests_init config testCases = Some s
  /\ ~ all_finished s
  /\ forall s', ~ stp s s'.
Proof.
  intros HK Hne (s0 & Hinit & Hsteps).
  assert (Hs0 : s0 = {| phases := replicate (length testCases) Pending;
                        semaphore := 0;
                        results := replicate (length testCases) zeroResult |}).
  { unfold runTests_init in Hinit. rewrite HK in Hinit. cbn in Hinit. congruence. }
  assert (Hstuck : forall s', ~ stp s0 s').
  { intros s' Hstep. rewrite Hs0 in Hstep.
    inversion Hstep as [? index Hph Hlt|? index tc Hph _|? index Hph];
      cbn in *; [lia|apply lookup_replicate in Hph as [? _]; done..]. }
  assert (s = s0) as ->.
  { destruct Hsteps as [|x y z Hxy _]; [done|]. by apply Hstuck in Hxy. }
  split; [done|]. split; [|done].
  subst s0. unfold all_finished. cbn [phases].
  destruct testCases as [|tc tcs]; [done|]. cbn.
  intros H. apply Forall_cons in H as [? _]. done.
Qed.

End GateFacts.

(** ** More on the fetcher *)

Lemma digits_value_ge (s : gostring) (acc v : Z) :
  strconv.digits_value acc s = Some v -> 0 <= acc -> acc <= v.
Proof.
  revert acc. induction s as [|c s IH]; intros acc; cbn [strconv.digits_value].
  { intros [= <-]. lia. }
  destruct (strconv.is_digit c) eqn:Hc; [|done].
  intros Hv Hacc. apply IH in Hv.
  - unfold strconv.is_digit in Hc. apply andb_true_iff in Hc as [H1%Z.leb_le _]. lia.
  - unfold strconv.is_digit in Hc. apply andb_true_iff in Hc as [H1%Z.leb_le _]. lia.
Qed.

Lemma Atoi_ok_range (s : gostring) (num : Z) :
  strconv.Atoi s = (num, true) -> - 2 ^ 63 <= num < 2 ^ 63.
Proof.
  unfold strconv.Atoi.
  destruct (match s with [] => _ | _ :: _ => _ end) as [neg digits].
  destruct digits as [|d digits]; [done|].
  destruct (strconv.digits_value 0 (d :: digits)) as [un|] eqn:Hun; [|done].
  apply digits_value_ge in Hun; [|done].
  destruct neg; cbn [negb andb].
  - destruct (Z.ltb_spec (2 ^ 63) un); [done|]. intros [= <-]. lia.
  - destruct (Z.leb_spec (2 ^ 63) un); [done|]. intros [= <-]. lia.
Qed.

Lemma parseTestNumber_loop_range (patterns : list gostring) :
  0 <= parseTestNumber_loop patterns < 2 ^ 63.
Proof.
  induction patterns as [|p patterns IH]; cbn [parseTestNumber_loop]; [lia|].
  destruct (strconv.Atoi p) as [num ok] eqn:Hp.
  destruct ok; cbn [andb]; [|done].
  destruct (Z.ltb_spec 0 num); [|done].
  apply Atoi_ok_range in Hp. lia.
Qed.

Lemma HasPrefix_app (p s : gostring) : strings.HasPrefix (p ++ s) p = true.
Proof.
  induction p as [|c p IH]; [by destruct s|]. cbn [app strings.HasPrefix].
  by rewrite Ascii.eqb_refl.
Qed.

Lemma HasSuffix_app (s suffix : gostring) :
  strings.HasSuffix (s ++ suffix) suffix = true.
Proof. unfold strings.HasSuffix. rewrite rev_app_distr. apply HasPrefix_app. Qed.

Lemma TrimSuffix_app_r (s suffix : gostring) :
  strings.TrimSuffix (s ++ suffix) suffix = s.
Proof.
  unfold strings.TrimSuffix. rewrite HasSuffix_app, length_app.
  replace (length s + length suffix - length suffix)%nat with (length s) by lia.
  by rewrite take_app_length.
Qed.

Lemma TrimPrefix_app (p s : gostring) : strings.TrimPrefix (p ++ s) p = s.
Proof. unfold strings.TrimPrefix. by rewrite HasPrefix_app, drop_app_length. Qed.

(** A word in front of a numeral is not read as a number. *)
Lemma Atoi_letter (c : ascii) (s : gostring) :
  strconv.is_digit c = false -> Ascii.eqb c "-" = false -> Ascii.eqb c "+" = false ->
  strconv.Atoi (c :: s) = (0, false).
Proof.
  intros Hd Hm Hp. unfold strconv.Atoi. rewrite Hm, Hp.
  cbn [strconv.digits_value]. by rewrite Hd.
Qed.

Lemma Atoi_word (s : gostring) :
  strconv.Atoi (str "test" ++ s) = (0, false)
  /\ strconv.Atoi (str "input" ++ s) = (0, false)
  /\ strconv.Atoi (str "output" ++ s) = (0, false).
Proof.
  split; [|split].
  - exact (Atoi_letter "t" (str "est" ++ s) eq_refl eq_refl eq_refl).
  - exact (Atoi_letter "i" (str "nput" ++ s) eq_refl eq_refl eq_refl).
  - exact (Atoi_letter "o" (str "utput" ++ s) eq_refl eq_refl eq_refl).
Qed.

(** X8. [parseTestNumber] reads back the names that are built from a
    number: for a positive [int] n, any of the prefixes "", "test",
    "input" and "output", and any suffix, the file name made of the
    prefix, the decimal numeral of n and the suffix is parsed to n. So
    the names "n.in" and "n.out" under which [cacheTestCases] stores a
    fixture carry its ordinal. *)
Theorem parseTestNumber_numeral (n : Z) (prefix suffix : gostring) :
  0 < n < 2 ^ 63 -> known_prefix prefix ->
  parseTestNumber (prefix ++ strconv.Itoa n ++ suffix) suffix = n.
Proof.
  intros Hn Hp. unfold parseTestNumber.
  rewrite app_assoc, TrimSuffix_app_r.
  pose proof (Atoi_Itoa n ltac:(lia)) as Hatoi.
  assert (Hpos : (0 <? n) = true) by (apply Z.ltb_lt; lia).
  destruct (Atoi_word (strconv.Itoa n)) as (Ht & Hi & Ho).
  destruct Hp as [->|[->|[->| ->]]]; cbn [parseTestNumber_loop].
  - cbn [app]. by rewrite Hatoi, Hpos.
  - by rewrite Ht, TrimPrefix_app, Hatoi, Hpos.
  - change (strings.TrimPrefix (str "input" ++ strconv.Itoa n) (str "test"))
      with (str "input" ++ strconv.Itoa n).
    by rewrite Hi, TrimPrefix_app, Hatoi, Hpos.
  - change (strings.TrimPrefix (str "output" ++ strconv.Itoa n) (str "test"))
      with (str "output" ++ strconv.Itoa n).
    change (strings.TrimPrefix (str "output" ++ strconv.Itoa n) (str "input"))
      with (str "output" ++ strconv.Itoa n).
    by rewrite Ho, TrimPrefix_app, Hatoi, Hpos.
Qed.

Lemma TrimPrefix_split (base p : gostring) :
  exists prefix, (prefix = [] \/ prefix = p)
    /\ base = prefix ++ strings.TrimPrefix base p.
Proof.
  unfold strings.TrimPrefix. destruct (strings.HasPrefix base p) eqn:Hpre.
  - exists p. split; [by right|]. by apply HasPrefix_drop.
  - exists []. split; [by left|done].
Qed.

(** X9. [parseTestNumber] returns 0 or a positive [int]; and a
    positive result is the value that [strconv.Atoi] gives, without
    error, to what is left of the file name when the suffix and one of
    the prefixes "", "test", "input" and "output" are taken off. *)
Theorem parseTestNumber_range (filename suffix : gostring) :
  0 <= parseTestNumber filename suffix < 2 ^ 63
  /\ (0 < parseTestNumber filename suffix ->
      exists prefix numeral,
        known_prefix prefix
        /\ strings.TrimSuffix filename suffix = prefix ++ numeral
        /\ strconv.Atoi numeral = (parseTestNumber filename suffix, true)).
Proof.
  split; [apply parseTestNumber_loop_range|].
  unfold parseTestNumber. set (base := strings.TrimSuffix filename suffix).
  assert (Hloop : forall patterns,
    Forall (fun pattern => exists prefix, known_prefix prefix
                                          /\ base = prefix ++ pattern) patterns ->
    0 < parseTestNumber_loop patterns ->
    exists prefix numeral,
      known_prefix prefix /\ base = prefix ++ numeral
      /\ strconv.Atoi numeral = (parseTestNumber_loop patterns, true)).
  { induction 1 as [|pattern patterns (prefix & Hp & Hbase) _ IH];
      cbn [parseTestNumber_loop]; [lia|].
    destruct (strconv.Atoi pattern) as [num ok] eqn:Hnum.
    destruct ok; cbn [andb]; [|exact IH].
    destruct (Z.ltb_spec 0 num); [|exact IH].
    intros _. by exists prefix, pattern. }
  apply Hloop. unfold known_prefix.
  destruct (TrimPrefix_split base (str "test")) as (p1 & Hp1 & H1).
  destruct (TrimPrefix_split base (str "input")) as (p2 & Hp2 & H2).
  destruct (TrimPrefix_split base (str "output")) as (p3 & Hp3 & H3).
  repeat first [apply Forall_cons_2 | apply Forall_nil_2].
  - exists []. auto.
  - exists p1. split; [|done]. destruct Hp1; auto.
  - exists p2. split; [|done]. destruct Hp2; auto.
  - exists p3. split; [|done]. destruct Hp3; auto.
Qed.

Section FetcherFacts.

Variable go : GoLibrary.
Variable w : World.
Variable config : Config.

Local Abbreviation extractTestCasesFromZip := (extractTestCasesFromZip go).
Local Abbreviation loadCached_loop := (loadCached_loop go w).
Local Abbreviation loadCachedTestCases := (loadCachedTestCases go w).
Local Abbreviation cacheTestCases := (cacheTestCases go w).
Local Abbreviation cacheTestCases_loop := (cacheTestCases_loop go w).
Local Abbreviation fetchFromCSES := (fetchFromCSES go w config).
Local Abbreviation FetchTestCases := (FetchTestCases go w config).
Local Abbreviation cached_fixture := (cached_fixture go w).
Local Abbreviation cache_writes := (cache_writes go).

Lemma extractTestCasesFromZip_shape (zipData : gostring) :
  let r := extractTestCasesFromZip zipData in
  (snd r = None /\ fst r <> []) \/ (snd r <> None /\ fst r = []).
Proof.
  cbn zeta. unfold extractTestCasesFromZip.
  destruct (zip_NewReader go zipData) as [files|e]; [|by right].
  destruct (zip_maps files) as [inputs outputs].
  destruct (match_pairs _ _ _ _) as [|tc tcs]; [by right|by left].
Qed.

Lemma FetchTestCases_shape (problemID : gostring) (s : ProgState) :
  let r := fst (FetchTestCases problemID s) in
  (snd r = None /\ fst r <> []) \/ (snd r <> None /\ fst r = []).
Proof.
  cbn zeta. unfold FetchTestCases, bind.
  destruct (loadCachedTestCases _ s) as [[cached err] s1].
  destruct (bool_decide (err = None) && _) eqn:Hhit.
  { left. apply andb_true_iff in Hhit as [_ Hlen%Z.ltb_lt].
    split; [done|]. cbn. by destruct cached. }
  unfold fetchFromCSES, bind.
  destruct (EnsureAuthenticated go w config s1) as [[e|] s2]; [by right|].
  destruct (DownloadTestCases w problemID s2) as [[zipData [e|]] s3]; [by right|].
  pose proof (extractTestCasesFromZip_shape zipData) as Hshape. cbn zeta in Hshape.
  unfold ret. cbv beta iota.
  destruct (extractTestCasesFromZip zipData) as [testCases [e|]];
    cbn [fst snd] in Hshape.
  - by right.
  - destruct (cacheTestCases _ testCases s3). left. cbn.
    destruct Hshape as [[_ ?]|[? _]]; done.
Qed.

(** X11. The three functions that hand fixtures on,
    [extractTestCasesFromZip], [fetchFromCSES] and [FetchTestCases],
    return either no error and at least one fixture, or an error and
    no fixture: never an empty list without an error. So the test
    [len(testCases) == 0] of [Run] never holds after a fetch that has
    succeeded. *)
Theorem FetchTestCases_nonempty_or_error (problemID zipData : gostring)
    (s : ProgState) :
  let shape (r : list TestCase * error) :=
    (snd r = None /\ fst r <> []) \/ (snd r <> None /\ fst r = []) in
  shape (extractTestCasesFromZip zipData)
  /\ shape (fst (fetchFromCSES problemID s))
  /\ shape (fst (FetchTestCases problemID s)).
Proof.
  cbn zeta. split; [apply extractTestCasesFromZip_shape|].
  split; [|apply FetchTestCases_shape].
  unfold fetchFromCSES, bind.
  destruct (EnsureAuthenticated go w config s) as [[e|] s2]; [by right|].
  destruct (DownloadTestCases w problemID s2) as [[data [e|]] s3]; [by right|].
  apply extractTestCasesFromZip_shape.
Qed.

(** What the loop over the entries of an archive has put into the two
    maps comes from entries of the archive. *)
Lemma zip_collect_entries (files : list ZipEntry) (file : ZipEntry)
    (maps : gmap Z gostring * gmap Z gostring) :
  file ∈ files ->
  (forall n c, maps.1 !! n = Some c -> 0 < n /\ entry_for files (str ".in") n c) ->
  (forall n c, maps.2 !! n = Some c -> 0 < n /\ entry_for files (str ".out") n c) ->
  (forall n c, (zip_collect maps file).1 !! n = Some c ->
     0 < n /\ entry_for files (str ".in") n c)
  /\ (forall n c, (zip_collect maps file).2 !! n = Some c ->
        0 < n /\ entry_for files (str ".out") n c).
Proof.
  intros Hin H1 H2. destruct maps as [inputs outputs]. unfold zip_collect.
  destruct (zipIsDir file) eqn:Hdir; [done|].
  destruct (zipContent file) as [content|e] eqn:Hcontent; [|done].
  destruct (strings.HasSuffix (zipName file) (str ".in")) eqn:Hsin.
  - destruct (Z.ltb_spec 0 (parseTestNumber (zipName file) (str ".in"))) as [Hpos|];
      [|done].
    split; [|done]. intros n c. cbn [fst].
    destruct (decide (n = parseTestNumber (zipName file) (str ".in"))) as [->|Hn].
    + rewrite lookup_insert_eq. intros [= <-]. split; [done|]. by exists file.
    + rewrite lookup_insert_ne by done. apply H1.
  - destruct (strings.HasSuffix (zipName file) (str ".out")) eqn:Hsout; [|done].
    destruct (Z.ltb_spec 0 (parseTestNumber (zipName file) (str ".out"))) as [Hpos|];
      [|done].
    split; [done|]. intros n c. cbn [snd].
    destruct (decide (n = parseTestNumber (zipName file) (str ".out"))) as [->|Hn].
    + rewrite lookup_insert_eq. intros [= <-]. split; [done|]. by exists file.
    + rewrite lookup_insert_ne by done. apply H2.
Qed.

Lemma zip_maps_entries (files : list ZipEntry) :
  (forall n c, (zip_maps files).1 !! n = Some c ->
     0 < n /\ entry_for files (str ".in") n c)
  /\ (forall n c, (zip_maps files).2 !! n = Some c ->
        0 < n /\ entry_for files (str ".out") n c).
Proof.
  unfold zip_maps.
  assert (H : forall l maps,
    l ⊆ files ->
    (forall n c, maps.1 !! n = Some c -> 0 < n /\ entry_for files (str ".in") n c) ->
    (forall n c, maps.2 !! n = Some c -> 0 < n /\ entry_for files (str ".out") n c) ->
    (forall n c, (foldl zip_collect maps l).1 !! n = Some c ->
       0 < n /\ entry_for files (str ".in") n c)
    /\ (forall n c, (foldl zip_collect maps l).2 !! n = Some c ->
          0 < n /\ entry_for files (str ".out") n c)).
  { induction l as [|file l IH]; intros maps Hsub H1 H2; [done|].
    cbn [foldl].
    destruct (zip_collect_entries files file maps) as [H1' H2']; [|done|done|].
    { apply Hsub. by left. }
    apply IH; [|done|done]. intros x Hx. apply Hsub. by right. }
  apply H; [done|..]; intros n c; cbn; by rewrite lookup_empty.
Qed.

(** X10. Where the fixtures of an archive come from: every fixture
    that [extractTestCasesFromZip] returns has a positive ordinal, its
    input is the content of an entry of the archive that is no
    directory, whose name ends in ".in" and is parsed to that ordinal,
    and its expected output is the content of such an entry with a
    name ending in ".out". *)
Theorem extracted_fixtures_from_entries (zipData : gostring)
    (files : list ZipEntry) (testCases : list TestCase) :
  range_visits_keys go ->
  zip_NewReader go zipData = Ok files ->
  extractTestCasesFromZip zipData = (testCases, None) ->
  forall tc, tc ∈ testCases ->
    0 < Number tc < 2 ^ 63
    /\ entry_for files (str ".in") (Number tc) (Input tc)
    /\ entry_for files (str ".out") (Number tc) (Expected tc).
Proof.
  intros Hrange Hzip Hex tc Htc.
  destruct (zip_maps files) as [inputs outputs] eqn:Hmaps.
  rewrite (extractTestCasesFromZip_Ok go zipData files inputs outputs Hzip Hmaps)
    in Hex.
  cbn zeta in Hex. destruct (decide _) as [|_]; [done|]. injection Hex as <-.
  apply list_elem_of_omap in Htc as (n & Hn & Hfix).
  apply fixture_of_Some in Hfix as (Hnum & Hout & Hinp).
  destruct (zip_maps_entries files) as [H1 H2]. rewrite Hmaps in H1, H2.
  cbn [fst snd] in H1, H2.
  assert (Hkey : is_Some (inputs !! n)).
  { rewrite (Hrange inputs) in Hn.
    apply list_elem_of_fmap in Hn as ([k v] & -> & Hkv).
    apply elem_of_map_to_list in Hkv. by eexists. }
  destruct Hkey as [c Hc]. rewrite Hc in Hinp. cbn in Hinp.
  rewrite Hnum, Hinp.
  destruct (H1 n c Hc) as [Hpos Hentry]. destruct (H2 n _ Hout) as [_ Hentry'].
  split; [|done]. split; [done|].
  destruct Hentry as (file & _ & _ & _ & _ & <-).
  apply parseTestNumber_loop_range.
Qed.

End FetcherFacts.

Section CacheFacts.

Variable go : GoLibrary.

Local Abbreviation cache_writes := (cache_writes go).

Section Reading.

Variable w : World.
Variable config : Config.

Local Abbreviation loadCached_loop := (loadCached_loop go w).
Local Abbreviation loadCachedTestCases := (loadCachedTestCases go w).
Local Abbreviation cacheTestCases := (cacheTestCases go w).
Local Abbreviation cacheTestCases_loop := (cacheTestCases_loop go w).
Local Abbreviation FetchTestCases := (FetchTestCases go w config).
Local Abbreviation cached_fixture := (cached_fixture go w).

Lemma loadCached_loop_omap (cacheDir : gostring) (files : list gostring)
    (testCases : list TestCase) (s : ProgState) :
  fst (loadCached_loop cacheDir files testCases s)
  = testCases ++ omap (cached_fixture cacheDir) files.
Proof.
  revert testCases s. induction files as [|name files IH]; intros testCases s.
  { cbn. by rewrite app_nil_r. }
  cbn [loadCached_loop omap list_omap]. unfold cached_fixture at 1.
  destruct (strings.HasSuffix name (str ".in")); [|apply IH].
  unfold bind, os_ReadFile, bind, emit, ret.
  destruct (read_file w (filepath_Join go [cacheDir; name])) as [input|e];
    [|apply IH].
  destruct (read_file w _) as [output|e]; [|apply IH].
  rewrite IH, <- app_assoc. done.
Qed.


Lemma cacheTestCases_loop_trace (cacheDir : gostring) (testCases : list TestCase)
    (s : ProgState) :
  let '(err, s') := cacheTestCases_loop cacheDir testCases s in
  sessionData s' = sessionData s
  /\ exists done, events s' = events s ++ done
       /\ done `prefix_of` cache_writes cacheDir testCases
       /\ (err = None -> done = cache_writes cacheDir testCases).
Proof.
  revert s. induction testCases as [|tc testCases IH]; intros s.
  { cbn. split; [done|]. exists []. by rewrite app_nil_r. }
  cbn [cacheTestCases_loop]. unfold bind, os_WriteFile, bind, emit, ret.
  cbn [cache_writes flat_map].
  set (win := EvWriteFile _ (Input tc)). set (wout := EvWriteFile _ (Expected tc)).
  destruct (write_file w _ (Input tc)) as [e|].
  { split; [done|]. exists [win]. split; [done|]. split; [|done].
    by apply prefix_cons, prefix_nil. }
  destruct (write_file w _ (Expected tc)) as [e|].
  { split; [done|]. exists [win; wout]. cbn [events]. rewrite <- app_assoc.
    split; [done|]. split; [|done].
    by apply prefix_cons, prefix_cons, prefix_nil. }
  match goal with
  | |- context [cacheTestCases_loop cacheDir testCases ?s1] =>
      specialize (IH s1);
      destruct (cacheTestCases_loop cacheDir testCases s1) as [err s']
  end.
  destruct IH as (Hsd & done & Hev & Hpre & Hall). cbn [sessionData events] in *.
  split; [done|]. exists (win :: wout :: done).
  rewrite Hev, <- !app_assoc. split; [done|]. split.
  - by apply prefix_cons, prefix_cons.
  - intros Herr. by rewrite (Hall Herr).
Qed.


End Reading.

End CacheFacts.

Lemma written_app (l1 l2 : list Event) (name : gostring) :
  written (l1 ++ l2) name =
    match written l2 name with
    | Some data => Some data
    | None => written l1 name
    end.
Proof.
  induction l1 as [|e l1 IH]; cbn [app written].
  { by destruct (written l2 name). }
  rewrite IH. by destruct (written l2 name).
Qed.

Lemma Itoa_inj (n m : Z) :
  - 2 ^ 63 <= n < 2 ^ 63 -> - 2 ^ 63 <= m < 2 ^ 63 ->
  strconv.Itoa n = strconv.Itoa m -> n = m.
Proof.
  intros Hn Hm Heq. apply (f_equal strconv.Atoi) in Heq.
  rewrite !Atoi_Itoa in Heq by done. congruence.
Qed.

Lemma cache_in_inj (n m : Z) :
  - 2 ^ 63 <= n < 2 ^ 63 -> - 2 ^ 63 <= m < 2 ^ 63 ->
  cache_in n = cache_in m -> n = m.
Proof.
  intros Hn Hm Heq. apply app_inv_tail in Heq. by apply Itoa_inj.
Qed.

Lemma cache_out_inj (n m : Z) :
  - 2 ^ 63 <= n < 2 ^ 63 -> - 2 ^ 63 <= m < 2 ^ 63 ->
  cache_out n = cache_out m -> n = m.
Proof.
  intros Hn Hm Heq. apply app_inv_tail in Heq. by apply Itoa_inj.
Qed.

Lemma cache_in_out (n m : Z) : cache_in n <> cache_out m.
Proof.
  unfold cache_in, cache_out. intros Heq.
  change (str ".in") with (str ".i" ++ ["n"%char]) in Heq.
  change (str ".out") with (str ".ou" ++ ["t"%char]) in Heq.
  rewrite !app_assoc in Heq. by apply app_inj_tail in Heq as [_ ?].
Qed.

Lemma cache_out_not_input (n : Z) :
  strings.HasSuffix (cache_out n) (str ".in") = false.
Proof.
  unfold strings.HasSuffix, cache_out. by rewrite rev_app_distr.
Qed.

Section RoundTrip.

Variable go : GoLibrary.
Variable cacheDir : gostring.

Hypothesis Join_inj : forall a b,
  filepath_Join go [cacheDir; a] = filepath_Join go [cacheDir; b] -> a = b.

Local Abbreviation in_range n := (- 2 ^ 63 <= n < 2 ^ 63).

Lemma cache_writes_cons (tc : TestCase) (testCases : list TestCase) :
  cache_writes go cacheDir (tc :: testCases) =
    EvWriteFile (filepath_Join go [cacheDir; cache_in (Number tc)]) (Input tc)
    :: EvWriteFile (filepath_Join go [cacheDir; cache_out (Number tc)]) (Expected tc)
    :: cache_writes go cacheDir testCases.
Proof. reflexivity. Qed.

Lemma written_cache_writes_None (testCases : list TestCase) (n : Z) :
  in_range n ->
  Forall (fun tc => in_range (Number tc) /\ Number tc <> n) testCases ->
  written (cache_writes go cacheDir testCases)
    (filepath_Join go [cacheDir; cache_in n]) = None
  /\ written (cache_writes go cacheDir testCases)
       (filepath_Join go [cacheDir; cache_out n]) = None.
Proof.
  intros Hn. induction 1 as [|tc testCases [Hr Hne] _ [IH1 IH2]]; [done|].
  rewrite cache_writes_cons. cbn [written]. rewrite IH1, IH2.
  rewrite !bool_decide_eq_false_2; [done|..]; intros Heq%Join_inj;
    first [ by apply cache_in_out in Heq
          | by (symmetry in Heq; apply cache_in_out in Heq)
          | by apply cache_in_inj in Heq
          | by apply cache_out_inj in Heq ].
Qed.

Lemma written_cache_writes (testCases : list TestCase) (tc : TestCase) :
  Forall (fun tc => in_range (Number tc)) testCases ->
  NoDup (Number <$> testCases) ->
  tc ∈ testCases ->
  written (cache_writes go cacheDir testCases)
    (filepath_Join go [cacheDir; cache_in (Number tc)]) = Some (Input tc)
  /\ written (cache_writes go cacheDir testCases)
       (filepath_Join go [cacheDir; cache_out (Number tc)]) = Some (Expected tc).
Proof.
  induction testCases as [|tc0 testCases IH]; intros Hrange Hnd Hin.
  { by apply not_elem_of_nil in Hin. }
  apply Forall_cons in Hrange as [Hr0 Hrange].
  cbn [fmap list_fmap] in Hnd. apply NoDup_cons in Hnd as [Hfresh Hnd].
  rewrite cache_writes_cons. cbn [written].
  apply elem_of_cons in Hin as [->|Hin].
  - destruct (written_cache_writes_None testCases (Number tc0) Hr0) as [-> ->].
    { apply Forall_forall. intros tc' Htc'. split.
      - by apply (proj1 (Forall_forall _ _) Hrange).
      - intros Heq. apply Hfresh. rewrite <- Heq.
        apply list_elem_of_fmap. by exists tc'. }
    split.
    + rewrite bool_decide_eq_false_2, bool_decide_eq_true_2; [done..|].
      intros Heq%Join_inj. symmetry in Heq. by apply cache_in_out in Heq.
    + by rewrite bool_decide_eq_true_2.
  - destruct (IH Hrange Hnd Hin) as [-> ->]. done.
Qed.


Lemma cached_fixture_stored (w' : World) (tc : TestCase) :
  in_range (Number tc) ->
  read_file w' (filepath_Join go [cacheDir; cache_in (Number tc)]) = Ok (Input tc) ->
  read_file w' (filepath_Join go [cacheDir; cache_out (Number tc)])
    = Ok (Expected tc) ->
  cached_fixture go w' cacheDir (cache_in (Number tc)) = Some tc
  /\ cached_fixture go w' cacheDir (cache_out (Number tc)) = None.
Proof.
  intros Hr Hin Hout. unfold cached_fixture.
  rewrite cache_out_not_input. split; [|done].
  unfold cache_in, cache_out in *.
  rewrite HasSuffix_app, !TrimSuffix_app_r, Hin, Hout, Atoi_Itoa by done.
  by destruct tc.
Qed.

Lemma omap_cached_fixture_stored (w' : World) (testCases : list TestCase) :
  Forall (fun tc => cached_fixture go w' cacheDir (cache_in (Number tc)) = Some tc
                    /\ cached_fixture go w' cacheDir (cache_out (Number tc)) = None)
         testCases ->
  omap (cached_fixture go w' cacheDir) (flat_map cache_names testCases) = testCases.
Proof.
  induction 1 as [|tc testCases [Hin Hout] _ IH]; [done|].
  cbn [flat_map cache_names app omap list_omap]. rewrite Hin, Hout.
  f_equal. exact IH.
Qed.


End RoundTrip.

(** X24. The files that a result names are the files of the cache: when
    [filepath.Join] of three elements is the join of the join of the
    first two with the third, the input file and the expected file of
    the execution result of a fixture are the two files to which
    [cacheTestCases] writes the input and the expected output of that
    fixture, for the cache directory of the configured problem; and
    the expected output of the result is that of the fixture. *)
Theorem reported_files_are_cached (go : GoLibrary) (config : Config)
    (spawn : gostring -> gostring -> ChildRun) (executablePath : gostring)
    (testCases : list TestCase) (tc : TestCase) (testNumber : Z) :
  (forall a b c, filepath_Join go [a; b; c]
                 = filepath_Join go [filepath_Join go [a; b]; c]) ->
  tc ∈ testCases ->
  let result := Execute go config spawn executablePath tc testNumber in
  let cacheDir := filepath_Join go [CacheDir config; ProblemID config] in
  EvWriteFile (InputFile result) (Input tc) ∈ cache_writes go cacheDir testCases
  /\ EvWriteFile (ExpectedFile result) (Expected tc)
       ∈ cache_writes go cacheDir testCases
  /\ ExpectedOutput result = Expected tc.
Proof.
  intros Hjoin Htc result cacheDir. subst result.
  rewrite Execute_InputFile, Execute_ExpectedFile, !Hjoin. fold cacheDir.
  unfold cache_writes. rewrite !list_elem_of_In, !in_flat_map.
  split; [|split].
  - exists tc. split; [by apply list_elem_of_In|]. by left.
  - exists tc. split; [by apply list_elem_of_In|]. right. by left.
  - unfold Execute. destruct (runGoProgram _ _ _) as [[actual code] [msg|]]; [done|].
    by destruct (compareOutputs _ _).
Qed.

(** ** More on the session authenticator *)

(** X15. The freshness window of [HasValidSession] in plain
    arithmetic: a session is valid exactly when its identifier and its
    token are not empty and the clock is at most 24 hours past the
    creation time. The saturation of [time.Since] plays no part, and a
    session with a creation time in the future is valid. *)
Theorem session_valid_window (now : Z) (sd : SessionData) :
  session_valid now (Some sd) = true <->
    PHPSessionID sd <> [] /\ CSRFToken sd <> []
    /\ now - CreatedAt sd <= 24 * time.Hour.
Proof.
  rewrite session_valid_age, !andb_true_iff, !negb_true_iff, Z.leb_le.
  unfold time.Since, time.Sub, time.maxDuration, time.minDuration, time.Hour,
    time.Second.
  destruct (PHPSessionID sd), (CSRFToken sd); cbn [is_empty];
    intuition (try done; try lia).
Qed.

Lemma extractCSRFToken_loop_closed (go : GoLibrary) (patterns : list gostring)
    (html : gostring) :
  match extractCSRFToken_loop go patterns html with
  | (token, None) => token <> []
  | (token, Some _) => token = []
  end.
Proof.
  induction patterns as [|pattern patterns IH]; cbn [extractCSRFToken_loop]; [done|].
  destruct (FindStringSubmatch go pattern html) as [|whole [|token rest]];
    [exact IH..|].
  destruct token; cbn [is_empty negb]; [exact IH|done].
Qed.

Section AuthFacts.

Variable go : GoLibrary.
Variable w : World.
Variable config : Config.

Local Abbreviation LoadSession := (LoadSession go w config).
Local Abbreviation SaveSession := (SaveSession go w config).
Local Abbreviation FetchLoginPage := (FetchLoginPage go w).
Local Abbreviation Login := (Login go w config).
Local Abbreviation EnsureAuthenticated := (EnsureAuthenticated go w config).

Lemma FetchLoginPage_inv (s : ProgState) :
  let '((csrfToken, phpSessionID, err), s') := FetchLoginPage s in
  sessionData s' = sessionData s
  /\ events s' = events s ++ [EvHttp loginPageRequest]
  /\ match err with
     | None =>
         csrfToken <> [] /\ phpSessionID <> []
         /\ exists resp, http_do w loginPageRequest = Ok resp
              /\ StatusCode resp = 200 /\ BodyError resp = None
              /\ extractCSRFToken go (Body resp) = (csrfToken, None)
              /\ phpSessionID = extractPHPSessionID (Cookies resp)
     | Some _ => csrfToken = [] /\ phpSessionID = []
     end.
Proof.
  unfold FetchLoginPage, bind, client_Do, bind, emit, ret.
  fold loginPageRequest.
  destruct (http_do w loginPageRequest) as [resp|e]; [|done].
  destruct (Z.eqb_spec (StatusCode resp) 200) as [Hs|Hs]; cbn [negb]; [|done].
  destruct (BodyError resp) as [e|] eqn:Hbody; [done|].
  pose proof (extractCSRFToken_loop_closed go csrfPatterns (Body resp)) as Htok.
  fold (extractCSRFToken go (Body resp)) in Htok.
  destruct (extractCSRFToken go (Body resp)) as [token [e|]] eqn:Hex; [done|].
  destruct (extractPHPSessionID (Cookies resp)) as [|c sid] eqn:Hsid; [done|].
  destruct token as [|t token]; [done|]. cbn [is_empty orb].
  split; [done|]. split; [done|]. split; [done|]. split; [done|].
  exists resp. by rewrite Hsid.
Qed.

(** X16. [FetchLoginPage] fails closed: it sends exactly one request,
    the GET of the login page, and leaves the session as it is; when it
    returns no error, the page had status 200 and was read to its end,
    the token is not empty and is the one [extractCSRFToken] found, and
    the session identifier is not empty and is the value of the cookie
    PHPSESSID; when it returns an error, the token and the identifier
    it returns are empty. *)
Theorem FetchLoginPage_fail_closed (s : ProgState) :
  let '((csrfToken, phpSessionID, err), s') := FetchLoginPage s in
  sessionData s' = sessionData s
  /\ events s' = events s ++ [EvHttp loginPageRequest]
  /\ match err with
     | None =>
         csrfToken <> [] /\ phpSessionID <> []
         /\ exists resp, http_do w loginPageRequest = Ok resp
              /\ StatusCode resp = 200 /\ BodyError resp = None
              /\ extractCSRFToken go (Body resp) = (csrfToken, None)
              /\ phpSessionID = extractPHPSessionID (Cookies resp)
     | Some _ => csrfToken = [] /\ phpSessionID = []
     end.
Proof. exact (FetchLoginPage_inv s). Qed.

Lemma GetCredentials_run (s : ProgState) :
  GetCredentials w s =
    (let username := environ w (str "CSES_USERNAME") in
     let password := environ w (str "CSES_PASSWORD") in
     if is_empty username then
       ([], [], Some (str "CSES_USERNAME environment variable is not set"))
     else if is_empty password then
       ([], [], Some (str "CSES_PASSWORD environment variable is not set"))
     else (username, password, None),
     {| sessionData := sessionData s;
        events := events s ++ [EvGetenv (str "CSES_USERNAME");
                               EvGetenv (str "CSES_PASSWORD")] |}).
Proof.
  unfold GetCredentials, bind, os_Getenv, bind, emit, ret. cbn [sessionData events].
  rewrite <- app_assoc. cbn [app].
  destruct (is_empty (environ w (str "CSES_USERNAME"))); [done|].
  by destruct (is_empty (environ w (str "CSES_PASSWORD"))).
Qed.

(** X17. Without credentials [Login] never contacts the judge: when
    CSES_USERNAME or CSES_PASSWORD is empty or not set, [Login] returns
    a credential error after it has read the two variables, and has
    done nothing else: no request, no write, the session as it was. *)
Theorem Login_missing_credentials (s : ProgState) :
  environ w (str "CSES_USERNAME") = [] \/ environ w (str "CSES_PASSWORD") = [] ->
  exists e,
    Login s =
      (Some (wrap "credential error" e),
       {| sessionData := sessionData s;
          events := events s ++ [EvGetenv (str "CSES_USERNAME");
                                 EvGetenv (str "CSES_PASSWORD")] |})
    /\ (e = str "CSES_USERNAME environment variable is not set"
        \/ e = str "CSES_PASSWORD environment variable is not set").
Proof.
  intros Hmissing. unfold Login, bind. rewrite GetCredentials_run.
  cbn zeta. destruct (environ w (str "CSES_USERNAME")) as [|c u]; cbn [is_empty].
  { eexists. split; [done|]. by left. }
  destruct Hmissing as [| ->]; [done|]. cbn [is_empty].
  eexists. split; [done|]. by right.
Qed.


(** What a successful [Login] has done. *)
Lemma Login_ok_inv (s s' : ProgState) :
  Login s = (None, s') ->
  exists sd post resp data,
    sessionData s' = Some sd
    /\ PHPSessionID sd <> [] /\ CSRFToken sd <> []
    /\ Username sd = environ w (str "CSES_USERNAME") /\ Username sd <> []
    /\ CreatedAt sd = clock w /\ LastUsed sd = clock w
    /\ events s' =
         events s ++ [ EvGetenv (str "CSES_USERNAME"); EvGetenv (str "CSES_PASSWORD");
                       EvHttp loginPageRequest; EvHttp post;
                       EvMkdirAll (filepath_Dir go (sessionFile config));
                       EvWriteFile (sessionFile config) data ]
    /\ Method post = str "POST" /\ URL post = str "https://cses.fi/login"
    /\ Form post = [ (str "csrf_token", CSRFToken sd); (str "nick", Username sd);
                     (str "pass", environ w (str "CSES_PASSWORD")) ]
    /\ http_do w post = Ok resp /\ validateLoginResponse resp = None
    /\ json_MarshalIndent go sd = Ok data.
Proof.
  unfold Login, bind. rewrite GetCredentials_run. cbn zeta.
  destruct (environ w (str "CSES_USERNAME")) as [|c u] eqn:Huser; cbn [is_empty];
    [done|].
  destruct (environ w (str "CSES_PASSWORD")) as [|c' p] eqn:Hpass; cbn [is_empty];
    [done|].
  match goal with
  | |- context [FetchLoginPage ?s1] =>
      pose proof (FetchLoginPage_inv s1) as Hpage;
      destruct (FetchLoginPage s1) as [[[csrfToken phpSessionID] [e|]] s2]
  end; [done|].
  destruct Hpage as (Hsd2 & Hev2 & Htok & Hsid & _).
  unfold client_Do, bind, emit, ret.
  match goal with
  | |- context [http_do w ?req] =>
      set (post := req); destruct (http_do w post) as [resp|e] eqn:Hpost
  end; [|done].
  destruct (validateLoginResponse resp) as [e|] eqn:Hval; [done|].
  unfold time_Now, set_session, SaveSession, bind, get_session,
    os_MkdirAll, bind, emit, ret, set_session, time_Now, os_WriteFile, bind, emit, ret.
  cbn [sessionData events PHPSessionID CSRFToken Username CreatedAt LastUsed].
  destruct (mkdir_all w _) as [e|]; [done|].
  match goal with
  | |- context [json_MarshalIndent go ?sd0] =>
      set (sd := sd0); destruct (json_MarshalIndent go sd) as [data|e] eqn:Hjson
  end; [|done].
  destruct (write_file w _ data) as [e|]; [done|].
  intros [= <-]. exists sd, post, resp, data. cbn [sessionData events].
  rewrite Hev2. cbn [events]. rewrite <- !app_assoc. cbn [app].
  repeat split; done.
Qed.


Lemma LoadSession_events (s : ProgState) :
  exists evs, events (snd (LoadSession s)) = events s ++ evs
              /\ Forall not_listing evs.
Proof.
  unfold LoadSession, bind, os_Stat_IsNotExist, os_ReadFile, bind,
    emit, ret, set_session.
  destruct (stat_not_exist w _); cbn [snd events].
  { eexists. split; [done|]. by repeat constructor. }
  destruct (read_file w _) as [data|e]; cbn [snd events].
  2: { eexists. rewrite <- app_assoc. split; [done|]. by repeat constructor. }
  destruct (json_Unmarshal go data); cbn [snd events];
    (eexists; rewrite <- app_assoc; split; [done|]; by repeat constructor).
Qed.

Lemma TestSession_inv (s : ProgState) :
  let '(err, s') := TestSession w s in
  sessionData s' = sessionData s
  /\ match sessionData s with
     | None => err = Some (str "no session data") /\ events s' = events s
     | Some sd =>
         exists req, events s' = events s ++ [EvHttp req]
           /\ Method req = str "GET"
           /\ Headers req = [(str "Cookie", str "PHPSESSID=" ++ PHPSessionID sd)]
           /\ (err = None ->
               exists resp, http_do w req = Ok resp /\ StatusCode resp = 200
                 /\ strings.Contains (Body resp) (str "Please login") = false)
     end.
Proof.
  unfold TestSession, bind, get_session, client_Do, bind, emit, ret.
  destruct (sessionData s) as [sd|] eqn:Hsd; [|by rewrite Hsd].
  match goal with
  | |- context [http_do w ?r] =>
      set (req := r); destruct (http_do w req) as [resp|e] eqn:Hdo
  end.
  2: { cbn [sessionData]. split; [done|]. rewrite Hsd. by exists req. }
  destruct (Z.eqb_spec (StatusCode resp) 200) as [Hs|Hs]; cbn [negb].
  2: { cbn [sessionData]. split; [done|]. rewrite Hsd. by exists req. }
  destruct (strings.Contains _ _) eqn:Hc; cbn [sessionData]; (split; [done|]);
    rewrite Hsd; exists req; repeat split; try done.
  intros _. by exists resp.
Qed.

Lemma Login_events (s : ProgState) :
  exists evs, events (snd (Login s)) = events s ++ evs /\ Forall not_listing evs.
Proof.
  unfold Login, bind. rewrite GetCredentials_run. cbn zeta.
  destruct (is_empty (environ w (str "CSES_USERNAME")));
    [eexists; split; [done|by repeat constructor]|].
  destruct (is_empty (environ w (str "CSES_PASSWORD")));
    [eexists; split; [done|by repeat constructor]|].
  match goal with
  | |- context [FetchLoginPage ?s1] =>
      pose proof (FetchLoginPage_inv s1) as Hpage;
      destruct (FetchLoginPage s1) as [[[csrfToken phpSessionID] err] s2]
  end.
  destruct Hpage as (_ & Hev2 & _). cbn [events] in Hev2.
  destruct err as [e|].
  { unfold ret. cbn [snd]. rewrite Hev2, <- app_assoc. eexists. split; [done|].
    by repeat constructor. }
  unfold client_Do, bind, emit, ret.
  destruct (http_do w _) as [resp|e].
  2: { cbn [snd events]. rewrite Hev2, <- !app_assoc. eexists. split; [done|].
       by repeat constructor. }
  destruct (validateLoginResponse resp) as [e|].
  { cbn [snd events]. rewrite Hev2, <- !app_assoc. eexists. split; [done|].
    by repeat constructor. }
  unfold time_Now, set_session, SaveSession, bind, get_session,
    os_MkdirAll, bind, emit, ret, set_session, time_Now, os_WriteFile, bind, emit, ret.
  cbn [sessionData events].
  destruct (mkdir_all w _) as [e|].
  { cbn [snd events]. rewrite Hev2, <- !app_assoc. eexists. split; [done|].
    by repeat constructor. }
  destruct (json_MarshalIndent go _) as [data|e].
  2: { cbn [snd events]. rewrite Hev2, <- !app_assoc. eexists. split; [done|].
       by repeat constructor. }
  destruct (write_file w _ data) as [e|];
    cbn [snd events]; rewrite Hev2, <- !app_assoc; eexists; (split; [done|]);
    by repeat constructor.
Qed.


(** What [EnsureAuthenticated] has done, and what holds when it
    returns no error. *)
Lemma EnsureAuthenticated_inv (s : ProgState) :
  let '(err, s') := EnsureAuthenticated s in
  exists evs, events s' = events s ++ evs /\ Forall not_listing evs
    /\ (err = None ->
        session_valid (clock w) (sessionData s') = true
        /\ Exists (fun e => remote_event e = true) evs).
Proof.
  rewrite EnsureAuthenticated_unfold.
  destruct (LoadSession_events s) as (evs1 & Hev1 & Hkind1).
  destruct (LoadSession s) as [lerr s1]. cbn [snd] in Hev1.
  assert (Hlogin : forall s2 evs2, events s2 = events s ++ evs2 ->
    Forall not_listing evs2 ->
    let '(err, s') := Login s2 in
    exists evs, events s' = events s ++ evs /\ Forall not_listing evs
      /\ (err = None ->
          session_valid (clock w) (sessionData s') = true
          /\ Exists (fun e => remote_event e = true) evs)).
  { intros s2 evs2 Hev2 Hkind2.
    destruct (Login_events s2) as (evs3 & Hev3 & Hkind3).
    pose proof (Login_ok_inv s2) as Hok.
    destruct (Login s2) as [err s']. cbn [snd] in Hev3.
    exists (evs2 ++ evs3). rewrite Hev3, Hev2, <- app_assoc.
    split; [done|]. split; [by apply Forall_app|].
    intros ->.
    destruct (Hok s' eq_refl)
      as (sd & post & resp & data & Hsd & Hid & Htok & _ & _ & Hcreated & _ & Hev & _).
    split.
    - rewrite Hsd, session_valid_age, Hcreated.
      destruct (PHPSessionID sd); [done|]. destruct (CSRFToken sd); [done|].
      cbn [is_empty negb]. rewrite !andb_true_r. apply Z.leb_le.
      unfold time.Since, time.Sub. rewrite Z.sub_diag. done.
    - rewrite Hev3 in Hev. apply app_inv_head in Hev. subst evs3.
      apply Exists_app. right. do 2 apply Exists_cons_tl. by apply Exists_cons_hd. }
  destruct (bool_decide (lerr = None) && session_valid (clock w) (sessionData s1))
    eqn:Hvalid.
  2: { apply (Hlogin s1 evs1 Hev1 Hkind1). }
  apply andb_true_iff in Hvalid as [_ Hvalid].
  pose proof (TestSession_inv s1) as Hprobe.
  destruct (TestSession w s1) as [probe s2]. destruct Hprobe as [Hsd2 Hprobe].
  destruct (sessionData s1) as [sd|] eqn:Hsd1; [|done].
  destruct Hprobe as (req & Hev2 & _).
  case_bool_decide as Hp.
  - exists (evs1 ++ [EvHttp req]). rewrite Hev2, Hev1, <- app_assoc.
    split; [done|]. split; [apply Forall_app; split; [done|by repeat constructor]|].
    intros _. rewrite Hsd2. split; [done|].
    apply Exists_app. right. by apply Exists_cons_hd.
  - apply (Hlogin s2 (evs1 ++ [EvHttp req])).
    + by rewrite Hev2, Hev1, app_assoc.
    + apply Forall_app. split; [done|by repeat constructor].
Qed.



(** X21. [ClearSession] forgets the session whatever becomes of the
    file: afterwards there is no session in memory, [HasValidSession]
    is false, and [TestSession] and [DownloadTestCases] fail without
    sending a request. It returns an error exactly when the removal
    failed for another reason than that the file does not exist. *)
Theorem ClearSession_forgets (os_Remove : gostring -> option (gostring * bool))
    (s : ProgState) :
  let '(err, s') := ClearSession config os_Remove s in
  sessionData s' = None /\ events s' = events s
  /\ (err <> None <->
        exists e, os_Remove (sessionFile config) = Some (e, false))
  /\ fst (HasValidSession w s') = false
  /\ TestSession w s' = (Some (str "no session data"), s')
  /\ forall problemID,
       DownloadTestCases w problemID s' = (([], Some (str "no session data")), s').
Proof.
  unfold ClearSession, bind, set_session, ret.
  destruct (os_Remove (sessionFile config)) as [[e []]|]; cbn [negb];
    (split; [done|]); (split; [done|]);
    (split; [|by repeat split]).
  - split; [done|]. by intros [? [=]].
  - split; [|done]. intros _. by exists e.
  - split; [done|]. by intros [? [=]].
Qed.


(** X26. [TestSession] leaves the session as it is. Without a session
    it returns an error and sends nothing. With a session it sends
    exactly one request, the GET of the statistics page with the
    session cookie, and it returns no error exactly when the response
    has status 200 and what was read of its body does not contain
    "Please login": an error of reading the body is not looked at. *)
Theorem TestSession_outcome (s : ProgState) :
  let '(err, s') := TestSession w s in
  sessionData s' = sessionData s
  /\ match sessionData s with
     | None => err = Some (str "no session data") /\ events s' = events s
     | Some sd =>
         let req := {| Method := str "GET";
                       URL := str "https://cses.fi/problemset/stats";
                       Headers := [(str "Cookie",
                                    str "PHPSESSID=" ++ PHPSessionID sd)];
                       Form := [] |} in
         events s' = events s ++ [EvHttp req]
         /\ (err = None <->
             exists resp, http_do w req = Ok resp /\ StatusCode resp = 200
               /\ strings.Contains (Body resp) (str "Please login") = false)
     end.
Proof.
  unfold TestSession, bind, get_session, client_Do, bind, emit, ret.
  destruct (sessionData s) as [sd|] eqn:Hsd; [|by rewrite Hsd].
  cbn zeta.
  match goal with
  | |- context [http_do w ?r] =>
      set (req := r); destruct (http_do w req) as [resp|e] eqn:Hdo
  end.
  2: { cbn [sessionData events]. rewrite Hsd. split; [done|]. split; [done|].
       split; [done|]. by intros (resp & [=] & _). }
  destruct (Z.eqb_spec (StatusCode resp) 200) as [Hs|Hs]; cbn [negb].
  2: { cbn [sessionData events]. rewrite Hsd. split; [done|]. split; [done|].
       split; [done|]. intros (resp' & [= <-] & ? & _). done. }
  destruct (strings.Contains _ _) eqn:Hc; cbn [sessionData events]; rewrite Hsd;
    (split; [done|]); (split; [done|]).
  - split; [done|]. intros (resp' & [= <-] & _ & Hc'). congruence.
  - split; [|done]. intros _. by exists resp.
Qed.

(** X27. [SaveSession] never changes the identifier, the token, the
    user name or the creation time of the session. Without a session it
    returns an error and does nothing. With a session it returns no
    error exactly when the directory was created, the session with the
    clock as last-use time was marshalled and the file was written with
    that text; these two calls are then all it has done to the file
    system. When the directory cannot be created the session is left as
    it was. *)
Theorem SaveSession_outcome (s : ProgState) :
  let '(err, s') := SaveSession s in
  match sessionData s with
  | None => err = Some (str "no session data to save") /\ s' = s
  | Some sd =>
      let stamped := {| PHPSessionID := PHPSessionID sd; CSRFToken := CSRFToken sd;
                        Username := Username sd; CreatedAt := CreatedAt sd;
                        LastUsed := clock w |} in
      (sessionData s' = Some sd \/ sessionData s' = Some stamped)
      /\ (mkdir_all w (filepath_Dir go (sessionFile config)) <> None ->
          sessionData s' = Some sd /\ err <> None)
      /\ (err = None <->
          mkdir_all w (filepath_Dir go (sessionFile config)) = None
          /\ exists data, json_MarshalIndent go stamped = Ok data
               /\ write_file w (sessionFile config) data = None)
      /\ (err = None ->
          sessionData s' = Some stamped
          /\ exists data, json_MarshalIndent go stamped = Ok data
               /\ events s' =
                    events s ++ [ EvMkdirAll (filepath_Dir go (sessionFile config));
                                  EvWriteFile (sessionFile config) data ])
  end.
Proof.
  unfold SaveSession, bind, get_session, os_MkdirAll, bind, emit, ret, set_session,
    time_Now, os_WriteFile, bind, emit, ret.
  destruct (sessionData s) as [sd|] eqn:Hsd; [|by destruct s].
  cbn zeta. cbn [sessionData events].
  destruct (mkdir_all w _) as [e|] eqn:Hmk.
  { cbn [sessionData]. rewrite Hsd. split; [by left|]. split; [done|].
    split; [|done]. split; [done|]. by intros [? _]. }
  destruct (json_MarshalIndent go _) as [data|e] eqn:Hjson.
  2: { cbn [sessionData]. split; [by right|]. split; [done|].
       split; [|done]. split; [done|]. by intros (_ & data & [=] & _). }
  destruct (write_file w _ data) as [e|] eqn:Hwr; cbn [sessionData events].
  - split; [by right|]. split; [done|]. split; [|done]. split; [done|].
    intros (_ & data' & [= <-] & Hw). congruence.
  - split; [by right|]. split; [done|]. split.
    + split; [|done]. intros _. split; [done|]. by exists data.
    + intros _. split; [done|]. exists data. split; [done|].
      by rewrite <- app_assoc.
Qed.

End AuthFacts.

(** X28. The session file gives back the session that was saved: when
    [SaveSession] has returned no error, the library reads the text it
    has marshalled back to the same session, and later the file exists
    and holds what was written to it last, then [LoadSession] returns
    no error and the session in memory is again the one that was saved
    (with its last-use time, the time of the saving). *)
Theorem session_round_trip (go : GoLibrary) (w w' : World) (config : Config)
    (s s1 s2 : ProgState) (sd : SessionData) :
  SaveSession go w config s = (None, s1) ->
  sessionData s1 = Some sd ->
  (forall data, json_MarshalIndent go sd = Ok data -> json_Unmarshal go data = Ok sd) ->
  stat_not_exist w' (sessionFile config) = false ->
  (forall data, written (events s1) (sessionFile config) = Some data ->
     read_file w' (sessionFile config) = Ok data) ->
  exists s3, LoadSession go w' config s2 = (None, s3)
    /\ sessionData s3 = Some sd
    /\ LastUsed sd = clock w
    /\ fst (HasValidSession w' s3) = session_valid (clock w') (Some sd).
Proof.
  intros Hsave Hsd Hjson Hstat Hfile.
  unfold SaveSession, bind, get_session, os_MkdirAll, bind, emit, ret, set_session,
    time_Now, os_WriteFile, bind, emit, ret in Hsave.
  destruct (sessionData s) as [sd0|]; [|done].
  destruct (mkdir_all w _) as [e|]; [done|].
  cbn [sessionData events] in Hsave.
  destruct (json_MarshalIndent go _) as [data|e] eqn:Hdata; [|done].
  destruct (write_file w _ data) as [e|]; [done|].
  injection Hsave as <-. cbn [sessionData events] in Hsd, Hfile.
  injection Hsd as <-.
  assert (Hread : read_file w' (sessionFile config) = Ok data).
  { apply Hfile. rewrite written_app. cbn [written].
    by rewrite bool_decide_eq_true_2. }
  unfold LoadSession, bind, os_Stat_IsNotExist, os_ReadFile, bind, emit, ret,
    set_session.
  rewrite Hstat. cbn [sessionData events]. rewrite Hread, (Hjson data Hdata).
  eexists. split; [done|]. cbn [sessionData LastUsed]. by repeat split.
Qed.

(** ** Properties of the whole run *)

Lemma before_work (A rest pre post : list RunEvent) (e : RunEvent) :
  A ++ rest = pre ++ e :: post ->
  Forall (fun e => work_event e = false) A -> work_event e = true ->
  exists pre', pre = A ++ pre'.
Proof.
  revert pre. induction A as [|a A IH]; intros pre Heq HA He.
  { by exists pre. }
  apply Forall_cons in HA as [Ha HA].
  destruct pre as [|p pre]; cbn [app] in Heq.
  { injection Heq as -> _. congruence. }
  injection Heq as -> Heq. destruct (IH pre Heq HA He) as [pre' ->].
  by exists pre'.
Qed.

Lemma judge_first_intro (A rest : list RunEvent) :
  Forall (fun e => work_event e = false) A ->
  rest = [] \/ Exists (fun e => judge_request e = true) A ->
  forall pre e post, A ++ rest = pre ++ e :: post -> work_event e = true ->
    Exists (fun e' => judge_request e' = true) pre.
Proof.
  intros HA Hrest pre e post Heq He.
  destruct (before_work A rest pre post e Heq HA He) as [pre' ->].
  destruct Hrest as [->|Hjudge]; [|apply Exists_app; by left].
  rewrite app_nil_r in Heq. apply (f_equal length) in Heq.
  rewrite !length_app in Heq. cbn [length] in Heq. lia.
Qed.

Section RunFacts.

Variable go : GoLibrary.
Variable w : World.
Variable tools : Toolchain.
Variable config : Config.
Variable runTests : gostring -> list TestCase -> TestsOutcome.

Lemma on_auth_MkdirAll (rs : RunnerState) :
  on_auth (os_MkdirAll w (CacheDir config)) rs =
    (mkdir_all w (CacheDir config),
     {| auth := auth rs; fetcher_auth := fetcher_auth rs;
        runlog := runlog rs ++ [EvSys (EvMkdirAll (CacheDir config))] |}).
Proof. reflexivity. Qed.

Lemma on_auth_EnsureAuthenticated (rs : RunnerState) :
  let '(err, rs1) := on_auth (EnsureAuthenticated go w config) rs in
  exists evs, runlog rs1 = runlog rs ++ evs
    /\ Forall (fun e => work_event e = false) evs
    /\ (err = None -> Exists (fun e => judge_request e = true) evs).
Proof.
  unfold on_auth.
  pose proof (EnsureAuthenticated_inv go w config
                {| sessionData := auth rs; events := [] |}) as Hinv.
  destruct (EnsureAuthenticated go w config _) as [err s'].
  destruct Hinv as (evs & Hev & Hkind & Hok). cbn [events app] in Hev.
  exists (EvSys <$> evs). cbn [runlog]. rewrite Hev. split; [done|]. split.
  - apply Forall_fmap. eapply Forall_impl; [exact Hkind|]. by intros [].
  - intros Herr. destruct (Hok Herr) as [_ Hremote].
    apply Exists_fmap. eapply Exists_impl; [exact Hremote|]. done.
Qed.


Lemma wrap_context (context context' : string) (msg msg' : gostring) :
  wrap context msg = wrap context' msg' ->
  take 1 (str context ++ str ":") = take 1 (str context' ++ str ":").
Proof.
  unfold wrap. intros H. apply (f_equal (take 1)) in H.
  destruct (str context), (str context'); done.
Qed.


Lemma finished_results_eq (spawn : nat -> gostring -> gostring -> ChildRun)
    (executablePath : gostring) (testCases : list TestCase) (s : RunState) :
  reachable go config spawn executablePath testCases s -> all_finished s ->
  results s = runTests_results go config spawn executablePath testCases.
Proof.
  intros Hreach Hfin.
  pose proof (reachable_inv go config spawn executablePath testCases s Hreach)
    as Hinv.
  pose proof (finished_results go config spawn executablePath testCases s Hinv Hfin)
    as Hres.
  apply list_eq. intros index. unfold runTests_results. rewrite list_lookup_imap.
  destruct (testCases !! index) as [tc|] eqn:Htc; cbn.
  - by apply Hres.
  - apply lookup_ge_None. apply lookup_ge_None in Htc.
    destruct Hinv as (_ & -> & _). done.
Qed.


End RunFacts.

(** ** The further properties on concrete inputs *)

(** X1 on an output with a CR LF line end. *)
Lemma normalizeOutput_line_end_blank_witness :
  normalizeOutput (str "5 8" ++ "013"%char :: newline :: str "4")
  = normalizeOutput (str "5 8" ++ newline :: str "4").
Proof.
  apply (normalizeOutput_line_end_blank (str "5 8") (newline :: str "4") "013"%char);
    reflexivity.
Defined.

(** X2 on an output with a leading space and a final newline. *)
Lemma normalizeOutput_outer_space_witness :
  compareOutputs (" "%char :: str "42" ++ [newline]) (str "42") = true.
Proof.
  refine (proj2 (proj2 (normalizeOutput_outer_space (str "42") " "%char _))).
  reflexivity.
Defined.

(** X4 on the second fixture of the sample run, which times out. *)
Lemma failed_run_shows_no_diff_witness :
  displayFailedTest blocked_config
    (Execute sample_library blocked_config (sample_spawn 1) (str "./a.out")
       {| Input := str "2"; Expected := str "2 1"; Number := 2 |} 2) = Some [].
Proof.
  refine (proj2 (failed_run_shows_no_diff sample_library blocked_config
                   (sample_spawn 1) (str "./a.out")
                   {| Input := str "2"; Expected := str "2 1"; Number := 2 |} 2 _)).
  left. vm_compute. discriminate.
Defined.

(** X7 on the sample fixtures with a parallelism of zero. *)
Lemma runTests_zero_parallel_blocks_witness :
  runTests_init blocked_config sample_testCases =
    Some {| phases := [Pending; Pending]; semaphore := 0;
            results := [zeroResult; zeroResult] |}.
Proof.
  refine (proj1 (runTests_zero_parallel_blocks sample_library blocked_config
                   sample_spawn (str "./a.out") sample_testCases _ _ _ _)).
  - reflexivity.
  - discriminate.
  - eexists. split; [reflexivity|apply rtc_refl].
Defined.

(** X8 on the name "test12.in". *)
Lemma parseTestNumber_numeral_witness :
  parseTestNumber (str "test" ++ strconv.Itoa 12 ++ str ".in") (str ".in") = 12.
Proof.
  apply parseTestNumber_numeral.
  - split; reflexivity.
  - right. left. reflexivity.
Defined.

(** X10 on the sample archive: the fixture of the ordinal 2. *)
Lemma extracted_fixtures_from_entries_witness :
  entry_for sample_archive (str ".in") 2 (str "7")
  /\ entry_for sample_archive (str ".out") 2 (str "7 11").
Proof.
  refine (proj2 (extracted_fixtures_from_entries sample_library [] sample_archive
                   (fst (extractTestCasesFromZip sample_library []))
                   sample_range_visits_keys _ _
                   {| Input := str "7"; Expected := str "7 11"; Number := 2 |} _)).
  - reflexivity.
  - vm_compute. reflexivity.
  - vm_compute. apply list_elem_of_here.
Defined.

Lemma sample_Join_inj (cacheDir a b : gostring) :
  filepath_Join sample_library [cacheDir; a]
  = filepath_Join sample_library [cacheDir; b] -> a = b.
Proof.
  cbn [filepath_Join sample_library strings.Join]. intros H.
  apply app_inv_head in H. by apply app_inv_head in H.
Defined.


(** X17 on a machine without credentials. *)
Lemma Login_missing_credentials_witness :
  exists e,
    Login sample_library cache_world sample_config start_state =
      (Some (wrap "credential error" e),
       {| sessionData := None;
          events := [EvGetenv (str "CSES_USERNAME"); EvGetenv (str "CSES_PASSWORD")] |})
    /\ (e = str "CSES_USERNAME environment variable is not set"
        \/ e = str "CSES_PASSWORD environment variable is not set").
Proof.
  apply (Login_missing_credentials sample_library cache_world sample_config
           start_state).
  left. reflexivity.
Defined.



(** Tests that are run one after the other are run as the goroutines
    of [runTests] run them. *)
Lemma sequential_runTests_sound (go : GoLibrary) (config : Config)
    (spawn : nat -> gostring -> gostring -> ChildRun) :
  1 <= Parallel config ->
  runTests_sound go config
    (fun executablePath testCases =>
       TestsDone (runTests_results go config spawn executablePath testCases))
    spawn.
Proof.
  intros HK executablePath testCases results0 [= <-].
  assert (Hinit : exists s0, runTests_init config testCases = Some s0).
  { unfold runTests_init. destruct (Z.ltb_spec (Parallel config) 0); [lia|].
    by eexists. }
  destruct Hinit as [s0 Hinit].
  assert (Hreach0 : reachable go config spawn executablePath testCases s0).
  { exists s0. split; [done|apply rtc_refl]. }
  destruct (run_completes go config spawn executablePath testCases s0 HK Hreach0)
    as (s & Hsteps & Hfin).
  assert (Hreach : reachable go config spawn executablePath testCases s).
  { exists s0. by split. }
  exists s. split; [done|]. split; [done|].
  by apply finished_results_eq.
Defined.


(** The same run: it returns no error although the second of its two
    tests has failed, and the judge has been asked once (the probe of
    the session) although the fixtures come from the cache. *)
Example Run_sample :
  let run := Run sample_library cache_world sample_tools sample_config
               sample_runTests fresh_runner in
  fst run = Returns None
  /\ omap (fun e => match e with
                    | EvReport report =>
                        Some (all_passed report, passed_line report,
                              failed_line report, TestNumber <$> failed_cases report)
                    | _ => None
                    end) (runlog (snd run))
     = [(false, Some (1, 2), Some (1, 2), [2])]
  /\ length (filter (fun e => judge_request e = true) (runlog (snd run))) = 1%nat
  /\ omap (fun e => match e with EvExec argv => Some argv | _ => None end)
          (runlog (snd run))
     = [ [str "go"; str "version"];
         [str "go"; str "run"; str "-n"; str "solution.go"];
         [str "go"; str "build"; str "-o"; str "/work/solution_cses_executable";
          str "solution.go"] ].
Proof. vm_compute. repeat split; reflexivity. Qed.

Lemma sample_Join_assoc (a b c : gostring) :
  filepath_Join sample_library [a; b; c]
  = filepath_Join sample_library [filepath_Join sample_library [a; b]; c].
Proof.
  cbn [filepath_Join sample_library strings.Join]. by rewrite <- !app_assoc.
Defined.

(** X24 on the first fixture of the sample run. *)
Lemma reported_files_are_cached_witness :
  EvWriteFile (str "cache/1068/10.in") (str "10")
    ∈ cache_writes sample_library (str "cache/1068") sample_testCases.
Proof.
  refine (proj1 (reported_files_are_cached sample_library sample_config
                   (sample_spawn 0) (str "./a.out") sample_testCases
                   {| Input := str "10"; Expected := str "10 5 16 8 4 2 1";
                      Number := 10 |} 1 sample_Join_assoc _)).
  apply list_elem_of_here.
Defined.

(** X28 on the sample session, saved when the clock reads 0. *)
Lemma session_round_trip_witness :
  exists s3, LoadSession sample_library saved_world sample_config start_state
             = (None, s3)
    /\ sessionData s3 = Some sample_session.
Proof.
  destruct (session_round_trip sample_library (world_after [] [] []) saved_world
              sample_config {| sessionData := Some sample_session; events := [] |}
              saved_state start_state sample_session)
    as (s3 & Hload & Hsd & _).
  - vm_compute. reflexivity.
  - vm_compute. reflexivity.
  - intros data _. reflexivity.
  - vm_compute. reflexivity.
  - intros data Hw. unfold saved_world, world_after. cbn [read_file]. by rewrite Hw.
  - by exists s3.
Defined.
